(* ===================================================================== *)
(*  PDS_Mentions_Extractor: the highlight harvester                       *)
(*                                                                        *)
(*  A shallow embedding of query_solr.py and harvest_highlights.py.       *)
(*  The remote service, the credential file and the disk are an explicit  *)
(*  environment; every effect of the Python code (HTTP GET, sleep, log    *)
(*  record, mkdir, file write) is an event appended to a trace.           *)
(* ===================================================================== *)

From Stdlib Require Import ZArith Lia Ascii String.
From stdpp Require Import gmap strings list fin_maps sorting.

Set Warnings "-register-all".

Open Scope string_scope.
Open Scope list_scope.
Open Scope Z_scope.

(* --------------------------------------------------------------------- *)
(*  1. Data model                                                         *)
(* --------------------------------------------------------------------- *)

(** JSON values carried by the bibliographic fields and the highlight
    fragments.  [VNull] is Python's [None]. *)
Inductive value : Type :=
| VNull
| VNum (z : Z)
| VStr (s : string)
| VList (l : list value).

(** A document record of [response.docs].  A Python dict: each of the nine
    keys the harvester reads may be absent ([None] here), in which case
    [doc['k']] raises KeyError and [doc.get('k')] yields None. *)
Record doc : Type := {
  doc_id       : option string;
  doc_bibcode  : option value;
  doc_title    : option value;
  doc_author   : option value;
  doc_pubdate  : option value;
  doc_doctype  : option value;
  doc_property : option value;
  doc_doi      : option value;
  doc_grant    : option value
}.

(** The "source" sub-record attached to an accumulator entry
    (harvest_highlights.py, lines 136-145 and 171-180). *)
Record source : Type := {
  bibcode  : value;
  title    : value;
  author   : value;
  pubdate  : value;
  doctype  : value;
  property : value;
  doi      : value;
  grant    : value
}.

(** A value stored under a key of an accumulator entry: either the
    fragments delivered by the service, or the record stored under the
    key "source". *)
Inductive entry_val : Type :=
| Fragments (v : value)
| Source (s : source).

(** The parsed body of a search response. *)
Record solr_response : Type := {
  numFound : option Z;
  docs     : option (list doc)
}.

Record results : Type := {
  response     : option solr_response;
  highlighting : option (gmap string (gmap string entry_val))
}.

(** The query descriptor ([query_params] in the source). The dry-run shape
    has no highlight options. *)
Record query_params : Type := {
  qp_q           : string;
  qp_fl          : string;
  qp_hl          : string;
  qp_hl_fl       : option string;
  qp_hl_snippets : option Z;
  qp_hl_fragsize : option Z;
  qp_rows        : Z;
  qp_start       : Z;
  qp_sort        : string
}.

Definition set_start (qp : query_params) (s : Z) : query_params :=
  {| qp_q := qp_q qp; qp_fl := qp_fl qp; qp_hl := qp_hl qp;
     qp_hl_fl := qp_hl_fl qp; qp_hl_snippets := qp_hl_snippets qp;
     qp_hl_fragsize := qp_hl_fragsize qp; qp_rows := qp_rows qp;
     qp_start := s; qp_sort := qp_sort qp |}.

(* --------------------------------------------------------------------- *)
(*  2. Exceptions and their class hierarchy                               *)
(* --------------------------------------------------------------------- *)

(** The exceptions that travel through the two modules.  [HTTPError]
    carries the status of its [response] attribute, or [None] when it was
    built from a message only. *)
Inductive exn : Type :=
| Timeout
| ConnectTimeout
| ReadTimeout
| ConnectionError
| RetryError
| RequestException
| HTTPError (resp : option Z)
| ValueError (msg : string)
| FileNotFoundError (msg : string)
| AttributeError (msg : string)
| KeyError (key : string)
| OSError (msg : string).

(** [isinstance(e, requests.exceptions.Timeout)] *)
Definition is_Timeout (e : exn) : bool :=
  match e with
  | Timeout | ConnectTimeout | ReadTimeout => true
  | _ => false
  end.

(** [isinstance(e, requests.exceptions.ConnectTimeout)] *)
Definition is_ConnectTimeout (e : exn) : bool :=
  match e with ConnectTimeout => true | _ => false end.

(** [isinstance(e, requests.exceptions.HTTPError)] *)
Definition is_HTTPError (e : exn) : bool :=
  match e with HTTPError _ => true | _ => false end.

(** [isinstance(e, requests.exceptions.RequestException)]: the base class
    of every exception of the requests library, HTTPError and the timeouts
    included. *)
Definition is_RequestException (e : exn) : bool :=
  match e with
  | Timeout | ConnectTimeout | ReadTimeout | ConnectionError | RetryError
  | RequestException | HTTPError _ => true
  | _ => false
  end.

Definition is_ValueError (e : exn) : bool :=
  match e with ValueError _ => true | _ => false end.

Definition is_FileNotFoundError (e : exn) : bool :=
  match e with FileNotFoundError _ => true | _ => false end.

(** [isinstance(e, IOError)]: IOError is OSError, and RequestException
    derives from it. *)
Definition is_IOError (e : exn) : bool :=
  match e with
  | OSError _ | FileNotFoundError _ => true
  | _ => is_RequestException e
  end.

(* --------------------------------------------------------------------- *)
(*  3. Effects: the trace                                                 *)
(* --------------------------------------------------------------------- *)

Inductive level : Type := INFO | WARNING | ERROR.

(** The log records of the two modules, one constructor per call site. *)
Inductive message : Type :=
(* query_solr.py *)
| MsgTokenFailed (e : exn)             (* line 72 *)
| MsgInvalidJSON                       (* line 91 *)
| MsgConnectTimedOut                   (* line 98 *)
| MsgReadTimedOut                      (* line 100 *)
| MsgInvalidToken                      (* line 104 *)
| MsgRateLimit                         (* line 107 *)
| MsgStatus (code : Z)                 (* line 110 *)
| MsgNetworkError (e : exn)            (* line 113 *)
(* harvest_highlights.py *)
| MsgRetrying (attempt : Z) (wait : Z) (e : exn)   (* before_sleep_log *)
| MsgQueryFailed (e : exn)             (* line 55 *)
| MsgInvalidResponse (e : exn)         (* line 58 *)
| MsgFirstPage                         (* line 116 *)
| MsgFound (total : Z)                 (* line 121 *)
| MsgNoOutput                          (* line 124 *)
| MsgPage (page : Z)                   (* line 156 *)
| MsgWaiting (delay : Z)               (* line 187 *)
| MsgTimeoutOnPage (page : Z) (n : Z)  (* line 192 *)
| MsgTooManyTimeouts                   (* line 195 *)
| MsgWaitingAfterTimeout (delay : Z)   (* line 200 *)
| MsgPageFailed (page : Z) (e : exn)   (* line 205 *)
| MsgSaved (path : string)             (* line 215 *)
| MsgSavedPartial (n : Z)              (* line 218 *)
| MsgSaveFailed (e : exn)              (* line 221 *)
| MsgHarvestFailed (e : exn).          (* line 225 *)

(** What [json.dump(highlights, f, indent=4)] puts in the file: the JSON
    text of the accumulator, kept abstract as the accumulator and the
    indentation. *)
Inductive file_content : Type :=
| JsonDump (indent : Z) (highlights : gmap string (gmap string entry_val)).

Inductive event : Type :=
| EvGet (qp : query_params)                     (* session.get(url, ...) *)
| EvSleep (seconds : Z)                         (* time.sleep / tenacity *)
| EvLog (lvl : level) (msg : message)           (* logger.<lvl>(...) *)
| EvMkdir (of_path : string)                    (* Path(p).parent.mkdir *)
| EvWrite (path : string) (c : file_content).   (* open(p, "w") + dump *)

Definition trace := list event.

(** The GET requests of a trace, oldest first. *)
Fixpoint requests (tr : trace) : list query_params :=
  match tr with
  | [] => []
  | EvGet qp :: tr' => qp :: requests tr'
  | _ :: tr' => requests tr'
  end.

(** The 'start' offsets sent to the search API. *)
Definition offsets (tr : trace) : list Z := map qp_start (requests tr).

Fixpoint sleeps (tr : trace) : list Z :=
  match tr with
  | [] => []
  | EvSleep s :: tr' => s :: sleeps tr'
  | _ :: tr' => sleeps tr'
  end.

Fixpoint writes (tr : trace) : list (string * file_content) :=
  match tr with
  | [] => []
  | EvWrite p c :: tr' => (p, c) :: writes tr'
  | _ :: tr' => writes tr'
  end.

Fixpoint mkdirs (tr : trace) : list string :=
  match tr with
  | [] => []
  | EvMkdir p :: tr' => p :: mkdirs tr'
  | _ :: tr' => mkdirs tr'
  end.

Fixpoint logs (tr : trace) : list (level * message) :=
  match tr with
  | [] => []
  | EvLog l m :: tr' => (l, m) :: logs tr'
  | _ :: tr' => logs tr'
  end.

(* --------------------------------------------------------------------- *)
(*  4. The environment                                                    *)
(* --------------------------------------------------------------------- *)

(** What [session.get] does: it raises, or it returns a response with a
    status code and a body that parses as JSON ([Some]) or does not. *)
Inductive get_outcome : Type :=
| GetRaises (e : exn)
| GetReturns (status_code : Z) (body : option results).

Record env : Type := {
  (** contents of local_config_jarmak.py, [None] when the file is missing *)
  config_file : option string;
  (** the answer to the n-th GET (n counted from 0) for a descriptor *)
  remote      : nat -> query_params -> get_outcome;
  (** failure of [Path(p).parent.mkdir(parents=True, exist_ok=True)] *)
  mkdir_fails : string -> option exn;
  (** failure of [open(p, "w")] or of the dump into it *)
  write_fails : string -> option exn
}.

(* --------------------------------------------------------------------- *)
(*  5. A state-and-exception monad over the trace                         *)
(* --------------------------------------------------------------------- *)

Inductive outcome (A : Type) : Type :=
| Ok (a : A)
| Raise (e : exn)
| OutOfFuel.
Arguments Ok {A} a.
Arguments Raise {A} e.
Arguments OutOfFuel {A}.

Definition M (A : Type) : Type := trace -> outcome A * trace.

Definition ret {A} (a : A) : M A := fun tr => (Ok a, tr).

Definition raise {A} (e : exn) : M A := fun tr => (Raise e, tr).

Definition bind {A B} (m : M A) (f : A -> M B) : M B :=
  fun tr =>
    match m tr with
    | (Ok a, tr') => f a tr'
    | (Raise e, tr') => (Raise e, tr')
    | (OutOfFuel, tr') => (OutOfFuel, tr')
    end.

(** [try: m  except Exception as e: h e] where [h] picks the clause. *)
Definition try_except {A} (m : M A) (h : exn -> M A) : M A :=
  fun tr =>
    match m tr with
    | (Raise e, tr') => h e tr'
    | r => r
    end.

Definition emit (ev : event) : M unit := fun tr => (Ok tt, tr ++ [ev]).

Definition log (l : level) (m : message) : M unit := emit (EvLog l m).

Definition sleep (s : Z) : M unit := emit (EvSleep s).

Notation "'do' x <- m ; k" := (bind m (fun x => k))
  (at level 10, x name, m at level 100, k at level 200).
Notation "m >> k" := (bind m (fun _ => k))
  (at level 100, k at level 200, right associativity).

(** [d[k]] on a dict whose key may be missing. *)
Definition getitem {A} (key : string) (o : option A) : M A :=
  match o with
  | Some a => ret a
  | None => raise (KeyError key)
  end.

(* --------------------------------------------------------------------- *)
(*  6. query_solr.py                                                      *)
(* --------------------------------------------------------------------- *)

(** [str.isspace] on the ASCII range: what [strip()] removes. *)
Definition is_space (c : ascii) : bool :=
  let n := nat_of_ascii c in
  ((9 <=? n)%nat && (n <=? 13)%nat) || ((28 <=? n)%nat && (n <=? 32)%nat).

(** [f.readline()]: the text up to and including the first line feed. *)
Fixpoint readline (s : string) : string :=
  match s with
  | EmptyString => EmptyString
  | String c r =>
      if (nat_of_ascii c =? 10)%nat then String c EmptyString
      else String c (readline r)
  end.

Fixpoint lstrip (l : list ascii) : list ascii :=
  match l with
  | [] => []
  | c :: r => if is_space c then lstrip r else l
  end.

(** [s.strip()] *)
Definition strip (s : string) : string :=
  string_of_list_ascii
    (rev (lstrip (rev (lstrip (list_ascii_of_string s))))).

(** [get_api_token()], query_solr.py lines 33-53. *)
Definition get_api_token (E : env) : M string :=
  match config_file E with
  | None => raise (FileNotFoundError "API token config file not found")
  | Some content =>
      let token := strip (readline content) in
      if (String.length token =? 0)%nat || (String.length token <? 10)%nat
      then raise (ValueError "Invalid API token format")
      else ret token
  end.

(** The response object handed back by [session.get]. *)
Record http_response : Type := {
  status_code : Z;
  body        : option results
}.

(** [session.get(url, headers, timeout)]: the request goes out, and the
    environment answers the n-th request. *)
Definition session_get (E : env) (qp : query_params) : M http_response :=
  fun tr =>
    let n := length (requests tr) in
    match remote E n qp with
    | GetRaises e => (Raise e, tr ++ [EvGet qp])
    | GetReturns st b =>
        (Ok {| status_code := st; body := b |}, tr ++ [EvGet qp])
    end.

(** [response.raise_for_status()]: HTTPError for a 4xx or 5xx status. *)
Definition raise_for_status (r : http_response) : M unit :=
  if (400 <=? status_code r) && (status_code r <? 600)
  then raise (HTTPError (Some (status_code r)))
  else ret tt.

(** [response.json()]: ValueError when the body does not parse. *)
Definition response_json (r : http_response) : M results :=
  match body r with
  | Some j => ret j
  | None => raise (ValueError "Expecting value")
  end.

(** [query_solr(query_params)], query_solr.py lines 55-114. *)
Definition query_solr (E : env) (qp : query_params) : M http_response :=
  do token <- try_except (get_api_token E)
                (fun e =>
                   if is_FileNotFoundError e || is_ValueError e
                   then log ERROR (MsgTokenFailed e) >> raise e
                   else raise e);
  try_except
    (do response <- session_get E qp;
     raise_for_status response >>
     try_except (response_json response >> ret tt)
       (fun e =>
          if is_ValueError e
          then log ERROR MsgInvalidJSON >> raise (HTTPError None)
          else raise e) >>
     ret response)
    (fun e =>
       if is_Timeout e then
         (if is_ConnectTimeout e
          then log ERROR MsgConnectTimedOut
          else log ERROR MsgReadTimedOut) >>
         raise e
       else
         match e with
         | HTTPError resp =>
             (* e.response.status_code *)
             match resp with
             | None =>
                 raise (AttributeError
                          "'NoneType' object has no attribute 'status_code'")
             | Some code =>
                 if code =? 401 then
                   log ERROR MsgInvalidToken >>
                   raise (ValueError "Invalid API token")
                 else if code =? 429 then
                   log ERROR MsgRateLimit >> raise e
                 else
                   log ERROR (MsgStatus code) >> raise e
             end
         | _ =>
             if is_RequestException e
             then log ERROR (MsgNetworkError e) >> raise e
             else raise e
         end).

(* --------------------------------------------------------------------- *)
(*  7. The retrying transport call                                        *)
(* --------------------------------------------------------------------- *)

(** tenacity's [wait_exponential(multiplier, min, max)] with the default
    base 2: [max(max(0, min), min(multiplier * 2 ** (attempt - 1), max))]. *)
Definition wait_exponential (multiplier min max : Z) (attempt_number : Z) : Z :=
  Z.max (Z.max 0 min) (Z.min (multiplier * 2 ^ (attempt_number - 1)) max).

(** [retry_if_exception_type((Timeout, RequestException))] *)
Definition retry_if_exception_type (e : exn) : bool :=
  is_Timeout e || is_RequestException e.

(** tenacity's [retry(stop=stop_after_attempt(n), wait=..., retry=...,
    before_sleep=before_sleep_log(logger, WARNING), reraise=True)].
    [left] is the number of attempts still allowed after the current one;
    when it is 0 the stop condition holds and the last exception is
    re-raised. *)
Fixpoint retry {A} (left : nat) (attempt_number : Z) (call : M A) : M A :=
  try_except call
    (fun e =>
       if retry_if_exception_type e then
         match left with
         | O => raise e
         | S left' =>
             let w := wait_exponential 2 4 60 attempt_number in
             log WARNING (MsgRetrying attempt_number w e) >>
             sleep w >>
             retry left' (attempt_number + 1) call
         end
       else raise e).

(** The body of [_make_solr_query], harvest_highlights.py lines 51-59. *)
Definition make_solr_query_once (E : env) (qp : query_params) : M results :=
  try_except
    (do results <- query_solr E qp;
     response_json results)
    (fun e =>
       if is_RequestException e || is_HTTPError e
       then log ERROR (MsgQueryFailed e) >> raise e
       else if is_ValueError e
       then log ERROR (MsgInvalidResponse e) >> raise e
       else raise e).

(** [stop_after_attempt(5)] *)
Definition max_attempts : nat := 5.

(** The decorated [_make_solr_query], lines 31-59. *)
Definition _make_solr_query (E : env) (qp : query_params) : M results :=
  retry (max_attempts - 1) 1 (make_solr_query_once E qp).

(* --------------------------------------------------------------------- *)
(*  8. harvest_highlights.py: the accumulator                             *)
(* --------------------------------------------------------------------- *)

(** The harvest accumulator ([highlights] in the source): document
    identifier to merged entry. *)
Abbreviation accumulator := (gmap string (gmap string entry_val)).

(** Code that touches no trace runs in [outcome]. *)
Definition lift {A} (r : outcome A) : M A := fun tr => (r, tr).

Definition field {A} (key : string) (o : option A) : outcome A :=
  match o with
  | Some a => Ok a
  | None => Raise (KeyError key)
  end.

Definition and_then {A B} (r : outcome A) (f : A -> outcome B) : outcome B :=
  match r with
  | Ok a => f a
  | Raise e => Raise e
  | OutOfFuel => OutOfFuel
  end.

(** The code returned normally. *)
Definition is_ok {A} (r : outcome A) : bool :=
  match r with
  | Ok _ => true
  | _ => false
  end.

(** [doc.get(k)] *)
Definition dict_get (o : option value) : value :=
  match o with
  | Some v => v
  | None => VNull
  end.

(** The dict display of lines 136-145 (and 171-180), its items evaluated
    in order. *)
Definition source_of (d : doc) : outcome source :=
  and_then (field "bibcode" (doc_bibcode d)) (fun b =>
  and_then (field "title" (doc_title d)) (fun t =>
  and_then (field "author" (doc_author d)) (fun a =>
  and_then (field "pubdate" (doc_pubdate d)) (fun p =>
  and_then (field "doctype" (doc_doctype d)) (fun ty =>
  and_then (field "property" (doc_property d)) (fun pr =>
  Ok {| bibcode := b; title := t; author := a; pubdate := p;
        doctype := ty; property := pr;
        doi := dict_get (doc_doi d); grant := dict_get (doc_grant d) |})))))).

(** One turn of the loop over [results_json['response']['docs']],
    lines 132-145 (and 167-180). *)
Definition add_source (highlights : accumulator) (d : doc)
  : outcome accumulator :=
  and_then (field "id" (doc_id d)) (fun id =>
  let highlights :=
    match highlights !! id with
    | None => <[id := ∅]> highlights          (* highlights[doc_id] = {} *)
    | Some _ => highlights
    end in
  and_then (source_of d) (fun src =>
  match highlights !! id with
  | Some entry => Ok (<[id := <["source" := Source src]> entry]> highlights)
  | None => Raise (KeyError id)
  end)).

Fixpoint add_sources (ds : list doc) (highlights : accumulator)
  : outcome accumulator :=
  match ds with
  | [] => Ok highlights
  | d :: ds' => and_then (add_source highlights d) (add_sources ds')
  end.

(** [highlights.update(page)]: the page's entries replace those already
    there under the same key. *)
Definition update (highlights page : accumulator) : accumulator :=
  page ∪ highlights.

(** Lines 128-145: the accumulator starts as the first page's highlight
    mapping, and the sources of the first page's records are attached. *)
Definition first_page_highlights (results_json : results)
  : outcome accumulator :=
  and_then (field "highlighting" (highlighting results_json)) (fun highlights =>
  and_then (field "response" (response results_json)) (fun resp =>
  and_then (field "docs" (docs resp)) (fun ds =>
  add_sources ds highlights))).

(** Lines 163-180: a later page is merged into the accumulator. *)
Definition merge_page (highlights : accumulator) (results_json : results)
  : outcome accumulator :=
  and_then (field "highlighting" (highlighting results_json)) (fun hl =>
  let highlights := update highlights hl in
  and_then (field "response" (response results_json)) (fun resp =>
  and_then (field "docs" (docs resp)) (fun ds =>
  add_sources ds highlights))).

(* --------------------------------------------------------------------- *)
(*  9. harvest_highlights.py: the paging loop                             *)
(* --------------------------------------------------------------------- *)

Definition dry_run_params (query_string : string) : query_params :=
  {| qp_q := query_string;
     qp_fl := "author,title,pubyear,doi";
     qp_hl := "false";
     qp_hl_fl := None; qp_hl_snippets := None; qp_hl_fragsize := None;
     qp_rows := 5;
     qp_start := 0;
     qp_sort := "score desc" |}.

Definition full_fl : string :=
  "abstract,ack,aff,aff_id,alternate_bibcode,alternate_title,arxiv_class,author,author_count,author_norm,bibcode,bibgroup,bibstem,citation,citation_count,cite_read_boost,classic_factor,comment,copyright,data,database,date,doctype,doi,eid,entdate,entry_date,esources,facility,first_author,first_author_norm,grant,grant_agencies,grant_id,id,identifier,indexstamp,inst,isbn,issn,issue,keyword,keyword_norm,keyword_schema,lang,links_data,nedid,nedtype,orcid_pub,orcid_other,orcid_user,page,page_count,page_range,property,pub,pub_raw,pubdate,pubnote,read_count,reference,simbid,title,vizier,volume,year".

Definition full_params (query_string : string) (max_num_rows : Z)
  : query_params :=
  {| qp_q := query_string;
     qp_fl := full_fl;
     qp_hl := "true";
     qp_hl_fl := Some "body,abstract,ack,title";
     qp_hl_snippets := Some 4;
     qp_hl_fragsize := Some 100;
     qp_rows := max_num_rows;
     qp_start := 0;
     qp_sort := "score desc" |}.

(** The local variables of the paging loop. *)
Record loop_state : Type := {
  cur_page       : Z;
  cur_timeouts   : Z;
  cur_highlights : accumulator
}.

Inductive step : Type :=
| Continue (st : loop_state)     (* back to the loop test *)
| Break (st : loop_state).       (* [break] *)

Definition max_consecutive_timeouts : Z := 3.

(** The loop test of line 152. *)
Definition loop_test (max_num_queries total : Z) (qp : query_params)
  (st : loop_state) : bool :=
  (cur_page st <? max_num_queries) && (cur_page st * qp_rows qp <? total).

(** The loop body, lines 153-206.  [query_params['start']] is the only key
    the loop assigns, and it assigns it before every request, so the
    descriptor of a turn is [set_start qp (page * rows)].  A Timeout can
    only come out of [_make_solr_query], before the turn has changed any
    local variable, so its handler sees the state of the loop test. *)
Definition loop_body (E : env) (qp : query_params) (st : loop_state) : M step :=
  let qp := set_start qp (cur_page st * qp_rows qp) in
  try_except
    (log INFO (MsgPage (cur_page st)) >>
     do results_json <- _make_solr_query E qp;
     let consecutive_timeouts := 0 in
     do highlights <- lift (merge_page (cur_highlights st) results_json);
     let page := cur_page st + 1 in
     let delay := 2 + consecutive_timeouts * 1 in
     log INFO (MsgWaiting delay) >>
     sleep delay >>
     ret (Continue {| cur_page := page;
                      cur_timeouts := consecutive_timeouts;
                      cur_highlights := highlights |}))
    (fun e =>
       if is_Timeout e then
         let consecutive_timeouts := cur_timeouts st + 1 in
         log WARNING (MsgTimeoutOnPage (cur_page st) consecutive_timeouts) >>
         if consecutive_timeouts >=? max_consecutive_timeouts then
           log ERROR MsgTooManyTimeouts >>
           ret (Break {| cur_page := cur_page st;
                         cur_timeouts := consecutive_timeouts;
                         cur_highlights := cur_highlights st |})
         else
           let delay := 5 * consecutive_timeouts in
           log INFO (MsgWaitingAfterTimeout delay) >>
           sleep delay >>
           ret (Continue {| cur_page := cur_page st;
                            cur_timeouts := consecutive_timeouts;
                            cur_highlights := cur_highlights st |})
       else if is_RequestException e || is_HTTPError e then
         log ERROR (MsgPageFailed (cur_page st) e) >> raise e
       else raise e).

(** The while loop of lines 152-206.  A turn costs one unit of fuel; the
    test is evaluated before fuel is looked at. *)
Fixpoint paging_loop (E : env) (fuel : nat) (max_num_queries total : Z)
  (qp : query_params) (st : loop_state) : M loop_state :=
  if loop_test max_num_queries total qp st then
    match fuel with
    | O => fun tr => (OutOfFuel, tr)
    | S fuel' =>
        do r <- loop_body E qp st;
        match r with
        | Continue st' => paging_loop E fuel' max_num_queries total qp st'
        | Break st' => ret st'
        end
    end
  else ret st.

(* --------------------------------------------------------------------- *)
(*  10. harvest_highlights.py: saving and the entry point                 *)
(* --------------------------------------------------------------------- *)

(** [output_path.parent.mkdir(parents=True, exist_ok=True)] *)
Definition mkdir_parents (E : env) (save_path : string) : M unit :=
  match mkdir_fails E save_path with
  | Some e => raise e
  | None => emit (EvMkdir save_path)
  end.

(** [with open(output_path, "w") as f: json.dump(highlights, f, indent=4)] *)
Definition dump_json (E : env) (save_path : string) (highlights : accumulator)
  : M unit :=
  match write_fails E save_path with
  | Some e => raise e
  | None => emit (EvWrite save_path (JsonDump 4 highlights))
  end.

(** The save step, lines 209-222. *)
Definition save_results (E : env) (save_path : string)
  (highlights : accumulator) (consecutive_timeouts : Z) : M unit :=
  try_except
    (mkdir_parents E save_path >>
     dump_json E save_path highlights >>
     log INFO (MsgSaved save_path) >>
     if consecutive_timeouts >? 0
     then log WARNING (MsgSavedPartial consecutive_timeouts)
     else ret tt)
    (fun e =>
       if is_IOError e
       then log ERROR (MsgSaveFailed e) >> raise e
       else raise e).

(** [harvest_highlights] with the fuel of its paging loop as a parameter. *)
Definition harvest_with (fuel : nat) (E : env) (query_string : string)
  (save_path : option string) (max_num_queries max_num_rows : Z) : M unit :=
  if max_num_rows >? 2000 then
    raise (ValueError "max_num_rows cannot exceed 2000")
  else
    let query_params :=
      match save_path with
      | None => dry_run_params query_string
      | Some _ => full_params query_string max_num_rows
      end in
    try_except
      (log INFO MsgFirstPage >>
       do results_json <- _make_solr_query E query_params;
       do resp <- getitem "response" (response results_json);
       do total <- getitem "numFound" (numFound resp);
       log INFO (MsgFound total) >>
       match save_path with
       | None => log INFO MsgNoOutput >> ret tt
       | Some path =>
           do highlights <- lift (first_page_highlights results_json);
           do st <- paging_loop E fuel max_num_queries total query_params
                      {| cur_page := 1; cur_timeouts := 0;
                         cur_highlights := highlights |};
           save_results E path (cur_highlights st) (cur_timeouts st)
       end)
      (fun e => log ERROR (MsgHarvestFailed e) >> raise e).

(** Every turn of the loop either moves to the next page or adds one to a
    counter that stops the loop at 3: three turns per page are enough. *)
Definition loop_fuel (max_num_queries : Z) : nat :=
  Z.to_nat (3 * (max_num_queries - 1)).

(** [harvest_highlights(query_string, save_path, max_num_queries,
    max_num_rows)], lines 61-226. *)
Definition harvest_highlights (E : env) (query_string : string)
  (save_path : option string) (max_num_queries max_num_rows : Z) : M unit :=
  harvest_with (loop_fuel max_num_queries) E query_string save_path
    max_num_queries max_num_rows.

(** A run starts from the empty trace. *)
Definition run {A} (m : M A) : outcome A * trace := m [].

(* --------------------------------------------------------------------- *)
(*  11. Notions used to state the properties                              *)
(* --------------------------------------------------------------------- *)

(** Lines 116-145 in full mode: the first request and what is done with
    its answer, up to the entry of the paging loop. *)
Definition first_phase (E : env) (query_string : string) (max_num_rows : Z)
  : M (Z * accumulator) :=
  log INFO MsgFirstPage >>
  do results_json <- _make_solr_query E (full_params query_string max_num_rows);
  do resp <- getitem "response" (response results_json);
  do total <- getitem "numFound" (numFound resp);
  log INFO (MsgFound total) >>
  do highlights <- lift (first_page_highlights results_json);
  ret (total, highlights).

(** The local variables at the first evaluation of the loop test
    (lines 148-150). *)
Definition loop_entry (highlights : accumulator) : loop_state :=
  {| cur_page := 1; cur_timeouts := 0; cur_highlights := highlights |}.

(** Everything a full harvest does before the save step. *)
Definition collect (fuel : nat) (E : env) (query_string : string)
  (max_num_queries max_num_rows : Z) : M loop_state :=
  do th <- first_phase E query_string max_num_rows;
  paging_loop E fuel max_num_queries (fst th)
    (full_params query_string max_num_rows) (loop_entry (snd th)).

(** [loop_reaches E N total qp st tr st' tr']: from the loop test with
    locals [st] and trace [tr], some turns of the loop that all come back
    to the test lead to the test with locals [st'] and trace [tr']. *)
Inductive loop_reaches (E : env) (max_num_queries total : Z)
  (qp : query_params) : loop_state -> trace -> loop_state -> trace -> Prop :=
| reaches_here st tr :
    loop_reaches E max_num_queries total qp st tr st tr
| reaches_turn st tr st1 tr1 st2 tr2 :
    loop_test max_num_queries total qp st = true ->
    loop_body E qp st tr = (Ok (Continue st1), tr1) ->
    loop_reaches E max_num_queries total qp st1 tr1 st2 tr2 ->
    loop_reaches E max_num_queries total qp st tr st2 tr2.

(** The run of [harvest_highlights E q (Some path) N P] is at the loop test
    with locals [st], having produced the trace [tr]; [total] is the match
    count of the first answer. *)
Definition in_loop (E : env) (query_string : string)
  (max_num_queries max_num_rows total : Z) (st : loop_state) (tr : trace)
  : Prop :=
  exists hl0 tr0,
    first_phase E query_string max_num_rows [] = (Ok (total, hl0), tr0) /\
    loop_reaches E max_num_queries total
      (full_params query_string max_num_rows) (loop_entry hl0) tr0 st tr.

(** The descriptor of the request of a turn. *)
Definition turn_params (qp : query_params) (st : loop_state) : query_params :=
  set_start qp (cur_page st * qp_rows qp).

(** The page request of a turn, as the loop body issues it. *)
Definition turn_request (E : env) (qp : query_params) (st : loop_state)
  (tr : trace) : outcome results * trace :=
  _make_solr_query E (turn_params qp st)
    (tr ++ [EvLog INFO (MsgPage (cur_page st))]).

(** The n-th GET was answered with a success status and a JSON body. *)
Definition answered_ok (E : env) (n : nat) (qp : query_params) : Prop :=
  exists st b,
    remote E n qp = GetReturns st (Some b) /\
    (400 <=? st) && (st <? 600) = false.

(** No request of the trace failed. *)
Definition no_request_failed (E : env) (tr : trace) : Prop :=
  forall n qp, requests tr !! n = Some qp -> answered_ok E n qp.

(** The credential file holds a usable token. *)
Definition token_ok (E : env) : Prop :=
  exists token, forall tr, get_api_token E tr = (Ok token, tr).

(** ceil(total / P) for P > 0. *)
Definition ceil_div (total P : Z) : Z := (total + P - 1) / P.

(** How many page requests a full harvest makes when none fails: the first
    one, then one per page index below the ceiling for which rows remain. *)
Definition pages_fetched (N P total : Z) : Z :=
  Z.max 1 (Z.min N (ceil_div total P)).

(** How many turns the loop still makes from page index [p] when no
    request fails. *)
Definition remaining (N P total p : Z) : Z :=
  Z.max 0 (Z.min N (ceil_div total P) - p).

(** The accumulator over a sequence of fetched pages: the first page as
    lines 128-145 treat it, every later page as lines 163-180 do. *)
Fixpoint merge_pages (highlights : accumulator) (pages : list results)
  : outcome accumulator :=
  match pages with
  | [] => Ok highlights
  | pg :: pages' => and_then (merge_page highlights pg)
                      (fun highlights' => merge_pages highlights' pages')
  end.

Definition accumulate (pages : list results) : outcome accumulator :=
  match pages with
  | [] => Ok ∅
  | pg :: pages' => and_then (first_page_highlights pg)
                      (fun highlights => merge_pages highlights pages')
  end.

(** The records of a page. *)
Definition page_docs (pg : results) : list doc :=
  match response pg with
  | Some r => match docs r with Some ds => ds | None => [] end
  | None => []
  end.

(** The highlight mapping of a page. *)
Definition page_highlighting (pg : results) : accumulator :=
  match highlighting pg with
  | Some h => h
  | None => ∅
  end.

(** An identifier occurs on a page: as a key of its highlight mapping or
    as the identifier of one of its records. *)
Definition seen_on (id : string) (pg : results) : Prop :=
  is_Some (page_highlighting pg !! id) \/
  (exists d, d ∈ page_docs pg /\ doc_id d = Some id).

(** The last record of a list that carries a given identifier. *)
Fixpoint last_doc (id : string) (ds : list doc) : option doc :=
  match ds with
  | [] => None
  | d :: ds' =>
      match last_doc id ds' with
      | Some d' => Some d'
      | None => if decide (doc_id d = Some id) then Some d else None
      end
  end.

(** Events that leave the disk alone. *)
Definition not_file (ev : event) : Prop :=
  match ev with
  | EvMkdir _ | EvWrite _ _ => False
  | _ => True
  end.

(** Events of the transport of one descriptor: its GETs, sleeps, logs. *)
Definition transport_of (qp : query_params) (ev : event) : Prop :=
  match ev with
  | EvGet qp' => qp' = qp
  | EvSleep _ | EvLog _ _ => True
  | _ => False
  end.

(** [m] only appends events that satisfy [P]. *)
Definition emits {A} (P : event -> Prop) (m : M A) : Prop :=
  forall tr, exists evs, snd (m tr) = tr ++ evs /\ Forall P evs.

(** Any event at all. *)
Definition any_event (ev : event) : Prop := True.

(** [m] appends [ev] before anything else. *)
Definition starts_with {A} (ev : event) (m : M A) : Prop :=
  forall tr, exists evs, snd (m tr) = tr ++ ev :: evs.

(** [m] does not depend on fuel. *)
Definition fuel_free {A} (m : M A) : Prop :=
  forall tr, fst (m tr) <> OutOfFuel.

(** Processing a page can only fail with a KeyError. *)
Definition key_error_only {A} (r : outcome A) : Prop :=
  match r with
  | Ok _ => True
  | Raise e => exists k, e = KeyError k
  | OutOfFuel => False
  end.

(** What the loop still has to do: three turns per page left, less the
    timeouts already counted. *)
Definition loop_measure (max_num_queries : Z) (st : loop_state) : nat :=
  Z.to_nat (3 * (max_num_queries - cur_page st) - cur_timeouts st).

(* --------------------------------------------------------------------- *)
(*  12. Sample environments                                               *)
(* --------------------------------------------------------------------- *)

Definition sample_doc (id : string) : doc :=
  {| doc_id := Some id;
     doc_bibcode := Some (VStr id);
     doc_title := Some (VList [VStr "A survey"]);
     doc_author := Some (VList [VStr "Doe, J."]);
     doc_pubdate := Some (VStr "2020-01-00");
     doc_doctype := Some (VStr "article");
     doc_property := Some (VList [VStr "REFEREED"]);
     doc_doi := None;
     doc_grant := None |}.

(** The same record after a change of its title on the service. *)
Definition revised_doc (id : string) : doc :=
  {| doc_id := Some id;
     doc_bibcode := Some (VStr id);
     doc_title := Some (VList [VStr "A survey (revised)"]);
     doc_author := Some (VList [VStr "Doe, J."]);
     doc_pubdate := Some (VStr "2020-01-00");
     doc_doctype := Some (VStr "article");
     doc_property := Some (VList [VStr "REFEREED"]);
     doc_doi := Some (VList [VStr "10.1000/1"]);
     doc_grant := None |}.

(** A page with one revised record and its highlight entry. *)
Definition revised_page (total : Z) (id : string) : results :=
  {| response := Some {| numFound := Some total;
                         docs := Some [revised_doc id] |};
     highlighting :=
       Some {[ id := {[ "title" := Fragments (VList [VStr "revised"]) ]} ]} |}.

Definition sample_entry (id : string) : gmap string entry_val :=
  {[ "body" := Fragments (VList [VStr id]) ]}.

(** A page with one record and one highlight entry per identifier. *)
Definition sample_page (total : Z) (ids : list string) : results :=
  {| response := Some {| numFound := Some total;
                         docs := Some (map sample_doc ids) |};
     highlighting :=
       Some (list_to_map (map (fun id => (id, sample_entry id)) ids)) |}.

(** The identifier served in answer to the n-th request: "A", "B", ... *)
Definition nth_id (n : nat) : string :=
  String (ascii_of_nat (65 + n)) EmptyString.

(** The page served in answer to the n-th request: one record, or none
    when the descriptor asks for no rows. *)
Definition served_page (total : Z) (n : nat) (qp : query_params) : results :=
  sample_page total (if 0 <? qp_rows qp then [nth_id n] else []).

(** A service that answers the first [k] requests with a one-record page
    and every later request with [after]; the disk works. *)
Definition scripted_env (total : Z) (k : nat) (after : get_outcome) : env :=
  {| config_file := Some "0123456789abcdef";
     remote := fun n qp =>
       if (n <? k)%nat then GetReturns 200 (Some (served_page total n qp))
       else after;
     mkdir_fails := fun _ => None;
     write_fails := fun _ => None |}.

(** A service that answers every request. *)
Definition healthy_env (total : Z) : env :=
  {| config_file := Some "0123456789abcdef";
     remote := fun n qp => GetReturns 200 (Some (served_page total n qp));
     mkdir_fails := fun _ => None;
     write_fails := fun _ => None |}.

(** The accumulator after the first page of [scripted_env]. *)
Definition page_highlighting_with_sources (total : Z) (id : string)
  : accumulator :=
  match first_page_highlights (sample_page total [id]) with
  | Ok h => h
  | _ => ∅
  end.

(** The trace of a full harvest of "q" with page size 100 after its first
    request was answered with a match count of 1000. *)
Definition first_page_trace : trace :=
  [EvLog INFO MsgFirstPage; EvGet (full_params "q" 100);
   EvLog INFO (MsgFound 1000)].

(** The same trace after a page request at offset 100 whose connection
    was dropped five times. *)
Definition first_failure_trace : trace :=
  Eval vm_compute in
    snd (_make_solr_query (scripted_env 1000 1 (GetRaises ConnectionError))
           (set_start (full_params "q" 100) 100)
           (first_page_trace ++ [EvLog INFO (MsgPage 1)])).

(** The same trace after a page request at offset 100 that timed out five
    times. *)
Definition first_timeout_trace : trace :=
  Eval vm_compute in
    snd (_make_solr_query (scripted_env 1000 1 (GetRaises ReadTimeout))
           (set_start (full_params "q" 100) 100)
           (first_page_trace ++ [EvLog INFO (MsgPage 1)])).

(* --------------------------------------------------------------------- *)
(*  13. pds_scix_api_highlights.py                                        *)
(* --------------------------------------------------------------------- *)

(** The double quote character. *)
Definition dquote : string := String (ascii_of_nat 34) EmptyString.

(** [sep.join(l)] *)
Fixpoint join (sep : string) (l : list string) : string :=
  match l with
  | [] => EmptyString
  | [x] => x
  | x :: l' => String.append x (String.append sep (join sep l'))
  end.

(** The f-string that wraps a term in double quotes (lines 30 and 87). *)
Definition quoted (term : string) : string :=
  String.append dquote (String.append term dquote).

(** [build_query_string(terms)], lines 15-31.  A term is a string or a
    missing value (None or NaN), for which [pd.notna] is false. *)
Definition build_query_string (terms : list (option string)) : outcome string :=
  let valid_terms := omap id terms in
  match valid_terms with
  | [] => Raise (ValueError "No valid search terms provided")
  | _ =>
      let terms_str := join " OR " (map quoted valid_terms) in
      Ok (String.append "full:(" (String.append terms_str ")"))
  end.

(** [s.replace(' ', '')] *)
Fixpoint remove_spaces (s : string) : string :=
  match s with
  | EmptyString => EmptyString
  | String c r =>
      if Ascii.eqb c " "%char then remove_spaces r
      else String c (remove_spaces r)
  end.

(** The parsed command line, with the defaults of [parse_args]
    (lines 33-73). *)
Record cli_args : Type := {
  search_term   : string;
  search_field  : string;
  max_pages     : Z;
  rows_per_page : Z;
  output_dir    : string
}.

Definition default_args : cli_args :=
  {| search_term := "Planetary Data System";
     search_field := "body";
     max_pages := 1;
     rows_per_page := 100;
     output_dir := "./pds_mentions_results" |}.

(** The file name of line 84:
    [f"{args.search_field}_{args.search_term.replace(' ', '')}.json"]. *)
Definition output_file_name (args : cli_args) : string :=
  String.append (search_field args)
    (String.append "_"
       (String.append (remove_spaces (search_term args)) ".json")).

(** The query string of line 87:
    [f'{args.search_field}:"{args.search_term}"']. *)
Definition main_query_string (args : cli_args) : string :=
  String.append (search_field args)
    (String.append ":" (quoted (search_term args))).

(* --------------------------------------------------------------------- *)
(*  14. test_pagination_logic.py                                          *)
(* --------------------------------------------------------------------- *)

(** [range(n)] *)
Definition range (n : Z) : list Z := seqZ 0 n.

(** The offsets of the fixed logic (lines 19-23 and 52-56):
    [offset = page * rows_per_page] for [page in range(max_pages)]. *)
Definition new_offsets (rows_per_page max_pages : Z) : list Z :=
  map (fun page => page * rows_per_page) (range max_pages).

(** The offsets of the old logic (lines 44-48): [offset = page]. *)
Definition old_offsets (max_pages : Z) : list Z :=
  map (fun page => page) (range max_pages).

(** The rows a request at [offset] asks for: [offset], ...,
    [offset + rows_per_page - 1]. *)
Definition window (rows_per_page offset : Z) : list Z :=
  seqZ offset rows_per_page.

(** The rows asked for by requests at the given offsets, in order. *)
Definition windows (rows_per_page : Z) (offs : list Z) : list Z :=
  concat (map (window rows_per_page) offs).

(* --------------------------------------------------------------------- *)
(*  15. test_pagination.py                                                *)
(* --------------------------------------------------------------------- *)

(** [doc_ids = list(results.keys())] (line 32), where [results] is the
    dict that [json.load] makes of the output file. *)
Definition doc_ids {V} (results : gmap string V) : list string :=
  map fst (map_to_list results).

(** [unique_ids = set(doc_ids)] (line 33) *)
Definition unique_ids {V} (results : gmap string V) : gset string :=
  list_to_set (doc_ids results).

(** The value [test_pagination] returns (line 51):
    [len(doc_ids) == len(unique_ids)]. *)
Definition test_pagination_result {V} (results : gmap string V) : bool :=
  (length (doc_ids results) =? size (unique_ids results))%nat.

(* --------------------------------------------------------------------- *)
(*  16. Further notions                                                   *)
(* --------------------------------------------------------------------- *)

(** The pauses a run can make: 2 seconds after a page, 5 and 10 seconds
    after a timeout, 4, 8 and 16 seconds between the attempts of a page
    request. *)
Definition pauses : list Z := [2; 4; 5; 8; 10; 16].

(** The descriptors of the requests for the page indices [ks]. *)
Definition page_requests (qp : query_params) (ks : list Z)
  : list query_params :=
  map (fun k => set_start qp (k * qp_rows qp)) ks.

(** A record carries the seven keys the harvest subscripts. *)
Definition complete_doc (d : doc) : bool :=
  bool_decide (is_Some (doc_id d)) &&
  bool_decide (is_Some (doc_bibcode d)) &&
  bool_decide (is_Some (doc_title d)) &&
  bool_decide (is_Some (doc_author d)) &&
  bool_decide (is_Some (doc_pubdate d)) &&
  bool_decide (is_Some (doc_doctype d)) &&
  bool_decide (is_Some (doc_property d)).

(** A page has its highlight mapping, its response and its records, and
    every record is complete. *)
Definition complete_page (pg : results) : bool :=
  match highlighting pg, response pg with
  | Some _, Some resp =>
      match docs resp with
      | Some ds => forallb complete_doc ds
      | None => false
      end
  | _, _ => false
  end.

(* ===================================================================== *)
(*  Properties                                                            *)
(* ===================================================================== *)

(* --------------------------------------------------------------------- *)
(*  A. The monad                                                          *)
(* --------------------------------------------------------------------- *)

Section MonadLemmas.
Context {A B : Type}.

Lemma bind_ok (m : M A) (f : A -> M B) tr a tr' :
  m tr = (Ok a, tr') -> bind m f tr = f a tr'.
Proof. intros H. unfold bind. now rewrite H. Qed.

Lemma bind_raise (m : M A) (f : A -> M B) tr e tr' :
  m tr = (Raise e, tr') -> bind m f tr = (Raise e, tr').
Proof. intros H. unfold bind. now rewrite H. Qed.

Lemma bind_out_of_fuel (m : M A) (f : A -> M B) tr tr' :
  m tr = (OutOfFuel, tr') -> bind m f tr = (OutOfFuel, tr').
Proof. intros H. unfold bind. now rewrite H. Qed.

Lemma try_except_ok (m : M A) h tr a tr' :
  m tr = (Ok a, tr') -> try_except m h tr = (Ok a, tr').
Proof. intros H. unfold try_except. now rewrite H. Qed.

Lemma try_except_raise (m : M A) h tr e tr' :
  m tr = (Raise e, tr') -> try_except m h tr = h e tr'.
Proof. intros H. unfold try_except. now rewrite H. Qed.

Lemma bind_inv (m : M A) (f : A -> M B) tr r tr2 :
  bind m f tr = (r, tr2) ->
  (exists a tr1, m tr = (Ok a, tr1) /\ f a tr1 = (r, tr2)) \/
  (exists e, m tr = (Raise e, tr2) /\ r = Raise e) \/
  (m tr = (OutOfFuel, tr2) /\ r = OutOfFuel).
Proof.
  unfold bind. destruct (m tr) as [[a|e|] tr1]; intros H.
  - left. eauto.
  - right. left. inversion H. eauto.
  - right. right. inversion H. eauto.
Qed.
End MonadLemmas.

Section Emits.
Context (P : event -> Prop).

Lemma emits_ret {A} (a : A) : emits P (ret a).
Proof. intros tr. exists []. simpl. now rewrite app_nil_r. Qed.

Lemma emits_raise {A} e : emits P (@raise A e).
Proof. intros tr. exists []. simpl. now rewrite app_nil_r. Qed.

Lemma emits_lift {A} (r : outcome A) : emits P (lift r).
Proof. intros tr. exists []. simpl. now rewrite app_nil_r. Qed.

Lemma emits_getitem {A} k (o : option A) : emits P (getitem k o).
Proof. destruct o; [apply emits_ret | apply emits_raise]. Qed.

Lemma emits_emit ev : P ev -> emits P (emit ev).
Proof. intros H tr. exists [ev]. simpl. split; [done|]. by constructor. Qed.

Lemma emits_bind {A B} (m : M A) (f : A -> M B) :
  emits P m -> (forall a, emits P (f a)) -> emits P (bind m f).
Proof.
  intros Hm Hf tr. unfold bind.
  destruct (Hm tr) as (evs & E1 & F1).
  destruct (m tr) as [[a|e|] tr1]; simpl in *; subst.
  - destruct (Hf a (tr ++ evs)) as (evs2 & E2 & F2).
    exists (evs ++ evs2). rewrite E2, app_assoc. split; [done|].
    by apply Forall_app.
  - by exists evs.
  - by exists evs.
Qed.

Lemma emits_try {A} (m : M A) h :
  emits P m -> (forall e, emits P (h e)) -> emits P (try_except m h).
Proof.
  intros Hm Hh tr. unfold try_except.
  destruct (Hm tr) as (evs & E1 & F1).
  destruct (m tr) as [[a|e|] tr1]; simpl in *; subst.
  - by exists evs.
  - destruct (Hh e (tr ++ evs)) as (evs2 & E2 & F2).
    exists (evs ++ evs2). rewrite E2, app_assoc. split; [done|].
    by apply Forall_app.
  - by exists evs.
Qed.

Lemma emits_weaken {A} (Q : event -> Prop) (m : M A) :
  (forall ev, Q ev -> P ev) -> emits Q m -> emits P m.
Proof.
  intros HQ Hm tr. destruct (Hm tr) as (evs & E1 & F1).
  exists evs. split; [done|]. eapply Forall_impl; eauto.
Qed.
End Emits.

Section FuelFree.
Lemma fuel_free_ret {A} (a : A) : fuel_free (ret a).
Proof. intros tr. done. Qed.

Lemma fuel_free_raise {A} e : fuel_free (@raise A e).
Proof. intros tr. done. Qed.

Lemma fuel_free_emit ev : fuel_free (emit ev).
Proof. intros tr. done. Qed.

Lemma fuel_free_getitem {A} k (o : option A) : fuel_free (getitem k o).
Proof. destruct o; intros tr; done. Qed.

Lemma fuel_free_bind {A B} (m : M A) (f : A -> M B) :
  fuel_free m -> (forall a, fuel_free (f a)) -> fuel_free (bind m f).
Proof.
  intros Hm Hf tr. unfold bind. specialize (Hm tr).
  destruct (m tr) as [[a|e|] tr1]; simpl in *; try done. apply Hf.
Qed.

Lemma fuel_free_try {A} (m : M A) h :
  fuel_free m -> (forall e, fuel_free (h e)) -> fuel_free (try_except m h).
Proof.
  intros Hm Hh tr. unfold try_except. specialize (Hm tr).
  destruct (m tr) as [[a|e|] tr1]; simpl in *; try done. apply Hh.
Qed.
End FuelFree.

(* --------------------------------------------------------------------- *)
(*  B. Traces                                                             *)
(* --------------------------------------------------------------------- *)

Lemma requests_app tr1 tr2 : requests (tr1 ++ tr2) = requests tr1 ++ requests tr2.
Proof. induction tr1 as [|[] tr1 IH]; simpl; congruence. Qed.

Lemma sleeps_app tr1 tr2 : sleeps (tr1 ++ tr2) = sleeps tr1 ++ sleeps tr2.
Proof. induction tr1 as [|[] tr1 IH]; simpl; congruence. Qed.

Lemma writes_app tr1 tr2 : writes (tr1 ++ tr2) = writes tr1 ++ writes tr2.
Proof. induction tr1 as [|[] tr1 IH]; simpl; congruence. Qed.

Lemma mkdirs_app tr1 tr2 : mkdirs (tr1 ++ tr2) = mkdirs tr1 ++ mkdirs tr2.
Proof. induction tr1 as [|[] tr1 IH]; simpl; congruence. Qed.

Lemma logs_app tr1 tr2 : logs (tr1 ++ tr2) = logs tr1 ++ logs tr2.
Proof. induction tr1 as [|[] tr1 IH]; simpl; congruence. Qed.

Lemma offsets_app tr1 tr2 : offsets (tr1 ++ tr2) = offsets tr1 ++ offsets tr2.
Proof. unfold offsets. now rewrite requests_app, map_app. Qed.

Lemma not_file_writes evs : Forall not_file evs -> writes evs = [].
Proof.
  induction 1 as [|ev evs H _ IH]; [done|].
  destruct ev; simpl in *; done.
Qed.

Lemma not_file_mkdirs evs : Forall not_file evs -> mkdirs evs = [].
Proof.
  induction 1 as [|ev evs H _ IH]; [done|].
  destruct ev; simpl in *; done.
Qed.

Lemma transport_not_file qp ev : transport_of qp ev -> not_file ev.
Proof. destruct ev; simpl; done. Qed.

Lemma transport_requests qp evs :
  Forall (transport_of qp) evs -> Forall (eq qp) (requests evs).
Proof.
  induction 1 as [|ev evs H _ IH]; [constructor|].
  destruct ev; simpl in *; try done. constructor; auto.
Qed.

(* --------------------------------------------------------------------- *)
(*  C. The transport layer                                                *)
(* --------------------------------------------------------------------- *)

Ltac run_monad :=
  unfold bind, try_except, ret, raise, log, sleep, emit, lift, getitem; simpl.

(** Solves [emits P m] for code built from the combinators. *)
Ltac emits_tac :=
  repeat first
    [ apply emits_ret | apply emits_raise | apply emits_lift
    | apply emits_getitem
    | apply emits_emit; simpl; done
    | apply emits_bind; [|intros]
    | apply emits_try; [|intros]
    | match goal with
      | |- emits _ (if ?b then _ else _) => destruct b
      | |- emits _ (match ?x with _ => _ end) => destruct x
      end ].

Ltac fuel_free_tac :=
  repeat first
    [ apply fuel_free_ret | apply fuel_free_raise | apply fuel_free_emit
    | apply fuel_free_getitem
    | apply fuel_free_bind; [|intros]
    | apply fuel_free_try; [|intros]
    | match goal with
      | |- fuel_free (if ?b then _ else _) => destruct b
      | |- fuel_free (match ?x with _ => _ end) => destruct x
      end ].

(** The credential check does not look at the trace: it always succeeds or
    always fails, and a failure is a FileNotFoundError or a ValueError. *)
Lemma get_api_token_cases E :
  token_ok E \/
  exists e, is_FileNotFoundError e || is_ValueError e = true /\
            forall tr, get_api_token E tr = (Raise e, tr).
Proof.
  unfold token_ok, get_api_token.
  destruct (config_file E) as [content|].
  - destruct (_ || _).
    + right. eexists. split; [|reflexivity]. done.
    + left. eexists. reflexivity.
  - right. eexists. split; [|reflexivity]. done.
Qed.

Lemma token_ok_not_raise E e tr tr' :
  token_ok E -> get_api_token E tr <> (Raise e, tr').
Proof. intros [tok H]. rewrite H. done. Qed.

Lemma emits_session_get E qp : emits (transport_of qp) (session_get E qp).
Proof.
  intros tr. exists [EvGet qp]. unfold session_get.
  destruct (remote E _ qp); simpl; split; try done; by repeat constructor.
Qed.

Lemma emits_get_api_token P E : emits P (get_api_token E).
Proof. unfold get_api_token. emits_tac. Qed.

Lemma emits_query_solr E qp : emits (transport_of qp) (query_solr E qp).
Proof.
  unfold query_solr, raise_for_status, response_json, log.
  apply emits_bind; [apply emits_try; [apply emits_get_api_token|]|]; intros.
  - emits_tac.
  - apply emits_try; [apply emits_bind; [apply emits_session_get|]|]; intros;
      emits_tac.
Qed.

Lemma emits_make_solr_query_once E qp :
  emits (transport_of qp) (make_solr_query_once E qp).
Proof.
  unfold make_solr_query_once, response_json, log.
  apply emits_try; [apply emits_bind; [apply emits_query_solr|]|]; intros;
    emits_tac.
Qed.

Lemma emits_retry {A} P (call : M A) left k :
  emits P call -> (forall s, P (EvSleep s)) -> (forall l m, P (EvLog l m)) ->
  emits P (retry left k call).
Proof.
  intros Hc Hs Hl. revert k. induction left as [|left IH]; intros k; simpl.
  - apply emits_try; [done|]. intros e. destruct (retry_if_exception_type e);
      apply emits_raise.
  - apply emits_try; [done|]. intros e. destruct (retry_if_exception_type e);
      [|apply emits_raise].
    unfold log, sleep.
    apply emits_bind; [by apply emits_emit|]. intros _.
    apply emits_bind; [by apply emits_emit|]. intros _. apply IH.
Qed.

Lemma emits_make_solr_query E qp :
  emits (transport_of qp) (_make_solr_query E qp).
Proof.
  unfold _make_solr_query.
  apply emits_retry; [apply emits_make_solr_query_once| |]; done.
Qed.

Lemma fuel_free_lift {A} (r : outcome A) :
  r <> OutOfFuel -> fuel_free (lift r).
Proof. intros H tr. done. Qed.

Lemma fuel_free_get_api_token E : fuel_free (get_api_token E).
Proof. unfold get_api_token. fuel_free_tac. Qed.

Lemma fuel_free_session_get E qp : fuel_free (session_get E qp).
Proof. intros tr. unfold session_get. destruct (remote E _ qp); done. Qed.

Lemma fuel_free_query_solr E qp : fuel_free (query_solr E qp).
Proof.
  unfold query_solr, raise_for_status, response_json, log.
  apply fuel_free_bind;
    [apply fuel_free_try; [apply fuel_free_get_api_token|]|]; intros.
  - fuel_free_tac.
  - apply fuel_free_try;
      [apply fuel_free_bind; [apply fuel_free_session_get|]|]; intros;
      fuel_free_tac.
Qed.

Lemma fuel_free_make_solr_query_once E qp :
  fuel_free (make_solr_query_once E qp).
Proof.
  unfold make_solr_query_once, response_json, log.
  apply fuel_free_try;
    [apply fuel_free_bind; [apply fuel_free_query_solr|]|]; intros;
    fuel_free_tac.
Qed.

Lemma fuel_free_retry {A} (call : M A) left k :
  fuel_free call -> fuel_free (retry left k call).
Proof.
  intros Hc. revert k. induction left as [|left IH]; intros k; simpl.
  - apply fuel_free_try; [done|]. intros e.
    destruct (retry_if_exception_type e); apply fuel_free_raise.
  - apply fuel_free_try; [done|]. intros e.
    destruct (retry_if_exception_type e); [|apply fuel_free_raise].
    unfold log, sleep.
    apply fuel_free_bind; [apply fuel_free_emit|]. intros _.
    apply fuel_free_bind; [apply fuel_free_emit|]. intros _. apply IH.
Qed.

Lemma fuel_free_make_solr_query E qp : fuel_free (_make_solr_query E qp).
Proof.
  unfold _make_solr_query.
  apply fuel_free_retry, fuel_free_make_solr_query_once.
Qed.

Lemma emits_any {A} P (m : M A) : emits P m -> emits any_event m.
Proof. apply emits_weaken. done. Qed.

Lemma starts_with_bind {A B} ev (m : M A) (f : A -> M B) :
  starts_with ev m -> (forall a, emits any_event (f a)) ->
  starts_with ev (bind m f).
Proof.
  intros Hm Hf tr. unfold bind. destruct (Hm tr) as (evs & E1).
  destruct (m tr) as [[a|e|] tr1]; simpl in *; subst; eauto.
  destruct (Hf a (tr ++ ev :: evs)) as (evs2 & E2 & _).
  exists (evs ++ evs2). rewrite E2. by rewrite <- app_assoc.
Qed.

Lemma starts_with_try {A} ev (m : M A) h :
  starts_with ev m -> (forall e, emits any_event (h e)) ->
  starts_with ev (try_except m h).
Proof.
  intros Hm Hh tr. unfold try_except. destruct (Hm tr) as (evs & E1).
  destruct (m tr) as [[a|e|] tr1]; simpl in *; subst; eauto.
  destruct (Hh e (tr ++ ev :: evs)) as (evs2 & E2 & _).
  exists (evs ++ evs2). rewrite E2. by rewrite <- app_assoc.
Qed.

Lemma starts_with_session_get E qp : starts_with (EvGet qp) (session_get E qp).
Proof.
  intros tr. exists []. unfold session_get. destruct (remote E _ qp); done.
Qed.

(** With a usable token, the first thing [query_solr] does is the GET. *)
Lemma query_solr_starts_with_get E qp :
  token_ok E -> starts_with (EvGet qp) (query_solr E qp).
Proof.
  intros [tok Htok] tr. unfold query_solr.
  erewrite bind_ok; [|erewrite try_except_ok; [reflexivity|apply Htok]].
  revert tr. apply starts_with_try.
  - apply starts_with_bind; [apply starts_with_session_get|].
    intros r. unfold raise_for_status, response_json, log. emits_tac.
  - intros e. unfold log. emits_tac.
Qed.

Lemma make_solr_query_once_starts_with_get E qp :
  token_ok E -> starts_with (EvGet qp) (make_solr_query_once E qp).
Proof.
  intros Htok. unfold make_solr_query_once. apply starts_with_try.
  - apply starts_with_bind; [by apply query_solr_starts_with_get|].
    intros r. unfold response_json. emits_tac.
  - intros e. unfold log. emits_tac.
Qed.

Lemma retry_starts_with {A} ev (call : M A) left k :
  starts_with ev call -> emits any_event call ->
  starts_with ev (retry left k call).
Proof.
  intros Hs He. destruct left; simpl; (apply starts_with_try; [done|]);
    intros e; destruct (retry_if_exception_type e); try apply emits_raise.
  unfold log, sleep.
  apply emits_bind; [by apply emits_emit|]. intros _.
  apply emits_bind; [by apply emits_emit|]. intros _.
  by apply emits_retry.
Qed.

(** With a usable token, every page request puts its GET on the wire
    before anything else happens. *)
Lemma make_solr_query_starts_with_get E qp :
  token_ok E -> starts_with (EvGet qp) (_make_solr_query E qp).
Proof.
  intros Htok. unfold _make_solr_query. apply retry_starts_with.
  - by apply make_solr_query_once_starts_with_get.
  - eapply emits_any, emits_make_solr_query_once.
Qed.

(** A GET answered with a success status and a JSON body. *)
Lemma query_solr_success E qp tr st b :
  token_ok E ->
  remote E (length (requests tr)) qp = GetReturns st (Some b) ->
  (400 <=? st) && (st <? 600) = false ->
  query_solr E qp tr =
    (Ok {| status_code := st; body := Some b |}, tr ++ [EvGet qp]).
Proof.
  intros [tok Htok] Hr Hst. unfold query_solr.
  erewrite bind_ok; [|erewrite try_except_ok; [reflexivity|apply Htok]].
  unfold try_except, bind, session_get, raise_for_status, response_json.
  rewrite Hr. simpl. rewrite Hst. reflexivity.
Qed.

Lemma retry_ok {A} (call : M A) left k tr a tr' :
  call tr = (Ok a, tr') -> retry left k call tr = (Ok a, tr').
Proof. intros H. destruct left; simpl; by erewrite try_except_ok. Qed.

(** An exception outside the retry predicate leaves at the first attempt. *)
Lemma retry_not_retried {A} (call : M A) left k tr e tr' :
  call tr = (Raise e, tr') -> retry_if_exception_type e = false ->
  retry left k call tr = (Raise e, tr').
Proof.
  intros H He.
  destruct left; simpl; (erewrite try_except_raise; [|done]); by rewrite He.
Qed.

(** One successful attempt: one GET and nothing else. *)
Lemma make_solr_query_success E qp tr st b :
  token_ok E ->
  remote E (length (requests tr)) qp = GetReturns st (Some b) ->
  (400 <=? st) && (st <? 600) = false ->
  _make_solr_query E qp tr = (Ok b, tr ++ [EvGet qp]).
Proof.
  intros Htok Hr Hst. unfold _make_solr_query. apply retry_ok.
  unfold make_solr_query_once.
  erewrite try_except_ok; [reflexivity|].
  erewrite bind_ok; [|by eapply query_solr_success]. reflexivity.
Qed.

(** Without a usable token the attempt sends nothing and raises an
    exception outside the retry predicate. *)
Lemma make_solr_query_once_no_token E qp tr :
  ~ token_ok E ->
  exists e evs,
    make_solr_query_once E qp tr = (Raise e, tr ++ evs) /\
    requests evs = [] /\ sleeps evs = [] /\
    retry_if_exception_type e = false.
Proof.
  intros Hno. destruct (get_api_token_cases E) as [|(e & He & Htok)]; [done|].
  assert (Hq : query_solr E qp tr =
               (Raise e, tr ++ [EvLog ERROR (MsgTokenFailed e)])).
  { unfold query_solr. erewrite bind_raise; [reflexivity|].
    erewrite try_except_raise; [|apply Htok]. rewrite He. reflexivity. }
  assert (Hre : is_RequestException e = false) by (destruct e; done).
  assert (Hrt : retry_if_exception_type e = false) by (destruct e; done).
  assert (Hh : is_HTTPError e = false) by (destruct e; done).
  destruct (is_ValueError e) eqn:Hv.
  - exists e, [EvLog ERROR (MsgTokenFailed e);
               EvLog ERROR (MsgInvalidResponse e)].
    split; [|done]. unfold make_solr_query_once.
    erewrite try_except_raise; [|erewrite bind_raise; [reflexivity|apply Hq]].
    rewrite Hre, Hh, Hv. run_monad. by rewrite <- app_assoc.
  - exists e, [EvLog ERROR (MsgTokenFailed e)].
    split; [|done]. unfold make_solr_query_once.
    erewrite try_except_raise; [|erewrite bind_raise; [reflexivity|apply Hq]].
    rewrite Hre, Hh, Hv. reflexivity.
Qed.

(** Without a usable token no request is sent and nothing is retried. *)
Lemma make_solr_query_no_token E qp tr :
  ~ token_ok E ->
  exists e evs,
    _make_solr_query E qp tr = (Raise e, tr ++ evs) /\
    requests evs = [] /\ sleeps evs = [] /\
    retry_if_exception_type e = false.
Proof.
  intros Hno.
  destruct (make_solr_query_once_no_token E qp tr Hno)
    as (e & evs & H & Hr & Hs & He).
  exists e, evs. split; [|done].
  unfold _make_solr_query. by apply retry_not_retried.
Qed.

(** An exception inside the retry predicate: warn, sleep, try again. *)
Lemma retry_again {A} (call : M A) left k tr e tr' :
  call tr = (Raise e, tr') -> retry_if_exception_type e = true ->
  retry (S left) k call tr =
    retry left (k + 1) call
      (tr' ++ [EvLog WARNING (MsgRetrying k (wait_exponential 2 4 60 k) e);
               EvSleep (wait_exponential 2 4 60 k)]).
Proof.
  intros H He. simpl. erewrite try_except_raise; [|done]. rewrite He.
  run_monad. by rewrite <- app_assoc.
Qed.

(** The stop condition: the last exception is re-raised. *)
Lemma retry_exhausted {A} (call : M A) k tr e tr' :
  call tr = (Raise e, tr') -> retry O k call tr = (Raise e, tr').
Proof.
  intros H. simpl. erewrite try_except_raise; [|done].
  by destruct (retry_if_exception_type e).
Qed.

(** The waits of the retry policy stay between the floor and the
    ceiling. *)
Lemma wait_exponential_bounds k : 4 <= wait_exponential 2 4 60 k <= 60.
Proof. unfold wait_exponential. lia. Qed.

Lemma wait_exponential_values :
  map (wait_exponential 2 4 60) [1; 2; 3; 4] = [4; 4; 8; 16].
Proof. reflexivity. Qed.

(** One attempt sends at most one GET. *)
Lemma make_solr_query_once_one_get E qp tr :
  exists evs, snd (make_solr_query_once E qp tr) = tr ++ evs /\
              (length (requests evs) <= 1)%nat.
Proof.
  destruct (get_api_token_cases E) as [[tok Htok]|(e & He & Htok)].
  - unfold make_solr_query_once, query_solr.
    unfold try_except at 1. unfold bind at 1. unfold bind at 1.
    unfold try_except at 1. rewrite Htok.
    unfold try_except at 1. unfold bind at 1. unfold session_get.
    destruct (remote E _ qp) as [e|st [b|]]; simpl.
    + destruct e as [| | | | | |[c|]| | | | |]; simpl;
        try (eexists; split; [rewrite <- ?app_assoc; reflexivity|simpl; lia]).
      destruct (c =? 401), (c =? 429); simpl;
        eexists; (split; [rewrite <- ?app_assoc; reflexivity|simpl; lia]).
    + unfold raise_for_status, bind. simpl.
      destruct ((400 <=? st) && (st <? 600)); simpl.
      * destruct (st =? 401), (st =? 429); simpl;
          eexists; (split; [rewrite <- ?app_assoc; reflexivity|simpl; lia]).
      * eexists; (split; [rewrite <- ?app_assoc; reflexivity|simpl; lia]).
    + unfold raise_for_status, bind. simpl.
      destruct ((400 <=? st) && (st <? 600)); simpl.
      * destruct (st =? 401), (st =? 429); simpl;
          eexists; (split; [rewrite <- ?app_assoc; reflexivity|simpl; lia]).
      * eexists; (split; [rewrite <- ?app_assoc; reflexivity|simpl; lia]).
  - destruct (make_solr_query_once_no_token E qp tr) as (e' & evs & H & Hr & _).
    { intros [tok Hok]. specialize (Htok []). rewrite Hok in Htok. done. }
    exists evs. rewrite H, Hr. simpl. split; [done|lia].
Qed.

(** [stop_after_attempt(5)]: a page request sends at most five GETs. *)
Lemma retry_bounded_gets {A} (call : M A) left k tr :
  (forall tr, exists evs, snd (call tr) = tr ++ evs /\
                          (length (requests evs) <= 1)%nat) ->
  exists evs, snd (retry left k call tr) = tr ++ evs /\
              (length (requests evs) <= S left)%nat.
Proof.
  intros Hc. revert k tr. induction left as [|left IH]; intros k tr.
  - destruct (Hc tr) as (evs & E1 & L1). exists evs. simpl.
    unfold try_except. destruct (call tr) as [[a|e|] tr1]; simpl in *;
      try done. by destruct (retry_if_exception_type e).
  - destruct (Hc tr) as (evs & E1 & L1).
    destruct (call tr) as [[a|e|] tr1] eqn:Hcall; simpl in E1; subst.
    + exists evs. erewrite retry_ok by done. split; [done|lia].
    + destruct (retry_if_exception_type e) eqn:He.
      * erewrite retry_again by done.
        edestruct IH as (evs2 & E2 & L2). rewrite E2.
        eexists. split; [rewrite <- !app_assoc; reflexivity|].
        rewrite !requests_app, !length_app. simpl. lia.
      * erewrite retry_not_retried by done. exists evs. split; [done|lia].
    + exists evs. simpl. unfold try_except. rewrite Hcall. split; [done|lia].
Qed.

Lemma make_solr_query_at_most_five E qp tr :
  exists evs, snd (_make_solr_query E qp tr) = tr ++ evs /\
              (length (requests evs) <= 5)%nat.
Proof.
  unfold _make_solr_query.
  apply retry_bounded_gets, make_solr_query_once_one_get.
Qed.

(** An error status other than 401: the attempt raises HTTPError. *)
Lemma make_solr_query_once_status_error E qp tr code body :
  token_ok E ->
  remote E (length (requests tr)) qp = GetReturns code body ->
  400 <= code < 600 -> code <> 401 ->
  make_solr_query_once E qp tr =
    (Raise (HTTPError (Some code)),
     tr ++ [EvGet qp;
            EvLog ERROR (if code =? 429 then MsgRateLimit else MsgStatus code);
            EvLog ERROR (MsgQueryFailed (HTTPError (Some code)))]).
Proof.
  intros [tok Htok] Hr Hc Hne. unfold make_solr_query_once, query_solr.
  unfold try_except at 1. unfold bind at 1. unfold bind at 1.
  unfold try_except at 1. rewrite Htok.
  unfold try_except at 1. unfold bind at 1. unfold session_get.
  rewrite Hr. unfold raise_for_status, bind. simpl.
  replace ((400 <=? code) && (code <? 600)) with true by lia.
  simpl. replace (code =? 401) with false by lia.
  destruct (code =? 429); run_monad; by rewrite <- !app_assoc.
Qed.

(** A 401 answer becomes a ValueError, which is not retried. *)
Lemma make_solr_query_unauthorized E qp tr body :
  token_ok E ->
  remote E (length (requests tr)) qp = GetReturns 401 body ->
  _make_solr_query E qp tr =
    (Raise (ValueError "Invalid API token"),
     tr ++ [EvGet qp; EvLog ERROR MsgInvalidToken;
            EvLog ERROR (MsgInvalidResponse (ValueError "Invalid API token"))]).
Proof.
  intros [tok Htok] Hr. unfold _make_solr_query.
  apply retry_not_retried; [|done].
  unfold make_solr_query_once, query_solr.
  unfold try_except at 1. unfold bind at 1. unfold bind at 1.
  unfold try_except at 1. rewrite Htok.
  unfold try_except at 1. unfold bind at 1. unfold session_get.
  rewrite Hr. run_monad. by rewrite <- !app_assoc.
Qed.

(** A body that does not parse: the HTTPError built at line 92 has no
    response, so the handler of line 102 fails on [e.response.status_code];
    the AttributeError is not retried. *)
Lemma make_solr_query_malformed_body E qp tr st :
  token_ok E ->
  remote E (length (requests tr)) qp = GetReturns st None ->
  (400 <=? st) && (st <? 600) = false ->
  _make_solr_query E qp tr =
    (Raise (AttributeError "'NoneType' object has no attribute 'status_code'"),
     tr ++ [EvGet qp; EvLog ERROR MsgInvalidJSON]).
Proof.
  intros [tok Htok] Hr Hst. unfold _make_solr_query.
  apply retry_not_retried; [|done].
  unfold make_solr_query_once, query_solr.
  unfold try_except at 1. unfold bind at 1. unfold bind at 1.
  unfold try_except at 1. rewrite Htok.
  unfold try_except at 1. unfold bind at 1. unfold session_get.
  rewrite Hr. unfold raise_for_status, bind. simpl. rewrite Hst.
  run_monad. by rewrite <- !app_assoc.
Qed.

(** A request that raises a timeout-class or network exception. *)
Lemma make_solr_query_once_network_error E qp tr e :
  token_ok E ->
  remote E (length (requests tr)) qp = GetRaises e ->
  is_RequestException e = true -> is_HTTPError e = false ->
  exists m,
    make_solr_query_once E qp tr =
      (Raise e, tr ++ [EvGet qp; EvLog ERROR m;
                       EvLog ERROR (MsgQueryFailed e)]).
Proof.
  intros [tok Htok] Hr He Hh. unfold make_solr_query_once, query_solr.
  unfold try_except at 1. unfold bind at 1. unfold bind at 1.
  unfold try_except at 1. rewrite Htok.
  unfold try_except at 1. unfold bind at 1. unfold session_get.
  rewrite Hr.
  destruct e; try done; run_monad; eexists; by rewrite <- !app_assoc.
Qed.

(* --------------------------------------------------------------------- *)
(*  D. The entry point: guard, dry run, first request                     *)
(* --------------------------------------------------------------------- *)

Lemma log_then {A} l m (k : M A) tr :
  (log l m >> k) tr = k (tr ++ [EvLog l m]).
Proof. reflexivity. Qed.

Lemma harvest_with_guard_passed fuel E q save N P :
  P <= 2000 ->
  harvest_with fuel E q save N P =
    let query_params :=
      match save with
      | None => dry_run_params q
      | Some _ => full_params q P
      end in
    try_except
      (log INFO MsgFirstPage >>
       do results_json <- _make_solr_query E query_params;
       do resp <- getitem "response" (response results_json);
       do total <- getitem "numFound" (numFound resp);
       log INFO (MsgFound total) >>
       match save with
       | None => log INFO MsgNoOutput >> ret tt
       | Some path =>
           do highlights <- lift (first_page_highlights results_json);
           do st <- paging_loop E fuel N total query_params
                      {| cur_page := 1; cur_timeouts := 0;
                         cur_highlights := highlights |};
           save_results E path (cur_highlights st) (cur_timeouts st)
       end)
      (fun e => log ERROR (MsgHarvestFailed e) >> raise e).
Proof.
  intros HP. unfold harvest_with.
  replace (P >? 2000) with false by lia. reflexivity.
Qed.

(** A failure of the first page request goes straight to the handler of
    line 224, in either mode. *)
Lemma harvest_first_request_raises fuel E q save N P e tr tr1 :
  P <= 2000 ->
  _make_solr_query E
    (match save with None => dry_run_params q | Some _ => full_params q P end)
    (tr ++ [EvLog INFO MsgFirstPage]) = (Raise e, tr1) ->
  harvest_with fuel E q save N P tr =
    (Raise e, tr1 ++ [EvLog ERROR (MsgHarvestFailed e)]).
Proof.
  intros HP Hq. rewrite harvest_with_guard_passed by done. simpl.
  erewrite try_except_raise; [reflexivity|].
  rewrite log_then. by erewrite bind_raise.
Qed.

(* --------------------------------------------------------------------- *)
(*  E. One turn of the paging loop                                        *)
(* --------------------------------------------------------------------- *)

Lemma and_then_inv {A B} (r : outcome A) (f : A -> outcome B) b :
  and_then r f = Ok b -> exists a, r = Ok a /\ f a = Ok b.
Proof. destruct r; simpl; intros; eauto; done. Qed.

Lemma is_ok_inv {A} (r : outcome A) : is_ok r = true -> exists a, r = Ok a.
Proof. destruct r; simpl; eauto; done. Qed.

Lemma is_ok_run {A} (x : outcome A * trace) :
  is_ok (fst x) = true -> exists a tr, x = (Ok a, tr).
Proof. destruct x as [[a|e|] tr]; simpl; eauto; done. Qed.

Lemma field_outcome {A} k (o : option A) :
  (exists a, o = Some a /\ field k o = Ok a) \/
  (o = None /\ field k o = Raise (KeyError k)).
Proof. destruct o; simpl; eauto. Qed.

Lemma key_error_only_and_then {A B} (r : outcome A) (f : A -> outcome B) :
  key_error_only r -> (forall a, key_error_only (f a)) ->
  key_error_only (and_then r f).
Proof. destruct r; simpl; auto. Qed.

Lemma key_error_only_field {A} k (o : option A) : key_error_only (field k o).
Proof. destruct o; simpl; eauto. Qed.

Lemma source_of_key_error_only d : key_error_only (source_of d).
Proof.
  unfold source_of.
  repeat (apply key_error_only_and_then;
          [apply key_error_only_field|intros ?]). done.
Qed.

Lemma add_source_key_error_only h d : key_error_only (add_source h d).
Proof.
  unfold add_source.
  apply key_error_only_and_then; [apply key_error_only_field|intros id].
  apply key_error_only_and_then; [apply source_of_key_error_only|intros src].
  destruct (_ !! id); simpl; eauto.
Qed.

Lemma add_sources_key_error_only ds h : key_error_only (add_sources ds h).
Proof.
  revert h. induction ds as [|d ds IH]; intros h; simpl; [done|].
  apply key_error_only_and_then; [apply add_source_key_error_only|done].
Qed.

Lemma merge_page_key_error_only h pg : key_error_only (merge_page h pg).
Proof.
  unfold merge_page.
  repeat (apply key_error_only_and_then;
          [apply key_error_only_field|intros ?]).
  apply add_sources_key_error_only.
Qed.

Lemma first_page_highlights_key_error_only pg :
  key_error_only (first_page_highlights pg).
Proof.
  unfold first_page_highlights.
  repeat (apply key_error_only_and_then;
          [apply key_error_only_field|intros ?]).
  apply add_sources_key_error_only.
Qed.

Lemma key_error_only_fuel_free {A} (r : outcome A) :
  key_error_only r -> fuel_free (lift r).
Proof. intros H tr. destruct r; done. Qed.

Section Turn.
Context (E : env) (qp : query_params) (st : loop_state) (tr : trace).

Lemma loop_body_unfold :
  loop_body E qp st tr =
    try_except
      (do results_json <- (fun _ => turn_request E qp st tr);
       do highlights <- lift (merge_page (cur_highlights st) results_json);
       log INFO (MsgWaiting 2) >>
       sleep 2 >>
       ret (Continue {| cur_page := cur_page st + 1;
                        cur_timeouts := 0;
                        cur_highlights := highlights |}))
      (fun e =>
         if is_Timeout e then
           log WARNING (MsgTimeoutOnPage (cur_page st) (cur_timeouts st + 1)) >>
           if cur_timeouts st + 1 >=? max_consecutive_timeouts then
             log ERROR MsgTooManyTimeouts >>
             ret (Break {| cur_page := cur_page st;
                           cur_timeouts := cur_timeouts st + 1;
                           cur_highlights := cur_highlights st |})
           else
             log INFO (MsgWaitingAfterTimeout (5 * (cur_timeouts st + 1))) >>
             sleep (5 * (cur_timeouts st + 1)) >>
             ret (Continue {| cur_page := cur_page st;
                              cur_timeouts := cur_timeouts st + 1;
                              cur_highlights := cur_highlights st |})
         else if is_RequestException e || is_HTTPError e then
           log ERROR (MsgPageFailed (cur_page st) e) >> raise e
         else raise e) tr.
Proof. reflexivity. Qed.

(** The page request succeeded and the page was merged: the counter is
    back to 0, the page index moves on, the loop pauses 2 seconds. *)
Lemma loop_body_success b tr1 hl :
  turn_request E qp st tr = (Ok b, tr1) ->
  merge_page (cur_highlights st) b = Ok hl ->
  loop_body E qp st tr =
    (Ok (Continue {| cur_page := cur_page st + 1; cur_timeouts := 0;
                     cur_highlights := hl |}),
     tr1 ++ [EvLog INFO (MsgWaiting 2); EvSleep 2]).
Proof.
  intros Hq Hm. rewrite loop_body_unfold.
  erewrite try_except_ok; [reflexivity|].
  erewrite bind_ok by exact Hq. unfold lift, bind at 1. rewrite Hm.
  run_monad. by rewrite <- app_assoc.
Qed.

(** The page request succeeded but a key is missing on the page. *)
Lemma loop_body_key_error b tr1 e :
  turn_request E qp st tr = (Ok b, tr1) ->
  merge_page (cur_highlights st) b = Raise e ->
  loop_body E qp st tr = (Raise e, tr1).
Proof.
  intros Hq Hm. rewrite loop_body_unfold.
  erewrite try_except_raise.
  2:{ erewrite bind_ok by exact Hq. unfold lift, bind at 1.
      rewrite Hm. reflexivity. }
  pose proof (merge_page_key_error_only (cur_highlights st) b) as Hk.
  rewrite Hm in Hk. destruct Hk as [k ->]. reflexivity.
Qed.

(** A timeout below the threshold: count it, sleep 5 seconds times the
    counter, and come back to the test with the same page index. *)
Lemma loop_body_timeout_retry e tr1 :
  turn_request E qp st tr = (Raise e, tr1) ->
  is_Timeout e = true ->
  cur_timeouts st + 1 < 3 ->
  loop_body E qp st tr =
    (Ok (Continue {| cur_page := cur_page st;
                     cur_timeouts := cur_timeouts st + 1;
                     cur_highlights := cur_highlights st |}),
     tr1 ++ [EvLog WARNING
               (MsgTimeoutOnPage (cur_page st) (cur_timeouts st + 1));
             EvLog INFO (MsgWaitingAfterTimeout (5 * (cur_timeouts st + 1)));
             EvSleep (5 * (cur_timeouts st + 1))]).
Proof.
  intros Hq He Hc. rewrite loop_body_unfold.
  erewrite try_except_raise by (erewrite bind_raise by exact Hq; reflexivity).
  rewrite He. unfold max_consecutive_timeouts.
  replace (cur_timeouts st + 1 >=? 3) with false by lia.
  run_monad. by rewrite <- !app_assoc.
Qed.

(** A timeout that brings the counter to the threshold: [break]. *)
Lemma loop_body_timeout_abort e tr1 :
  turn_request E qp st tr = (Raise e, tr1) ->
  is_Timeout e = true ->
  3 <= cur_timeouts st + 1 ->
  loop_body E qp st tr =
    (Ok (Break {| cur_page := cur_page st;
                  cur_timeouts := cur_timeouts st + 1;
                  cur_highlights := cur_highlights st |}),
     tr1 ++ [EvLog WARNING
               (MsgTimeoutOnPage (cur_page st) (cur_timeouts st + 1));
             EvLog ERROR MsgTooManyTimeouts]).
Proof.
  intros Hq He Hc. rewrite loop_body_unfold.
  erewrite try_except_raise by (erewrite bind_raise by exact Hq; reflexivity).
  rewrite He. unfold max_consecutive_timeouts.
  replace (cur_timeouts st + 1 >=? 3) with true by lia.
  run_monad. by rewrite <- !app_assoc.
Qed.

(** Any other failure of the page request leaves the loop body as it
    came, after at most the log record of line 205. *)
Lemma loop_body_hard_failure e tr1 :
  turn_request E qp st tr = (Raise e, tr1) ->
  is_Timeout e = false ->
  loop_body E qp st tr =
    (Raise e,
     tr1 ++ (if is_RequestException e || is_HTTPError e
             then [EvLog ERROR (MsgPageFailed (cur_page st) e)]
             else [])).
Proof.
  intros Hq He. rewrite loop_body_unfold.
  erewrite try_except_raise by (erewrite bind_raise by exact Hq; reflexivity).
  rewrite He. destruct (_ || _); run_monad; [done|by rewrite app_nil_r].
Qed.

Lemma turn_request_fuel_free tr1 : turn_request E qp st tr <> (OutOfFuel, tr1).
Proof.
  unfold turn_request. intros H.
  eapply (fuel_free_make_solr_query E (turn_params qp st)).
  by rewrite H.
Qed.

Lemma emits_loop_body :
  emits (transport_of (turn_params qp st)) (loop_body E qp st).
Proof.
  unfold loop_body, log, sleep.
  apply emits_try; [|intros e; emits_tac].
  apply emits_bind; [by apply emits_emit|]. intros _.
  apply emits_bind; [apply emits_make_solr_query|].
  intros r2. emits_tac.
Qed.

Lemma fuel_free_loop_body : fuel_free (loop_body E qp st).
Proof.
  unfold loop_body, log, sleep.
  apply fuel_free_try; [|intros e; fuel_free_tac].
  apply fuel_free_bind; [apply fuel_free_emit|]. intros _.
  apply fuel_free_bind; [apply fuel_free_make_solr_query|]. intros r2.
  apply fuel_free_bind;
    [apply key_error_only_fuel_free, merge_page_key_error_only|].
  intros hl. fuel_free_tac.
Qed.

(** What a turn does to the local variables. *)
Lemma loop_body_continue st' tr' :
  loop_body E qp st tr = (Ok (Continue st'), tr') ->
  (cur_page st' = cur_page st + 1 /\ cur_timeouts st' = 0) \/
  (cur_page st' = cur_page st /\ cur_timeouts st' = cur_timeouts st + 1 /\
   cur_timeouts st' < 3 /\ cur_highlights st' = cur_highlights st).
Proof.
  destruct (turn_request E qp st tr) as [[b|e|] tr1] eqn:Hq.
  - destruct (merge_page (cur_highlights st) b) as [hl|e|] eqn:Hm.
    + erewrite loop_body_success by done. intros H. inversion H. by left.
    + erewrite loop_body_key_error by done. done.
    + pose proof (merge_page_key_error_only (cur_highlights st) b) as Hk.
      by rewrite Hm in Hk.
  - destruct (is_Timeout e) eqn:He.
    + destruct (Z_lt_ge_dec (cur_timeouts st + 1) 3).
      * erewrite loop_body_timeout_retry by done. intros H. inversion H.
        right. simpl. repeat split; (done || lia).
      * erewrite loop_body_timeout_abort by (done || lia). done.
    + erewrite loop_body_hard_failure by done. done.
  - by apply turn_request_fuel_free in Hq.
Qed.

Lemma loop_body_break st' tr' :
  loop_body E qp st tr = (Ok (Break st'), tr') ->
  cur_page st' = cur_page st /\ cur_timeouts st' = cur_timeouts st + 1 /\
  3 <= cur_timeouts st' /\ cur_highlights st' = cur_highlights st.
Proof.
  destruct (turn_request E qp st tr) as [[b|e|] tr1] eqn:Hq.
  - destruct (merge_page (cur_highlights st) b) as [hl|e|] eqn:Hm.
    + erewrite loop_body_success by done. done.
    + erewrite loop_body_key_error by done. done.
    + pose proof (merge_page_key_error_only (cur_highlights st) b) as Hk.
      by rewrite Hm in Hk.
  - destruct (is_Timeout e) eqn:He.
    + destruct (Z_lt_ge_dec (cur_timeouts st + 1) 3).
      * erewrite loop_body_timeout_retry by done. done.
      * erewrite loop_body_timeout_abort by (done || lia).
        intros H. inversion H. simpl. repeat split; (done || lia).
    + erewrite loop_body_hard_failure by done. done.
  - by apply turn_request_fuel_free in Hq.
Qed.
End Turn.

(* --------------------------------------------------------------------- *)
(*  F. The paging loop                                                    *)
(* --------------------------------------------------------------------- *)

Section Loop.
Context (E : env) (N total : Z) (qp : query_params).

Lemma paging_loop_exit fuel st tr :
  loop_test N total qp st = false ->
  paging_loop E fuel N total qp st tr = (Ok st, tr).
Proof. intros H. destruct fuel; simpl; by rewrite H. Qed.

Lemma paging_loop_S fuel st :
  paging_loop E (S fuel) N total qp st =
    if loop_test N total qp st then
      do r <- loop_body E qp st;
      match r with
      | Continue st' => paging_loop E fuel N total qp st'
      | Break st' => ret st'
      end
    else ret st.
Proof. reflexivity. Qed.

Lemma paging_loop_continue fuel st tr st' tr' :
  loop_test N total qp st = true ->
  loop_body E qp st tr = (Ok (Continue st'), tr') ->
  paging_loop E (S fuel) N total qp st tr =
    paging_loop E fuel N total qp st' tr'.
Proof.
  intros H Hb. rewrite paging_loop_S, H.
  erewrite bind_ok by exact Hb. reflexivity.
Qed.

Lemma paging_loop_break fuel st tr st' tr' :
  loop_test N total qp st = true ->
  loop_body E qp st tr = (Ok (Break st'), tr') ->
  paging_loop E (S fuel) N total qp st tr = (Ok st', tr').
Proof.
  intros H Hb. rewrite paging_loop_S, H.
  erewrite bind_ok by exact Hb. reflexivity.
Qed.

Lemma paging_loop_raise fuel st tr e tr' :
  loop_test N total qp st = true ->
  loop_body E qp st tr = (Raise e, tr') ->
  paging_loop E (S fuel) N total qp st tr = (Raise e, tr').
Proof.
  intros H Hb. rewrite paging_loop_S, H.
  erewrite bind_raise by exact Hb. reflexivity.
Qed.

(** More fuel does not change a result. *)
Lemma paging_loop_more_fuel fuel d st tr r tr' :
  paging_loop E fuel N total qp st tr = (r, tr') -> r <> OutOfFuel ->
  paging_loop E (fuel + d) N total qp st tr = (r, tr').
Proof.
  revert st tr. induction fuel as [|fuel IH]; intros st tr H Hr.
  - simpl in H. destruct (loop_test N total qp st) eqn:Ht.
    + inversion H. congruence.
    + rewrite paging_loop_exit by done. done.
  - destruct (loop_test N total qp st) eqn:Ht.
    + change (S fuel + d)%nat with (S (fuel + d)).
      destruct (loop_body E qp st tr) as [[[st'|st']|e|] tr1] eqn:Hb.
      * erewrite paging_loop_continue in H |- * by done. by apply IH.
      * erewrite paging_loop_break in H |- * by done. done.
      * erewrite paging_loop_raise in H |- * by done. done.
      * rewrite paging_loop_S, Ht in H.
        erewrite bind_out_of_fuel in H by done.
        inversion H. congruence.
    + rewrite paging_loop_exit in H |- * by done. done.
Qed.

(** The loop ends: with the counter in range, [loop_measure] turns are
    enough, whatever the service answers. *)
Lemma paging_loop_terminates fuel st tr :
  0 <= cur_timeouts st < 3 ->
  (loop_measure N st <= fuel)%nat ->
  fst (paging_loop E fuel N total qp st tr) <> OutOfFuel.
Proof.
  revert st tr. induction fuel as [|fuel IH]; intros st tr Hc Hm.
  - destruct (loop_test N total qp st) eqn:Ht.
    + unfold loop_test in Ht. unfold loop_measure in Hm. lia.
    + by rewrite paging_loop_exit.
  - destruct (loop_test N total qp st) eqn:Ht.
    + destruct (loop_body E qp st tr) as [[[st'|st']|e|] tr1] eqn:Hb.
      * erewrite paging_loop_continue by done.
        unfold loop_test in Ht. unfold loop_measure in Hm.
        apply loop_body_continue in Hb.
        apply IH; unfold loop_measure; lia.
      * by erewrite paging_loop_break.
      * by erewrite paging_loop_raise.
      * pose proof (fuel_free_loop_body E qp st tr) as Hf.
        by rewrite Hb in Hf.
    + by rewrite paging_loop_exit.
Qed.

(** Two amounts of fuel that both suffice give the same run. *)
Lemma paging_loop_fuel_irrelevant f1 f2 st tr :
  fst (paging_loop E f1 N total qp st tr) <> OutOfFuel ->
  fst (paging_loop E f2 N total qp st tr) <> OutOfFuel ->
  paging_loop E f1 N total qp st tr = paging_loop E f2 N total qp st tr.
Proof.
  intros H1 H2.
  destruct (paging_loop E f1 N total qp st tr) as [r1 t1] eqn:E1.
  destruct (paging_loop E f2 N total qp st tr) as [r2 t2] eqn:E2.
  apply (paging_loop_more_fuel _ f2) in E1; [|done].
  apply (paging_loop_more_fuel _ f1) in E2; [|done].
  rewrite (Nat.add_comm f2 f1) in E2. congruence.
Qed.

(** The counter stays in range along the turns of the loop. *)
Lemma loop_reaches_timeouts st tr st' tr' :
  loop_reaches E N total qp st tr st' tr' ->
  0 <= cur_timeouts st < 3 -> 0 <= cur_timeouts st' < 3.
Proof.
  induction 1 as [|st tr st1 tr1 st2 tr2 Ht Hb _ IH]; [done|].
  intros Hc. apply IH. apply loop_body_continue in Hb. lia.
Qed.

Lemma loop_reaches_pages st tr st' tr' :
  loop_reaches E N total qp st tr st' tr' -> cur_page st <= cur_page st'.
Proof.
  induction 1 as [|st tr st1 tr1 st2 tr2 Ht Hb _ IH]; [done|].
  apply loop_body_continue in Hb. lia.
Qed.

(** What the loop does from a later test is what it does from an earlier
    one, given fuel for the turns in between. *)
Lemma loop_reaches_paging_loop st tr st' tr' :
  loop_reaches E N total qp st tr st' tr' ->
  forall fuel r tr'',
    paging_loop E fuel N total qp st' tr' = (r, tr'') -> r <> OutOfFuel ->
    exists fuel0, paging_loop E fuel0 N total qp st tr = (r, tr'').
Proof.
  induction 1 as [|st tr st1 tr1 st2 tr2 Ht Hb _ IH]; intros fuel r tr'' H Hr.
  - eauto.
  - destruct (IH _ _ _ H Hr) as [fuel0 H0].
    exists (S fuel0). by erewrite paging_loop_continue.
Qed.

Lemma loop_reaches_trans st tr st1 tr1 st2 tr2 :
  loop_reaches E N total qp st tr st1 tr1 ->
  loop_reaches E N total qp st1 tr1 st2 tr2 ->
  loop_reaches E N total qp st tr st2 tr2.
Proof.
  induction 1; [done|]. intros H2. eapply reaches_turn; eauto.
Qed.

Lemma emits_paging_loop fuel st :
  emits not_file (paging_loop E fuel N total qp st).
Proof.
  revert st. induction fuel as [|fuel IH]; intros st; simpl;
    destruct (loop_test _ _ _ _); try apply emits_ret.
  - intros tr. exists []. simpl. by rewrite app_nil_r.
  - apply emits_bind.
    + eapply emits_weaken; [|apply emits_loop_body].
      apply transport_not_file.
    + intros [st'|st']; [apply IH|apply emits_ret].
Qed.
End Loop.

Lemma emits_first_phase E q P : emits not_file (first_phase E q P).
Proof.
  unfold first_phase, log.
  apply emits_bind; [by apply emits_emit|]. intros _.
  apply emits_bind.
  { eapply emits_weaken; [|apply emits_make_solr_query].
    apply transport_not_file. }
  intros r. emits_tac.
Qed.

Lemma emits_collect fuel E q N P : emits not_file (collect fuel E q N P).
Proof.
  unfold collect. apply emits_bind; [apply emits_first_phase|].
  intros th. apply emits_paging_loop.
Qed.

Lemma emits_save_results E path hl c : emits any_event (save_results E path hl c).
Proof. unfold save_results, mkdir_parents, dump_json, log. emits_tac. Qed.

Lemma fuel_free_save_results E path hl c : fuel_free (save_results E path hl c).
Proof. unfold save_results, mkdir_parents, dump_json, log. fuel_free_tac. Qed.

Lemma fuel_free_first_phase E q P : fuel_free (first_phase E q P).
Proof.
  unfold first_phase, log.
  apply fuel_free_bind; [apply fuel_free_emit|]. intros _.
  apply fuel_free_bind; [apply fuel_free_make_solr_query|]. intros r.
  apply fuel_free_bind; [apply fuel_free_getitem|]. intros resp.
  apply fuel_free_bind; [apply fuel_free_getitem|]. intros total.
  apply fuel_free_bind; [apply fuel_free_emit|]. intros _.
  apply fuel_free_bind;
    [apply key_error_only_fuel_free, first_page_highlights_key_error_only|].
  intros hl. apply fuel_free_ret.
Qed.

(* --------------------------------------------------------------------- *)
(*  G. The whole run                                                      *)
(* --------------------------------------------------------------------- *)

(** A full harvest is the collection of the pages, then the save step,
    inside the handler of line 224. *)
Lemma harvest_with_full fuel E q path N P tr :
  P <= 2000 ->
  harvest_with fuel E q (Some path) N P tr =
    try_except
      (do st <- collect fuel E q N P;
       save_results E path (cur_highlights st) (cur_timeouts st))
      (fun e => log ERROR (MsgHarvestFailed e) >> raise e) tr.
Proof.
  intros HP. rewrite harvest_with_guard_passed by done. cbv zeta.
  unfold try_except, collect, first_phase, log, bind, emit, lift, getitem.
  destruct (_make_solr_query _ _ _) as [[b|e|] tr1]; simpl; try reflexivity.
  destruct (response b) as [resp|]; simpl; try reflexivity.
  destruct (numFound resp) as [t|]; simpl; try reflexivity.
  destruct (first_page_highlights b) as [hl|e|]; simpl; reflexivity.
Qed.

Lemma loop_measure_entry N hl : loop_measure N (loop_entry hl) = loop_fuel N.
Proof. unfold loop_measure, loop_fuel. simpl. f_equal. lia. Qed.

(** [loop_fuel] is enough for the loop of a harvest. *)
Lemma paging_loop_entry_terminates E N total qp hl tr fuel :
  (loop_fuel N <= fuel)%nat ->
  fst (paging_loop E fuel N total qp (loop_entry hl) tr) <> OutOfFuel.
Proof.
  intros Hf. apply paging_loop_terminates; [simpl; lia|].
  by rewrite loop_measure_entry.
Qed.

(** The turns of the loop leave the disk alone. *)
Lemma loop_reaches_not_file E N total qp st tr st' tr' :
  loop_reaches E N total qp st tr st' tr' ->
  exists evs, tr' = tr ++ evs /\ Forall not_file evs.
Proof.
  induction 1 as [|st tr st1 tr1 st2 tr2 Ht Hb _ (evs2 & -> & F2)].
  - exists []. by rewrite app_nil_r.
  - destruct (emits_loop_body E qp st tr) as (evs & E1 & F1).
    rewrite Hb in E1. simpl in E1. subst tr1.
    exists (evs ++ evs2). rewrite app_assoc. split; [done|].
    apply Forall_app. split; [|done].
    eapply Forall_impl; [exact F1|]. apply transport_not_file.
Qed.

Section InLoop.
Context (E : env) (q : string) (N P total : Z)
        (st : loop_state) (tr : trace).
Hypothesis Hin : in_loop E q N P total st tr.

Lemma in_loop_timeouts : 0 <= cur_timeouts st < 3.
Proof.
  destruct Hin as (hl0 & tr0 & _ & Hr).
  eapply loop_reaches_timeouts; [exact Hr|]. simpl. lia.
Qed.

Lemma in_loop_page : 1 <= cur_page st.
Proof.
  destruct Hin as (hl0 & tr0 & _ & Hr).
  apply loop_reaches_pages in Hr. simpl in Hr. lia.
Qed.

Lemma in_loop_not_file : writes tr = [] /\ mkdirs tr = [].
Proof.
  destruct Hin as (hl0 & tr0 & Hf & Hr).
  destruct (emits_first_phase E q P []) as (evs0 & E0 & F0).
  rewrite Hf in E0. simpl in E0. subst tr0.
  destruct (loop_reaches_not_file _ _ _ _ _ _ _ _ Hr) as (evs & -> & F).
  rewrite writes_app, mkdirs_app.
  by rewrite !not_file_writes, !not_file_mkdirs.
Qed.

(** One more turn that comes back to the test. *)
Lemma in_loop_turn st' tr' :
  loop_test N total (full_params q P) st = true ->
  loop_body E (full_params q P) st tr = (Ok (Continue st'), tr') ->
  in_loop E q N P total st' tr'.
Proof.
  intros Ht Hb. destruct Hin as (hl0 & tr0 & Hf & Hr).
  exists hl0, tr0. split; [done|].
  eapply loop_reaches_trans; [exact Hr|].
  eapply reaches_turn; [done|done|apply reaches_here].
Qed.

(** What the loop does from here is what the collection of the run
    does. *)
Lemma in_loop_collect fuel r tr' :
  paging_loop E fuel N total (full_params q P) st tr = (r, tr') ->
  r <> OutOfFuel ->
  collect (loop_fuel N) E q N P [] = (r, tr').
Proof.
  intros Hl Hr. destruct Hin as (hl0 & tr0 & Hf & Hreach).
  destruct (loop_reaches_paging_loop _ _ _ _ _ _ _ _ Hreach _ _ _ Hl Hr)
    as [fuel0 H0].
  unfold collect. erewrite bind_ok by exact Hf. simpl.
  rewrite <- H0. apply paging_loop_fuel_irrelevant.
  - by apply paging_loop_entry_terminates.
  - by rewrite H0.
Qed.

(** The loop raises: so does the run, after the log record of line 225
    and without reaching the save step. *)
Lemma in_loop_raise path fuel e tr' :
  P <= 2000 ->
  paging_loop E fuel N total (full_params q P) st tr = (Raise e, tr') ->
  run (harvest_highlights E q (Some path) N P) =
    (Raise e, tr' ++ [EvLog ERROR (MsgHarvestFailed e)]).
Proof.
  intros HP Hl. unfold run, harvest_highlights.
  rewrite harvest_with_full by done.
  erewrite try_except_raise; [reflexivity|].
  erewrite bind_raise; [reflexivity|]. by eapply in_loop_collect.
Qed.

(** The loop ends: the run goes on with the save step. *)
Lemma in_loop_done path fuel st' tr' :
  P <= 2000 ->
  paging_loop E fuel N total (full_params q P) st tr = (Ok st', tr') ->
  run (harvest_highlights E q (Some path) N P) =
    try_except
      (save_results E path (cur_highlights st') (cur_timeouts st'))
      (fun e => log ERROR (MsgHarvestFailed e) >> raise e) tr'.
Proof.
  intros HP Hl. unfold run, harvest_highlights.
  rewrite harvest_with_full by done.
  unfold try_except at 1. unfold bind at 1.
  erewrite in_loop_collect by done. reflexivity.
Qed.
End InLoop.

(** The save step when the disk works. *)
Lemma save_results_ok E path hl c tr :
  mkdir_fails E path = None -> write_fails E path = None ->
  save_results E path hl c tr =
    (Ok tt,
     tr ++ [EvMkdir path; EvWrite path (JsonDump 4 hl);
            EvLog INFO (MsgSaved path)] ++
           (if c >? 0 then [EvLog WARNING (MsgSavedPartial c)] else [])).
Proof.
  intros Hm Hw. unfold save_results, mkdir_parents, dump_json.
  rewrite Hm, Hw. destruct (c >? 0); run_monad.
  - by rewrite <- !app_assoc.
  - by rewrite <- !app_assoc.
Qed.

(** The save step when the directories cannot be made. *)
Lemma save_results_mkdir_fails E path hl c tr e :
  mkdir_fails E path = Some e ->
  save_results E path hl c tr =
    (Raise e, tr ++ (if is_IOError e then [EvLog ERROR (MsgSaveFailed e)]
                     else [])).
Proof.
  intros Hm. unfold save_results, mkdir_parents, dump_json. rewrite Hm.
  destruct (is_IOError e) eqn:He; run_monad; rewrite He; simpl;
    [done|by rewrite app_nil_r].
Qed.

(** The save step when the file cannot be written. *)
Lemma save_results_write_fails E path hl c tr e :
  mkdir_fails E path = None -> write_fails E path = Some e ->
  save_results E path hl c tr =
    (Raise e, tr ++ EvMkdir path ::
                (if is_IOError e then [EvLog ERROR (MsgSaveFailed e)]
                 else [])).
Proof.
  intros Hm Hw. unfold save_results, mkdir_parents, dump_json.
  rewrite Hm, Hw.
  destruct (is_IOError e) eqn:He; run_monad; rewrite He; simpl;
    by rewrite <- ?app_assoc.
Qed.

Lemma scripted_env_token_ok total k after : token_ok (scripted_env total k after).
Proof. exists "0123456789abcdef". reflexivity. Qed.

Lemma healthy_env_token_ok total : token_ok (healthy_env total).
Proof. exists "0123456789abcdef". reflexivity. Qed.

(** C8. A page size above 2000 makes [harvest_highlights] raise the
    ValueError of line 81 with the trace untouched, in either mode: no
    request is sent (nor anything logged, slept or written).  A page size
    of at most 2000 passes the check: the run goes on to line 116, whose
    log record is the first thing it appends. *)
Theorem page_size_guard E q save N P tr :
  (2000 < P ->
   harvest_highlights E q save N P tr =
     (Raise (ValueError "max_num_rows cannot exceed 2000"), tr) /\
   requests (snd (harvest_highlights E q save N P tr)) = requests tr) /\
  (P <= 2000 ->
   exists evs,
     snd (harvest_highlights E q save N P tr) =
       tr ++ EvLog INFO MsgFirstPage :: evs).
Proof.
  split.
  - intros HP. unfold harvest_highlights, harvest_with.
    replace (P >? 2000) with true by lia. done.
  - intros HP. unfold harvest_highlights.
    rewrite harvest_with_guard_passed by done. cbv zeta.
    revert tr. apply starts_with_try; [|intros e; unfold log; emits_tac].
    apply starts_with_bind; [intros tr; by exists []|]. intros _.
    apply emits_bind; [eapply emits_any, emits_make_solr_query|]. intros r.
    apply emits_bind; [apply emits_getitem|]. intros resp.
    apply emits_bind; [apply emits_getitem|]. intros total.
    apply emits_bind; [by apply emits_emit|]. intros _.
    destruct save as [path|]; [|unfold log; emits_tac].
    apply emits_bind; [apply emits_lift|]. intros hl.
    apply emits_bind; [eapply emits_any, emits_paging_loop|]. intros st.
    apply emits_save_results.
Qed.

Lemma page_size_guard_witness :
  (harvest_highlights (healthy_env 10) "q" None 3 2001 [] =
     (Raise (ValueError "max_num_rows cannot exceed 2000"), []) /\
   requests (snd (harvest_highlights (healthy_env 10) "q" None 3 2001 [])) = []) /\
  (exists evs,
     snd (harvest_highlights (healthy_env 10) "q" (Some "out.json") 3 2000 []) =
       [] ++ EvLog INFO MsgFirstPage :: evs).
Proof.
  split.
  - apply (proj1 (page_size_guard (healthy_env 10) "q" None 3 2001 [])). lia.
  - apply (proj2 (page_size_guard (healthy_env 10) "q" (Some "out.json")
                    3 2000 [])). lia.
Defined.

(* --------------------------------------------------------------------- *)
(*  H. Failures of page requests                                          *)
(* --------------------------------------------------------------------- *)

Lemma make_solr_query_trace E qp tr :
  exists evs,
    snd (_make_solr_query E qp tr) = tr ++ evs /\
    Forall (transport_of qp) evs /\ (length (requests evs) <= 5)%nat.
Proof.
  destruct (emits_make_solr_query E qp tr) as (evs & E1 & F1).
  destruct (make_solr_query_at_most_five E qp tr) as (evs' & E2 & L2).
  rewrite E1 in E2. apply app_inv_head in E2. subst evs'. eauto.
Qed.

Lemma turn_request_not_file E qp st tr r tr1 :
  turn_request E qp st tr = (r, tr1) ->
  writes tr = [] -> mkdirs tr = [] ->
  writes tr1 = [] /\ mkdirs tr1 = [].
Proof.
  unfold turn_request. intros Hq Hw Hm.
  destruct (make_solr_query_trace E (turn_params qp st)
              (tr ++ [EvLog INFO (MsgPage (cur_page st))]))
    as (evs & E1 & F1 & _).
  rewrite Hq in E1. simpl in E1. subst tr1.
  assert (Forall not_file evs) as F
      by (eapply Forall_impl; [exact F1|apply transport_not_file]).
  rewrite !writes_app, !mkdirs_app, Hw, Hm.
  rewrite (not_file_writes evs), (not_file_mkdirs evs) by done. done.
Qed.

(** C4. The run of a full harvest is at the loop test after any number of
    turns, the test holds, and the page request of the turn raises an
    exception that is not a timeout (an HTTPError for an error status, a
    ConnectionError, the ValueError of a 401 answer, ...).  Then the run
    raises that exception to the caller; after the failed request it only
    appends log records (line 205 for the requests exceptions, line 225):
    no further request, no sleep, no directory made and no file written. *)
Theorem hard_failure_aborts_harvest E q path N P total st tr e tr1 :
  P <= 2000 ->
  in_loop E q N P total st tr ->
  loop_test N total (full_params q P) st = true ->
  turn_request E (full_params q P) st tr = (Raise e, tr1) ->
  is_Timeout e = false ->
  let r := run (harvest_highlights E q (Some path) N P) in
  fst r = Raise e /\
  snd r = tr1 ++ (if is_RequestException e || is_HTTPError e
                  then [EvLog ERROR (MsgPageFailed (cur_page st) e)]
                  else [])
              ++ [EvLog ERROR (MsgHarvestFailed e)] /\
  writes (snd r) = [] /\ mkdirs (snd r) = [] /\
  requests (snd r) = requests tr1 /\ sleeps (snd r) = sleeps tr1.
Proof.
  intros HP Hin Ht Hq He r.
  assert (Hrun : r = (Raise e,
            (tr1 ++ (if is_RequestException e || is_HTTPError e
                     then [EvLog ERROR (MsgPageFailed (cur_page st) e)]
                     else []))
                 ++ [EvLog ERROR (MsgHarvestFailed e)])).
  { subst r. eapply (in_loop_raise _ _ _ _ _ _ _ Hin path 1%nat); [done|].
    apply paging_loop_raise; [done|]. by apply loop_body_hard_failure. }
  destruct (in_loop_not_file _ _ _ _ _ _ _ Hin) as [Hw Hm].
  destruct (turn_request_not_file _ _ _ _ _ _ Hq Hw Hm) as [Hw1 Hm1].
  rewrite Hrun. simpl. rewrite <- app_assoc. split; [done|]. split; [done|].
  rewrite !writes_app, !mkdirs_app, !requests_app, !sleeps_app, Hw1, Hm1.
  destruct (_ || _); simpl; by rewrite ?app_nil_r.
Qed.

(** A service that answers the first request and then drops every
    connection: the failure comes at the first turn of the loop. *)
Lemma hard_failure_aborts_harvest_witness :
  let r := run (harvest_highlights
                  (scripted_env 1000 1 (GetRaises ConnectionError))
                  "q" (Some "out.json") 5 100) in
  fst r = Raise ConnectionError /\ writes (snd r) = [] /\ mkdirs (snd r) = [].
Proof.
  intros r.
  destruct (hard_failure_aborts_harvest
              (scripted_env 1000 1 (GetRaises ConnectionError))
              "q" "out.json" 5 100 1000
              (loop_entry (page_highlighting_with_sources 1000 "A"))
              first_page_trace ConnectionError first_failure_trace)
    as (H1 & _ & H3 & H4 & _).
  - lia.
  - exists (page_highlighting_with_sources 1000 "A"), first_page_trace.
    split; [vm_compute; reflexivity|apply reaches_here].
  - vm_compute. reflexivity.
  - vm_compute. reflexivity.
  - reflexivity.
  - split; [exact H1|]. split; [exact H3|exact H4].
Defined.

(** C10. When the first page request of a full harvest raises a timeout
    (the retrying transport has given up), the run raises that timeout to
    the caller after the log record of line 225 and nothing else: the
    counter of consecutive timeouts is never consulted, no request at
    another offset is sent, no directory is made and no file written. *)
Theorem first_request_timeout_is_fatal E q path N P e tr1 :
  P <= 2000 ->
  _make_solr_query E (full_params q P) [EvLog INFO MsgFirstPage]
    = (Raise e, tr1) ->
  is_Timeout e = true ->
  let r := run (harvest_highlights E q (Some path) N P) in
  r = (Raise e, tr1 ++ [EvLog ERROR (MsgHarvestFailed e)]) /\
  writes (snd r) = [] /\ mkdirs (snd r) = [] /\
  Forall (eq (full_params q P)) (requests (snd r)) /\
  (length (requests (snd r)) <= 5)%nat.
Proof.
  intros HP Hq He r.
  assert (Hrun : r = (Raise e, tr1 ++ [EvLog ERROR (MsgHarvestFailed e)])).
  { subst r. unfold run, harvest_highlights.
    by apply harvest_first_request_raises. }
  destruct (make_solr_query_trace E (full_params q P)
              [EvLog INFO MsgFirstPage]) as (evs & E1 & F1 & L1).
  rewrite Hq in E1. simpl in E1. subst tr1.
  assert (Forall not_file evs) as F
      by (eapply Forall_impl; [exact F1|apply transport_not_file]).
  rewrite Hrun. simpl. split; [done|].
  rewrite !writes_app, !mkdirs_app, !requests_app.
  rewrite (not_file_writes evs), (not_file_mkdirs evs) by done. simpl.
  rewrite app_nil_r. split; [done|]. split; [done|].
  split; [by apply transport_requests|done].
Qed.

Lemma first_request_timeout_is_fatal_witness :
  let r := run (harvest_highlights
                  (scripted_env 1000 0 (GetRaises ReadTimeout))
                  "q" (Some "out.json") 5 100) in
  fst r = Raise ReadTimeout /\ writes (snd r) = [] /\
  (length (requests (snd r)) <= 5)%nat.
Proof.
  intros r.
  edestruct (first_request_timeout_is_fatal
               (scripted_env 1000 0 (GetRaises ReadTimeout))
               "q" "out.json" 5 100)
    as (H1 & H2 & _ & _ & H5).
  - lia.
  - vm_compute. reflexivity.
  - reflexivity.
  - subst r. rewrite H1 at 1. split; [reflexivity|]. split; [exact H2|exact H5].
Defined.

(* --------------------------------------------------------------------- *)
(*  I. The consecutive-timeout policy                                     *)
(* --------------------------------------------------------------------- *)

(** A page request that raises a timeout did send a request: the token was
    usable. *)
Lemma timeout_needs_token E qp tr e tr1 :
  _make_solr_query E qp tr = (Raise e, tr1) -> is_Timeout e = true ->
  token_ok E.
Proof.
  intros Hq He. destruct (get_api_token_cases E) as [|(e' & _ & Htok)]; [done|].
  destruct (make_solr_query_no_token E qp tr) as (e2 & evs & H & _ & _ & Hn).
  { intros [tok Hok]. specialize (Htok []). rewrite Hok in Htok. done. }
  rewrite Hq in H. inversion H; subst.
  unfold retry_if_exception_type in Hn. rewrite He in Hn. done.
Qed.

(** Whatever a turn does, it does it after its page request. *)
Lemma loop_body_extends_request E qp st tr :
  exists evs,
    snd (loop_body E qp st tr) = snd (turn_request E qp st tr) ++ evs.
Proof.
  destruct (turn_request E qp st tr) as [[b|e|] tr1] eqn:Hq.
  - destruct (merge_page (cur_highlights st) b) as [hl|e|] eqn:Hm.
    + erewrite loop_body_success by done. eauto.
    + erewrite loop_body_key_error by done. exists []. by rewrite app_nil_r.
    + pose proof (merge_page_key_error_only (cur_highlights st) b) as Hk.
      by rewrite Hm in Hk.
  - destruct (is_Timeout e) eqn:He.
    + destruct (Z_lt_ge_dec (cur_timeouts st + 1) 3).
      * erewrite loop_body_timeout_retry by done. eauto.
      * erewrite loop_body_timeout_abort by (done || lia). eauto.
    + erewrite loop_body_hard_failure by done. eauto.
  - by apply turn_request_fuel_free in Hq.
Qed.

(** With a usable token a turn logs its page index and sends the GET for
    the offset of its page index, before anything else. *)
Lemma loop_body_first_events E qp st tr :
  token_ok E ->
  exists evs,
    snd (loop_body E qp st tr) =
      tr ++ EvLog INFO (MsgPage (cur_page st))
         :: EvGet (turn_params qp st) :: evs.
Proof.
  intros Htok. destruct (loop_body_extends_request E qp st tr) as (evs & ->).
  unfold turn_request.
  destruct (make_solr_query_starts_with_get E (turn_params qp st) Htok
              (tr ++ [EvLog INFO (MsgPage (cur_page st))])) as (evs1 & ->).
  exists (evs1 ++ evs). by rewrite <- !app_assoc.
Qed.

(** The loop test only looks at the page index. *)
Lemma loop_test_page N total qp st st' :
  cur_page st' = cur_page st ->
  loop_test N total qp st' = loop_test N total qp st.
Proof. unfold loop_test. by intros ->. Qed.

(** C2. The run of a full harvest is at the loop test and the test holds.
    The counter of consecutive timeouts is then 0, 1 or 2.  If the page
    request of the turn succeeds (and the page is merged), the run is back
    at the test with the counter at 0 and the next page index.  If it
    raises a timeout, the counter goes up by one; below 3, the run logs,
    sleeps 5 times the counter and is back at the test with the same page
    index and accumulator, the test still holds, and the next turn sends
    the GET of the same offset; at 3, the loop is left, and (the disk
    working) the run returns normally having written the accumulator as it
    stood before the turn to the destination path, once. *)
Theorem consecutive_timeout_policy E q path N P total st tr :
  P <= 2000 ->
  in_loop E q N P total st tr ->
  loop_test N total (full_params q P) st = true ->
  let qp := full_params q P in
  0 <= cur_timeouts st < 3 /\
  (forall b tr1 hl,
     turn_request E qp st tr = (Ok b, tr1) ->
     merge_page (cur_highlights st) b = Ok hl ->
     in_loop E q N P total
       {| cur_page := cur_page st + 1; cur_timeouts := 0;
          cur_highlights := hl |}
       (tr1 ++ [EvLog INFO (MsgWaiting 2); EvSleep 2])) /\
  (forall e tr1,
     turn_request E qp st tr = (Raise e, tr1) -> is_Timeout e = true ->
     let c := cur_timeouts st + 1 in
     let warn := EvLog WARNING (MsgTimeoutOnPage (cur_page st) c) in
     (c < 3 ->
      let st' := {| cur_page := cur_page st; cur_timeouts := c;
                    cur_highlights := cur_highlights st |} in
      let tr' := tr1 ++ [warn; EvLog INFO (MsgWaitingAfterTimeout (5 * c));
                         EvSleep (5 * c)] in
      in_loop E q N P total st' tr' /\
      loop_test N total qp st' = true /\
      exists evs,
        snd (loop_body E qp st' tr') =
          tr' ++ EvLog INFO (MsgPage (cur_page st))
              :: EvGet (turn_params qp st) :: evs) /\
     (c = 3 ->
      writes tr1 = [] /\
      (mkdir_fails E path = None -> write_fails E path = None ->
       run (harvest_highlights E q (Some path) N P) =
         (Ok tt,
          tr1 ++ [warn; EvLog ERROR MsgTooManyTimeouts;
                  EvMkdir path;
                  EvWrite path (JsonDump 4 (cur_highlights st));
                  EvLog INFO (MsgSaved path);
                  EvLog WARNING (MsgSavedPartial 3)])))).
Proof.
  intros HP Hin Ht qp. split; [by eapply in_loop_timeouts|]. split.
  - intros b tr1 hl Hq Hm. eapply in_loop_turn; [exact Hin|exact Ht|].
    eapply loop_body_success; [exact Hq|exact Hm].
  - intros e tr1 Hq He c warn. split.
    + intros Hc st' tr'.
      assert (Hb : loop_body E qp st tr = (Ok (Continue st'), tr'))
        by (eapply loop_body_timeout_retry; [exact Hq|exact He|exact Hc]).
      split; [eapply in_loop_turn; [exact Hin|exact Ht|exact Hb]|].
      split; [by rewrite (loop_test_page _ _ _ st)|].
      apply (loop_body_first_events E qp st' tr').
      eapply timeout_needs_token; [exact Hq|exact He].
    + intros Hc.
      destruct (in_loop_not_file _ _ _ _ _ _ _ Hin) as [Hw Hm].
      destruct (turn_request_not_file _ _ _ _ _ _ Hq Hw Hm) as [Hw1 _].
      split; [done|]. intros Hmk Hwr.
      assert (Hl : paging_loop E 1 N total qp st tr =
                   (Ok {| cur_page := cur_page st; cur_timeouts := c;
                          cur_highlights := cur_highlights st |},
                    tr1 ++ [warn; EvLog ERROR MsgTooManyTimeouts])).
      { apply paging_loop_break; [exact Ht|].
        eapply loop_body_timeout_abort; [exact Hq|exact He|]. fold c. lia. }
      rewrite (in_loop_done _ _ _ _ _ _ _ Hin path _ _ _ HP Hl).
      erewrite try_except_ok; [reflexivity|].
      rewrite save_results_ok by done. cbn [cur_timeouts cur_highlights].
      rewrite Hc. simpl. by rewrite <- app_assoc.
Qed.

(** A service that answers the first request and then times out for good:
    the first turn of the loop runs into the timeout and comes back to the
    test with the counter at 1, after a sleep of 5 seconds. *)
Lemma consecutive_timeout_policy_witness :
  let E := scripted_env 1000 1 (GetRaises ReadTimeout) in
  exists hl tr,
    in_loop E "q" 5 100 1000
      {| cur_page := 1; cur_timeouts := 1; cur_highlights := hl |} tr.
Proof.
  intros E.
  destruct (consecutive_timeout_policy E "q" "out.json" 5 100 1000
              (loop_entry (page_highlighting_with_sources 1000 "A"))
              first_page_trace)
    as (_ & _ & T1).
  - lia.
  - exists (page_highlighting_with_sources 1000 "A"), first_page_trace.
    split; [vm_compute; reflexivity|apply reaches_here].
  - vm_compute. reflexivity.
  - destruct (T1 ReadTimeout first_timeout_trace) as (R1 & _).
    + vm_compute. reflexivity.
    + reflexivity.
    + destruct R1 as (Hin1 & _ & _); [vm_compute; reflexivity|].
      eexists. eexists. exact Hin1.
Defined.

(* --------------------------------------------------------------------- *)
(*  J. Termination of the loop, and the save step                         *)
(* --------------------------------------------------------------------- *)

(** The loop is left by its test with the counter at 0, or by [break] with
    the counter at 3. *)
Lemma paging_loop_exit_counter E N total qp fuel st tr st' tr' :
  0 <= cur_timeouts st < 3 ->
  cur_timeouts st = 0 \/ loop_test N total qp st = true ->
  paging_loop E fuel N total qp st tr = (Ok st', tr') ->
  cur_timeouts st' = 0 \/ cur_timeouts st' = 3.
Proof.
  revert st tr. induction fuel as [|fuel IH]; intros st tr Hc Hinv H.
  - destruct (loop_test N total qp st) eqn:Ht; [simpl in H; by rewrite Ht in H|].
    rewrite paging_loop_exit in H by done. inversion H; subst.
    destruct Hinv; [by left|done].
  - destruct (loop_test N total qp st) eqn:Ht.
    + destruct (loop_body E qp st tr) as [[[st1|st1]|e|] tr1] eqn:Hb.
      * erewrite paging_loop_continue in H by done.
        pose proof (loop_body_continue _ _ _ _ _ _ Hb) as Hs.
        eapply IH; [|  |exact H]; [lia|].
        destruct Hs as [[_ ?]|(Hp & _)]; [by left|right].
        by rewrite (loop_test_page _ _ _ st).
      * erewrite paging_loop_break in H by done. inversion H; subst.
        apply loop_body_break in Hb. right. lia.
      * erewrite paging_loop_raise in H by done. done.
      * rewrite paging_loop_S, Ht in H.
        erewrite bind_out_of_fuel in H by done. done.
    + rewrite paging_loop_exit in H by done. inversion H; subst.
      destruct Hinv; [by left|done].
Qed.

Lemma collect_enough_fuel E q N P fuel tr :
  (loop_fuel N <= fuel)%nat ->
  collect fuel E q N P tr = collect (loop_fuel N) E q N P tr.
Proof.
  intros Hf. unfold collect, bind.
  destruct (first_phase E q P tr) as [[[total hl]|e|] tr0]; try done.
  apply paging_loop_fuel_irrelevant; by apply paging_loop_entry_terminates.
Qed.

Lemma fuel_free_collect E q N P fuel :
  (loop_fuel N <= fuel)%nat -> fuel_free (collect fuel E q N P).
Proof.
  intros Hf tr. unfold collect, bind.
  pose proof (fuel_free_first_phase E q P tr) as H0.
  destruct (first_phase E q P tr) as [[[total hl]|e|] tr0]; try done.
  by apply paging_loop_entry_terminates.
Qed.

(** Fuel beyond [loop_fuel] changes nothing to a run. *)
Lemma harvest_with_enough_fuel fuel E q save N P tr :
  (loop_fuel N <= fuel)%nat ->
  harvest_with fuel E q save N P tr = harvest_highlights E q save N P tr.
Proof.
  intros Hf. unfold harvest_highlights.
  destruct (Z_le_gt_dec P 2000) as [HP|HP].
  - destruct save as [path|].
    + rewrite !harvest_with_full by done. unfold try_except, bind.
      by rewrite collect_enough_fuel.
    + by rewrite !harvest_with_guard_passed.
  - unfold harvest_with. by replace (P >? 2000) with true by lia.
Qed.

(** A run never runs out of fuel. *)
Lemma fuel_free_harvest_highlights E q save N P :
  fuel_free (harvest_highlights E q save N P).
Proof.
  unfold harvest_highlights. destruct (Z_le_gt_dec P 2000) as [HP|HP].
  - destruct save as [path|].
    + intros tr. rewrite harvest_with_full by done. revert tr.
      apply fuel_free_try; [|intros e; unfold log; fuel_free_tac].
      apply fuel_free_bind; [by apply fuel_free_collect|].
      intros st. apply fuel_free_save_results.
    + rewrite harvest_with_guard_passed by done. cbv zeta. unfold log.
      apply fuel_free_try; [|intros e; fuel_free_tac].
      apply fuel_free_bind; [apply fuel_free_emit|]. intros _.
      apply fuel_free_bind; [apply fuel_free_make_solr_query|]. intros r.
      fuel_free_tac.
  - unfold harvest_with. replace (P >? 2000) with true by lia.
    apply fuel_free_raise.
Qed.

(** C7. The paging loop always ends.  A run of [harvest_highlights] never
    runs out of fuel, whatever the service answers, and fuel beyond
    [loop_fuel N] changes nothing.  The loop goes on only while its test
    holds, and the test is: page index below the page-count ceiling and
    page index times page size below the total.  With the test holding, a
    turn ends the loop by [break] exactly when the counter of consecutive
    timeouts reaches 3, or ends it by raising, or comes back to the test
    with the counter below 3 and a strictly smaller [loop_measure]: there
    is no other way on. *)
Theorem paging_loop_always_terminates E q save N P tr :
  fst (harvest_highlights E q save N P tr) <> OutOfFuel /\
  (forall fuel, (loop_fuel N <= fuel)%nat ->
     harvest_with fuel E q save N P tr = harvest_highlights E q save N P tr) /\
  (forall total qp st,
     loop_test N total qp st = true <->
     cur_page st < N /\ cur_page st * qp_rows qp < total) /\
  (forall fuel total qp st tr0,
     loop_test N total qp st = false ->
     paging_loop E fuel N total qp st tr0 = (Ok st, tr0)) /\
  (forall total qp st tr0,
     0 <= cur_timeouts st < 3 ->
     loop_test N total qp st = true ->
     match loop_body E qp st tr0 with
     | (Ok (Continue st'), _) =>
         0 <= cur_timeouts st' < 3 /\
         (loop_measure N st' < loop_measure N st)%nat
     | (Ok (Break st'), _) => cur_timeouts st' = 3
     | (Raise _, _) => True
     | (OutOfFuel, _) => False
     end) /\
  (forall fuel total qp st tr0,
     0 <= cur_timeouts st < 3 ->
     (loop_measure N st <= fuel)%nat ->
     fst (paging_loop E fuel N total qp st tr0) <> OutOfFuel).
Proof.
  split; [apply fuel_free_harvest_highlights|].
  split; [intros fuel Hf; by apply harvest_with_enough_fuel|].
  split; [intros total qp st; unfold loop_test; lia|].
  split; [intros fuel total qp st tr0 Ht; by apply paging_loop_exit|].
  split; [|intros fuel total qp st tr0; apply paging_loop_terminates].
  intros total qp st tr0 Hc Ht.
  destruct (loop_body E qp st tr0) as [[[st'|st']|e|] tr1] eqn:Hb; [| |done|].
  - apply loop_body_continue in Hb. unfold loop_test in Ht.
    unfold loop_measure. lia.
  - apply loop_body_break in Hb. lia.
  - pose proof (fuel_free_loop_body E qp st tr0) as Hf. by rewrite Hb in Hf.
Qed.

Lemma paging_loop_always_terminates_witness :
  let E := scripted_env 1000 1 (GetRaises ReadTimeout) in
  fst (harvest_highlights E "q" (Some "out.json") 5 100 []) <> OutOfFuel /\
  harvest_with 100 E "q" (Some "out.json") 5 100 [] =
    harvest_highlights E "q" (Some "out.json") 5 100 [] /\
  fst (paging_loop E 12 5 1000 (full_params "q" 100) (loop_entry ∅) [])
    <> OutOfFuel.
Proof.
  intros E.
  destruct (paging_loop_always_terminates E "q" (Some "out.json") 5 100 [])
    as (H1 & H2 & _ & _ & _ & H6).
  split; [exact H1|]. split.
  - apply H2. vm_compute. lia.
  - apply H6; [simpl; lia|vm_compute; lia].
Defined.

(** C6. A full harvest whose collection of pages ended without raising
    (the loop was left by its test, counter at 0, or by the timeout abort,
    counter at 3) has written nothing so far.  If the disk works, the run
    returns normally, has made the parent directories of the destination
    once and has written the accumulator to the destination, as JSON with
    indent 4, exactly once.  If making the directories or writing the file
    raises, the run raises that exception to the caller and no file has
    been written. *)
Theorem accumulator_saved_once E q path N P st' tr' :
  P <= 2000 ->
  collect (loop_fuel N) E q N P [] = (Ok st', tr') ->
  let r := run (harvest_highlights E q (Some path) N P) in
  (cur_timeouts st' = 0 \/ cur_timeouts st' = 3) /\
  writes tr' = [] /\ mkdirs tr' = [] /\
  (mkdir_fails E path = None -> write_fails E path = None ->
   fst r = Ok tt /\
   writes (snd r) = [(path, JsonDump 4 (cur_highlights st'))] /\
   mkdirs (snd r) = [path] /\
   exists evs,
     snd r = tr' ++ EvMkdir path
                 :: EvWrite path (JsonDump 4 (cur_highlights st')) :: evs) /\
  (forall e, mkdir_fails E path = Some e ->
   fst r = Raise e /\ writes (snd r) = [] /\ mkdirs (snd r) = []) /\
  (forall e, mkdir_fails E path = None -> write_fails E path = Some e ->
   fst r = Raise e /\ writes (snd r) = [] /\ mkdirs (snd r) = [path]).
Proof.
  intros HP Hc r.
  assert (Hrun : r = try_except
                       (save_results E path (cur_highlights st')
                          (cur_timeouts st'))
                       (fun e => log ERROR (MsgHarvestFailed e) >> raise e)
                       tr').
  { subst r. unfold run, harvest_highlights. rewrite harvest_with_full by done.
    unfold try_except at 1. unfold bind at 1. by rewrite Hc. }
  destruct (emits_collect (loop_fuel N) E q N P []) as (evs0 & E0 & F0).
  rewrite Hc in E0. simpl in E0. subst tr'.
  assert (Hw : writes evs0 = []) by by apply not_file_writes.
  assert (Hm : mkdirs evs0 = []) by by apply not_file_mkdirs.
  split.
  { unfold collect in Hc. apply bind_inv in Hc.
    destruct Hc as [(th & tr0 & _ & Hl)|[(e & ? & ?)|[_ ?]]]; try done.
    eapply paging_loop_exit_counter; [| |exact Hl]; simpl; [lia|by left]. }
  split; [done|]. split; [done|]. split; [|split].
  - intros Hmk Hwr. rewrite Hrun.
    erewrite try_except_ok by (by apply save_results_ok). simpl.
    rewrite !writes_app, !mkdirs_app, Hw, Hm.
    destruct (cur_timeouts st' >? 0); simpl; eauto.
  - intros e Hmk. rewrite Hrun.
    erewrite try_except_raise by (by apply save_results_mkdir_fails).
    run_monad. rewrite !writes_app, !mkdirs_app, Hw, Hm.
    destruct (is_IOError e); done.
  - intros e Hmk Hwr. rewrite Hrun.
    erewrite try_except_raise by (by apply save_results_write_fails).
    run_monad. rewrite !writes_app, !mkdirs_app, Hw, Hm.
    destruct (is_IOError e); done.
Qed.

(** Two pages of a healthy service, saved on a working disk. *)
Lemma accumulator_saved_once_witness :
  let E := healthy_env 150 in
  let r := run (harvest_highlights E "q" (Some "out.json") 5 100) in
  fst r = Ok tt /\ length (writes (snd r)) = 1%nat /\
  mkdirs (snd r) = ["out.json"].
Proof.
  intros E r.
  destruct (is_ok_run (collect (loop_fuel 5) E "q" 5 100 []))
    as (st' & tr' & Hc); [vm_compute; reflexivity|].
  destruct (accumulator_saved_once E "q" "out.json" 5 100 st' tr')
    as (_ & _ & _ & Hok & _); [lia|exact Hc|].
  destruct Hok as (H1 & H2 & H3 & _); [reflexivity|reflexivity|].
  split; [exact H1|]. split; [|exact H3].
  exact (f_equal length H2).
Defined.

(* --------------------------------------------------------------------- *)
(*  K. The dry run                                                        *)
(* --------------------------------------------------------------------- *)

(** The run of a dry run, case by case. *)
Lemma dry_run_run E q N P :
  P <= 2000 ->
  run (harvest_highlights E q None N P) =
    match _make_solr_query E (dry_run_params q) [EvLog INFO MsgFirstPage] with
    | (Ok b, tr1) =>
        match response b with
        | Some resp =>
            match numFound resp with
            | Some total =>
                (Ok tt, tr1 ++ [EvLog INFO (MsgFound total);
                                EvLog INFO MsgNoOutput])
            | None =>
                (Raise (KeyError "numFound"),
                 tr1 ++ [EvLog ERROR (MsgHarvestFailed (KeyError "numFound"))])
            end
        | None =>
            (Raise (KeyError "response"),
             tr1 ++ [EvLog ERROR (MsgHarvestFailed (KeyError "response"))])
        end
    | (Raise e, tr1) => (Raise e, tr1 ++ [EvLog ERROR (MsgHarvestFailed e)])
    | (OutOfFuel, tr1) => (OutOfFuel, tr1)
    end.
Proof.
  intros HP. unfold run, harvest_highlights.
  rewrite harvest_with_guard_passed by done. cbv zeta.
  unfold try_except. rewrite log_then. simpl app. unfold bind at 1.
  destruct (_make_solr_query E (dry_run_params q) [EvLog INFO MsgFirstPage])
    as [[b|e|] tr1]; [|reflexivity|reflexivity].
  unfold bind, getitem, log, emit, ret, raise.
  destruct (response b) as [resp|]; [|reflexivity].
  destruct (numFound resp) as [total|]; [|reflexivity].
  by rewrite <- app_assoc.
Qed.

(** C9, with the check of line 80 taken into account.  A dry run (no
    destination path) whose page size passes the check makes one page
    request and no other: the descriptor asks for 5 rows from offset 0,
    the four-field list and no highlighting; every GET of the run carries
    that descriptor (the retrying transport may send it up to five times,
    and sends it once when the first answer is good); nothing is written.
    When the request succeeds and the answer has its match count, the
    count is logged and the run returns normally; when it raises, the run
    raises the same exception after the log record of line 225. *)
Theorem dry_run_one_page_request E q N P :
  P <= 2000 ->
  let qp := dry_run_params q in
  let r := run (harvest_highlights E q None N P) in
  let first := _make_solr_query E qp [EvLog INFO MsgFirstPage] in
  (qp_rows qp = 5 /\ qp_start qp = 0 /\
   qp_fl qp = "author,title,pubyear,doi" /\ qp_hl qp = "false" /\
   qp_hl_fl qp = None) /\
  requests (snd r) = requests (snd first) /\
  Forall (eq qp) (requests (snd r)) /\
  (length (requests (snd r)) <= 5)%nat /\
  (token_ok E -> answered_ok E 0 qp -> requests (snd r) = [qp]) /\
  writes (snd r) = [] /\ mkdirs (snd r) = [] /\
  (forall b tr1 resp total,
     first = (Ok b, tr1) -> response b = Some resp ->
     numFound resp = Some total ->
     r = (Ok tt, tr1 ++ [EvLog INFO (MsgFound total);
                         EvLog INFO MsgNoOutput])) /\
  (forall e tr1,
     first = (Raise e, tr1) ->
     r = (Raise e, tr1 ++ [EvLog ERROR (MsgHarvestFailed e)])).
Proof.
  intros HP qp r first. split; [done|].
  destruct (make_solr_query_trace E qp [EvLog INFO MsgFirstPage])
    as (evs & E1 & F1 & L1). fold first in E1.
  assert (Forall not_file evs) as F
      by (eapply Forall_impl; [exact F1|apply transport_not_file]).
  pose proof (dry_run_run E q N P HP) as Hrun. fold qp first r in Hrun.
  assert (Hr : exists evs2, snd r = snd first ++ evs2 /\
                 requests evs2 = [] /\ writes evs2 = [] /\ mkdirs evs2 = []).
  { rewrite Hrun. destruct first as [[b|e|] tr1]; simpl.
    - destruct (response b) as [resp|]; [|by eexists].
      destruct (numFound resp) as [total|]; by eexists.
    - by eexists.
    - exists []. by rewrite app_nil_r. }
  destruct Hr as (evs2 & E2 & R2 & W2 & M2).
  assert (Hreq : requests (snd r) = requests evs).
  { rewrite E2, E1, !requests_app, R2. simpl. by rewrite app_nil_r. }
  split; [by rewrite Hreq, E1, requests_app|].
  split; [rewrite Hreq; by apply transport_requests|].
  split; [by rewrite Hreq|].
  split.
  { intros Htok (st & b & Hrem & Hst). rewrite E2, requests_app, R2, app_nil_r.
    subst first. erewrite make_solr_query_success by done. done. }
  split.
  { rewrite E2, E1, !writes_app, W2, (not_file_writes evs) by done. done. }
  split.
  { rewrite E2, E1, !mkdirs_app, M2, (not_file_mkdirs evs) by done. done. }
  split.
  - intros b tr1 resp total Hf Hresp Hnum. rewrite Hrun, Hf, Hresp, Hnum. done.
  - intros e tr1 Hf. rewrite Hrun, Hf. done.
Qed.

Lemma dry_run_one_page_request_witness :
  let r := run (harvest_highlights (healthy_env 1000) "q" None 100 2000) in
  requests (snd r) = [dry_run_params "q"] /\ writes (snd r) = [] /\
  r = (Ok tt, [EvLog INFO MsgFirstPage; EvGet (dry_run_params "q");
               EvLog INFO (MsgFound 1000); EvLog INFO MsgNoOutput]).
Proof.
  intros r.
  destruct (dry_run_one_page_request (healthy_env 1000) "q" 100 2000)
    as (_ & _ & _ & _ & H5 & H6 & _ & H8 & _); [lia|].
  split; [|split].
  - apply H5; [apply healthy_env_token_ok|].
    eexists. eexists. split; reflexivity.
  - exact H6.
  - refine (H8 _ [EvLog INFO MsgFirstPage; EvGet (dry_run_params "q")]
                _ 1000 _ _ _); [vm_compute; reflexivity|reflexivity..].
Defined.

(** C9 as stated fails: a dry run with a page size above 2000 raises at
    line 81 and sends no request at all, where the claim has exactly one
    request and a normal return. *)
Lemma dry_run_oversized_page_sends_nothing :
  let r := run (harvest_highlights (healthy_env 1000) "q" None 100 2001) in
  fst r = Raise (ValueError "max_num_rows cannot exceed 2000") /\
  requests (snd r) = [] /\
  ~ (length (requests (snd r)) = 1%nat /\ fst r = Ok tt).
Proof. vm_compute. split; [done|]. split; [done|]. intros [H _]. done. Qed.

(* --------------------------------------------------------------------- *)
(*  L. What the retrying transport retries                                *)
(* --------------------------------------------------------------------- *)

(** C3, at the input where the code departs from the claim.  The service
    answers every request with the same error status (4xx or 5xx, 401
    apart).  [raise_for_status] makes it an HTTPError, HTTPError is a
    RequestException, and the retry predicate of line 34 accepts every
    RequestException: the request is sent five times, with sleeps of 4, 4,
    8 and 16 seconds in between, before the HTTPError reaches the
    caller.  The claim has it propagate at the first attempt. *)
Theorem http_status_error_is_retried E qp tr code body :
  token_ok E ->
  (forall n, remote E n qp = GetReturns code body) ->
  400 <= code < 600 -> code <> 401 ->
  let r := _make_solr_query E qp tr in
  fst r = Raise (HTTPError (Some code)) /\
  requests (snd r) = requests tr ++ [qp; qp; qp; qp; qp] /\
  sleeps (snd r) = sleeps tr ++ [4; 4; 8; 16].
Proof.
  intros Htok Hrem Hc Hne r. subst r. unfold _make_solr_query.
  change (max_attempts - 1)%nat with 4%nat.
  assert (Hretry : retry_if_exception_type (HTTPError (Some code)) = true)
    by done.
  do 4 (erewrite retry_again;
        [|by apply (make_solr_query_once_status_error _ _ _ code body)
         |exact Hretry]).
  erewrite retry_exhausted
    by (by apply (make_solr_query_once_status_error _ _ _ code body)).
  simpl fst. simpl snd.
  rewrite !requests_app, !sleeps_app. simpl.
  rewrite !app_nil_r, <- !app_assoc. done.
Qed.

Lemma http_status_error_is_retried_witness :
  let E := scripted_env 1000 0 (GetReturns 404 None) in
  let r := run (_make_solr_query E (dry_run_params "q")) in
  fst r = Raise (HTTPError (Some 404)) /\
  length (requests (snd r)) = 5%nat /\
  sleeps (snd r) = [4; 4; 8; 16].
Proof.
  intros E r.
  destruct (http_status_error_is_retried E (dry_run_params "q") [] 404 None)
    as (H1 & H2 & H3).
  - apply scripted_env_token_ok.
  - reflexivity.
  - lia.
  - lia.
  - subst r. unfold run. rewrite H1, H2, H3. done.
Defined.

(* --------------------------------------------------------------------- *)
(*  M. The offsets of a harvest in which no request fails                 *)
(* --------------------------------------------------------------------- *)

Lemma ceil_div_spec total P p : 0 < P -> (p * P < total <-> p < ceil_div total P).
Proof.
  intros HP. unfold ceil_div.
  pose proof (Z.div_mod (total + P - 1) P ltac:(lia)) as Hd.
  pose proof (Z.mod_pos_bound (total + P - 1) P HP) as Hm.
  split; intros H; nia.
Qed.

Lemma remaining_test_true N total qp st :
  0 < qp_rows qp -> loop_test N total qp st = true ->
  0 < remaining N (qp_rows qp) total (cur_page st) /\
  remaining N (qp_rows qp) total (cur_page st + 1) =
    remaining N (qp_rows qp) total (cur_page st) - 1.
Proof.
  intros HP Ht. unfold loop_test in Ht. unfold remaining.
  assert (cur_page st < ceil_div total (qp_rows qp))
    by (apply ceil_div_spec; lia). lia.
Qed.

Lemma remaining_test_false N total qp st :
  0 < qp_rows qp -> loop_test N total qp st = false ->
  remaining N (qp_rows qp) total (cur_page st) = 0.
Proof.
  intros HP Ht. unfold loop_test in Ht. unfold remaining.
  destruct (Z_lt_ge_dec (cur_page st) N) as [Hlt|Hge]; [|lia].
  assert (~ cur_page st < ceil_div total (qp_rows qp))
    by (rewrite <- ceil_div_spec by lia; lia). lia.
Qed.

Lemma pages_fetched_remaining N P total :
  pages_fetched N P total = 1 + remaining N P total 1.
Proof. unfold pages_fetched, remaining. lia. Qed.

(** With the test holding, whatever the loop does comes after the turn. *)
Lemma paging_loop_extends_body E N total qp fuel st tr :
  loop_test N total qp st = true ->
  exists evs,
    snd (paging_loop E (S fuel) N total qp st tr) =
      snd (loop_body E qp st tr) ++ evs.
Proof.
  intros Ht. rewrite paging_loop_S, Ht. unfold bind.
  destruct (loop_body E qp st tr) as [[[st1|st1]|e|] tr1]; simpl;
    try (exists []; by rewrite app_nil_r).
  destruct (emits_paging_loop E N total qp fuel st1 tr1) as (evs & -> & _).
  eauto.
Qed.

Lemma requests_log tr l m : requests (tr ++ [EvLog l m]) = requests tr.
Proof. rewrite requests_app. simpl. by rewrite app_nil_r. Qed.

(** The requests of the loop when none of them fails: one per page index,
    at the offset page index times page size, until the test fails. *)
Lemma paging_loop_requests E N total qp fuel st tr st' tr' :
  token_ok E -> 0 < qp_rows qp ->
  paging_loop E fuel N total qp st tr = (Ok st', tr') ->
  no_request_failed E tr' ->
  requests tr' =
    requests tr ++
    map (fun k => set_start qp (k * qp_rows qp))
        (seqZ (cur_page st) (remaining N (qp_rows qp) total (cur_page st))).
Proof.
  intros Htok HP. revert st tr.
  induction fuel as [|fuel IH]; intros st tr H Hnf.
  - destruct (loop_test N total qp st) eqn:Ht;
      [simpl in H; by rewrite Ht in H|].
    rewrite paging_loop_exit in H by done. inversion H; subst.
    rewrite remaining_test_false, seqZ_nil by (done || lia).
    simpl. by rewrite app_nil_r.
  - destruct (loop_test N total qp st) eqn:Ht.
    2:{ rewrite paging_loop_exit in H by done. inversion H; subst.
        rewrite remaining_test_false, seqZ_nil by (done || lia).
        simpl. by rewrite app_nil_r. }
    (* the GET of this turn is in the final trace, so it was answered *)
    assert (Hans : answered_ok E (length (requests tr)) (turn_params qp st)).
    { apply Hnf.
      destruct (paging_loop_extends_body E N total qp fuel st tr Ht)
        as (evs2 & E2).
      destruct (loop_body_first_events E qp st tr Htok) as (evs1 & E1).
      rewrite H, E1 in E2. simpl in E2. subst tr'.
      rewrite !requests_app. simpl. rewrite <- app_assoc. simpl.
      by apply list_lookup_middle. }
    destruct Hans as (code & b & Hrem & Hcode).
    assert (Hq : turn_request E qp st tr =
                 (Ok b, (tr ++ [EvLog INFO (MsgPage (cur_page st))])
                        ++ [EvGet (turn_params qp st)])).
    { unfold turn_request. eapply make_solr_query_success; [done| |done].
      by rewrite requests_log. }
    destruct (merge_page (cur_highlights st) b) as [hl|e|] eqn:Hm.
    + erewrite paging_loop_continue in H;
        [|done|by eapply loop_body_success].
      apply IH in H; [|done]. rewrite H. cbn [cur_page].
      destruct (remaining_test_true N total qp st HP Ht) as [Hpos Hnext].
      rewrite (seqZ_cons (cur_page st)) by done.
      rewrite Hnext. rewrite !requests_app. simpl.
      rewrite !app_nil_r, <- app_assoc. simpl.
      unfold turn_params. repeat f_equal; lia.
    + erewrite paging_loop_raise in H; [done|done|].
      by eapply loop_body_key_error.
    + pose proof (merge_page_key_error_only (cur_highlights st) b) as Hk.
      by rewrite Hm in Hk.
Qed.

Lemma save_results_requests E path hl c tr :
  requests (snd (save_results E path hl c tr)) = requests tr.
Proof.
  destruct (mkdir_fails E path) as [e|] eqn:Hm.
  - erewrite save_results_mkdir_fails by done. simpl.
    rewrite requests_app. destruct (is_IOError e); simpl; by rewrite app_nil_r.
  - destruct (write_fails E path) as [e|] eqn:Hw.
    + erewrite save_results_write_fails by done. simpl.
      rewrite requests_app. destruct (is_IOError e); simpl;
        by rewrite app_nil_r.
    + rewrite save_results_ok by done. simpl.
      rewrite requests_app. destruct (c >? 0); simpl; by rewrite app_nil_r.
Qed.

Lemma first_phase_first_events E q P tr :
  token_ok E ->
  exists evs,
    snd (first_phase E q P tr) =
      tr ++ EvLog INFO MsgFirstPage :: EvGet (full_params q P) :: evs.
Proof.
  intros Htok. unfold first_phase. rewrite log_then.
  destruct (make_solr_query_starts_with_get E (full_params q P) Htok
              (tr ++ [EvLog INFO MsgFirstPage])) as (evs1 & E1).
  unfold bind at 1.
  destruct (_make_solr_query _ _ _) as [[b|e|] tr1]; simpl in E1; subst tr1.
  - assert (emits any_event
              (do resp <- getitem "response" (response b);
               do total <- getitem "numFound" (numFound resp);
               log INFO (MsgFound total) >>
               do highlights <- lift (first_page_highlights b);
               ret (total, highlights))) as Hem
        by (unfold log; emits_tac).
    destruct (Hem ((tr ++ [EvLog INFO MsgFirstPage])
                   ++ EvGet (full_params q P) :: evs1)) as (evs2 & -> & _).
    exists (evs1 ++ evs2). by rewrite <- !app_assoc.
  - exists evs1. simpl. by rewrite <- !app_assoc.
  - exists evs1. simpl. by rewrite <- !app_assoc.
Qed.

Lemma first_phase_no_token E q P tr r tr' :
  ~ token_ok E -> first_phase E q P tr = (r, tr') -> exists e, r = Raise e.
Proof.
  intros Hno. unfold first_phase. rewrite log_then.
  destruct (make_solr_query_no_token E (full_params q P)
              (tr ++ [EvLog INFO MsgFirstPage]) Hno) as (e & evs & H & _).
  erewrite bind_raise by exact H. intros Hr. inversion Hr. eauto.
Qed.

(** The first phase when the first request is answered. *)
Lemma first_phase_answered E q P tr code b total hl tr0 :
  token_ok E ->
  remote E (length (requests tr)) (full_params q P)
    = GetReturns code (Some b) ->
  (400 <=? code) && (code <? 600) = false ->
  first_phase E q P tr = (Ok (total, hl), tr0) ->
  tr0 = tr ++ [EvLog INFO MsgFirstPage; EvGet (full_params q P);
               EvLog INFO (MsgFound total)].
Proof.
  intros Htok Hrem Hcode. unfold first_phase. rewrite log_then.
  erewrite bind_ok.
  2:{ eapply make_solr_query_success; [done| |done]. by rewrite requests_log. }
  unfold bind, getitem, log, emit, lift, ret, raise.
  destruct (response b) as [resp|]; [|done].
  destruct (numFound resp) as [t|]; [|done].
  destruct (first_page_highlights b) as [h|e|]; [|done|done].
  intros H. inversion H; subst. by rewrite <- !app_assoc.
Qed.

Lemma sorted_multiples P m n :
  0 < P -> StronglySorted Z.lt (map (fun k => k * P) (seqZ m n)).
Proof.
  intros HP. destruct (Z_le_gt_dec n 0) as [Hn|Hn].
  { rewrite seqZ_nil by done. constructor. }
  rewrite <- (Z2Nat.id n) by lia. generalize (Z.to_nat n) as k. clear n Hn.
  intros k. revert m. induction k as [|k IH]; intros m.
  - constructor.
  - rewrite seqZ_cons by lia. simpl map.
    replace (Z.pred (Z.of_nat (S k))) with (Z.of_nat k) by lia.
    constructor; [apply IH|].
    apply Forall_forall. intros x Hx.
    apply list_elem_of_In, in_map_iff in Hx.
    destruct Hx as (y & <- & Hy). apply list_elem_of_In, elem_of_seqZ in Hy.
    nia.
Qed.

Lemma sorted_lt_NoDup (l : list Z) : StronglySorted Z.lt l -> NoDup l.
Proof.
  induction 1 as [|x l Hs IH Hx]; constructor; [|done].
  intros Hin. rewrite Forall_forall in Hx.
  apply Hx in Hin. lia.
Qed.

Lemma healthy_env_no_request_failed total tr :
  no_request_failed (healthy_env total) tr.
Proof. intros n qp _. eexists. eexists. split; reflexivity. Qed.

(** C1, for a page size of at least 1.  A full harvest with page size P,
    1 <= P <= 2000, and page-count ceiling N returns normally, and every
    GET of its trace was answered with a success status and a JSON body.
    Then the 'start' offsets of its GETs are k * P for k = 0, 1, ...,
    K - 1, where K = max(1, min(N, ceil(total / P))) and [total] is the
    match count logged after the first answer: the first offset is 0, each
    next one is the previous plus P, the offsets are strictly increasing
    and without duplicates; K is N when N >= 1 and (N - 1) * P < total. *)
Theorem offsets_are_multiples_of_page_size E q path N P tr :
  1 <= P <= 2000 ->
  run (harvest_highlights E q (Some path) N P) = (Ok tt, tr) ->
  no_request_failed E tr ->
  exists total,
    In (EvLog INFO (MsgFound total)) tr /\
    offsets tr = map (fun k => k * P) (seqZ 0 (pages_fetched N P total)) /\
    head (offsets tr) = Some 0 /\
    (forall i o o', offsets tr !! i = Some o ->
                    offsets tr !! S i = Some o' -> o' = o + P) /\
    StronglySorted Z.lt (offsets tr) /\
    NoDup (offsets tr) /\
    1 <= pages_fetched N P total /\
    (1 <= N -> pages_fetched N P total <= N) /\
    (1 <= N -> (N - 1) * P < total -> pages_fetched N P total = N).
Proof.
  intros HP Hrun Hnf.
  unfold run, harvest_highlights in Hrun.
  rewrite harvest_with_full in Hrun by lia.
  (* the collection of the pages returned, then the save step did *)
  unfold try_except in Hrun. unfold bind at 1 in Hrun.
  destruct (collect (loop_fuel N) E q N P []) as [[st'|e|] tr'] eqn:Hc;
    [|done|done].
  assert (Hreq : requests tr = requests tr').
  { pose proof (save_results_requests E path (cur_highlights st')
                  (cur_timeouts st') tr') as Hs.
    destruct (save_results E path (cur_highlights st') (cur_timeouts st') tr')
      as [[[]|e|] tr2]; [|done|done].
    inversion Hrun; subst. exact Hs. }
  assert (Hnf' : no_request_failed E tr')
    by (intros n qp Hl; apply Hnf; by rewrite Hreq).
  unfold collect in Hc. apply bind_inv in Hc.
  destruct Hc as [([total hl0] & tr0 & Hf & Hl)|[(e & ? & ?)|[_ ?]]];
    [|done|done].
  simpl in Hl.
  (* the token was usable, and the first request was answered *)
  assert (Htok : token_ok E).
  { destruct (get_api_token_cases E) as [|(e & _ & Hno)]; [done|].
    eapply first_phase_no_token in Hf as [e' ?]; [done|].
    intros [tok Hok]. specialize (Hno []). rewrite Hok in Hno. done. }
  destruct (emits_paging_loop E N total (full_params q P) (loop_fuel N)
              (loop_entry hl0) tr0) as (evs & El & _).
  rewrite Hl in El. simpl in El.
  destruct (first_phase_first_events E q P [] Htok) as (evs0 & E0).
  rewrite Hf in E0. simpl in E0.
  assert (Hans : answered_ok E 0 (full_params q P)).
  { apply Hnf'. rewrite El, E0. reflexivity. }
  destruct Hans as (code & b & Hrem & Hcode).
  pose proof (first_phase_answered E q P [] code b total hl0 tr0
                Htok Hrem Hcode Hf) as Htr0.
  simpl in Htr0.
  (* the loop *)
  pose proof (paging_loop_requests E N total (full_params q P) _ _ _ _ _
                Htok ltac:(simpl; lia) Hl Hnf') as Hloop.
  simpl in Hloop.
  assert (Hoff : offsets tr =
                 map (fun k => k * P) (seqZ 0 (pages_fetched N P total))).
  { unfold offsets. rewrite Hreq, Hloop, Htr0. simpl.
    rewrite pages_fetched_remaining.
    rewrite (seqZ_cons 0) by (unfold remaining; lia). simpl. f_equal.
    replace (Z.pred (1 + remaining N P total 1)) with (remaining N P total 1)
      by lia.
    rewrite map_map. simpl. reflexivity. }
  exists total. split.
  { destruct (emits_save_results E path (cur_highlights st')
                (cur_timeouts st') tr') as (evs2 & E2 & _).
    destruct (save_results E path (cur_highlights st') (cur_timeouts st') tr')
      as [[[]|e|] tr2]; [|done|done].
    inversion Hrun; subst tr2. simpl in E2. rewrite E2, El, Htr0.
    apply in_or_app. left. apply in_or_app. left. simpl. auto. }
  split; [exact Hoff|].
  assert (Hk : 1 <= pages_fetched N P total) by (unfold pages_fetched; lia).
  split.
  { rewrite Hoff, (seqZ_cons 0) by lia. reflexivity. }
  split.
  { intros i o o'. rewrite Hoff.
    change (map (fun k => k * P)) with (fmap (M:=list) (fun k => k * P)).
    rewrite !list_lookup_fmap. intros H1 H2.
    destruct (seqZ 0 (pages_fetched N P total) !! i) as [k|] eqn:L1; [|done].
    destruct (seqZ 0 (pages_fetched N P total) !! S i) as [k'|] eqn:L2; [|done].
    apply lookup_seqZ in L1, L2. simpl in H1, H2. simplify_eq. lia. }
  split; [rewrite Hoff; apply sorted_multiples; lia|].
  split; [rewrite Hoff; apply sorted_lt_NoDup, sorted_multiples; lia|].
  split; [done|].
  split; [unfold pages_fetched; lia|].
  intros HN Htot. unfold pages_fetched.
  assert (N - 1 < ceil_div total P) by (apply ceil_div_spec; lia). lia.
Qed.

Lemma offsets_are_multiples_of_page_size_witness :
  let E := healthy_env 250 in
  let tr := snd (run (harvest_highlights E "q" (Some "out.json") 5 100)) in
  offsets tr = [0; 100; 200] /\ StronglySorted Z.lt (offsets tr).
Proof.
  intros E tr.
  destruct (offsets_are_multiples_of_page_size E "q" "out.json" 5 100 tr)
    as (total & Hin & Hoff & _ & _ & Hs & _).
  - lia.
  - vm_compute. reflexivity.
  - apply healthy_env_no_request_failed.
  - split; [|exact Hs]. vm_compute. reflexivity.
Defined.

(** C1 as stated fails for a page size of 0: the check of line 80 lets it
    through, the service answers every request (with no rows), the loop
    test [page * 0 < total] holds on every turn, and the same offset 0 is
    sent once per page index: the offsets are not strictly increasing and
    not free of duplicates. *)
Lemma zero_page_size_repeats_offset :
  let E := healthy_env 10 in
  let r := run (harvest_highlights E "q" (Some "out.json") 3 0) in
  fst r = Ok tt /\
  no_request_failed E (snd r) /\
  offsets (snd r) = [0; 0; 0] /\
  ~ StronglySorted Z.lt (offsets (snd r)) /\
  ~ NoDup (offsets (snd r)).
Proof.
  intros E r.
  split; [vm_compute; reflexivity|].
  split; [apply healthy_env_no_request_failed|].
  assert (Ho : offsets (snd r) = [0; 0; 0]) by (vm_compute; reflexivity).
  split; [exact Ho|]. rewrite Ho. split.
  - intros Hs. apply StronglySorted_inv in Hs as [_ Hf].
    apply Forall_inv in Hf. lia.
  - intros Hn. apply NoDup_cons in Hn as [Hn _]. apply Hn. left.
Qed.

(* --------------------------------------------------------------------- *)
(*  N. The accumulator                                                    *)
(* --------------------------------------------------------------------- *)

Lemma update_lookup (h hp : accumulator) id :
  update h hp !! id = match hp !! id with Some e => Some e | None => h !! id end.
Proof.
  unfold update. destruct (hp !! id) as [e|] eqn:He.
  - apply lookup_union_Some_raw. by left.
  - by apply lookup_union_r.
Qed.

Lemma last_doc_Some id ds d :
  last_doc id ds = Some d -> d ∈ ds /\ doc_id d = Some id.
Proof.
  induction ds as [|d0 ds IH]; simpl; [done|].
  destruct (last_doc id ds) as [d'|].
  - intros H. inversion H; subst. destruct IH as [? ?]; [done|].
    split; [by right|done].
  - destruct (decide (doc_id d0 = Some id)); [|done].
    intros H. inversion H; subst. split; [by left|done].
Qed.

Lemma last_doc_None id ds d :
  last_doc id ds = None -> d ∈ ds -> doc_id d <> Some id.
Proof.
  induction ds as [|d0 ds IH]; simpl; [by intros _ ?%elem_of_nil|].
  destruct (last_doc id ds) as [d'|]; [done|].
  destruct (decide (doc_id d0 = Some id)); [done|].
  intros _ [->|Hin]%elem_of_cons; [done|by apply IH].
Qed.

(** When the identifiers of a page are pairwise distinct, the last record
    with an identifier is the record with that identifier. *)
Lemma last_doc_NoDup id ds d :
  NoDup (map doc_id ds) -> d ∈ ds -> doc_id d = Some id ->
  last_doc id ds = Some d.
Proof.
  induction ds as [|d0 ds IH]; simpl; [by intros _ ?%elem_of_nil|].
  intros [Hnotin Hnd]%NoDup_cons [->|Hin]%elem_of_cons Hid.
  - destruct (last_doc id ds) as [d'|] eqn:Hl.
    + apply last_doc_Some in Hl as [Hin' Hid']. exfalso. apply Hnotin.
      rewrite Hid, <- Hid'. apply list_elem_of_In, in_map, list_elem_of_In.
      done.
    + by rewrite decide_True.
  - by rewrite IH.
Qed.

(** The "source" sub-record holds the eight fields, copied from the
    record. *)
Lemma source_of_fields d src :
  source_of d = Ok src ->
  doc_bibcode d = Some (bibcode src) /\ doc_title d = Some (title src) /\
  doc_author d = Some (author src) /\ doc_pubdate d = Some (pubdate src) /\
  doc_doctype d = Some (doctype src) /\
  doc_property d = Some (property src) /\
  doi src = dict_get (doc_doi d) /\ grant src = dict_get (doc_grant d).
Proof.
  unfold source_of.
  destruct (doc_bibcode d), (doc_title d), (doc_author d), (doc_pubdate d),
    (doc_doctype d), (doc_property d); simpl; try done.
  intros H. inversion H; subst. simpl. done.
Qed.

(** Lines 132-145 on one record. *)
Lemma add_source_Ok h d h' :
  add_source h d = Ok h' ->
  exists id src,
    doc_id d = Some id /\ source_of d = Ok src /\
    h' = <[id := <["source" := Source src]> (default ∅ (h !! id))]> h.
Proof.
  unfold add_source. destruct (doc_id d) as [id|]; simpl; [|done].
  destruct (source_of d) as [src|e|]; simpl.
  - destruct (h !! id) as [entry|] eqn:Hh.
    + rewrite Hh. intros H. inversion H.
      exists id, src. by rewrite Hh.
    + rewrite lookup_insert_eq. intros H. inversion H.
      exists id, src. by rewrite Hh, insert_insert_eq.
  - destruct (h !! id); done.
  - destruct (h !! id); done.
Qed.

(** Lines 131-145 on the records of a page: what is stored under an
    identifier afterwards. *)
Lemma add_sources_lookup ds h h' id :
  add_sources ds h = Ok h' ->
  match last_doc id ds with
  | Some d =>
      exists src, source_of d = Ok src /\
        h' !! id = Some (<["source" := Source src]> (default ∅ (h !! id)))
  | None => h' !! id = h !! id
  end.
Proof.
  revert h. induction ds as [|d ds IH]; intros h; simpl.
  - intros H. by inversion H.
  - intros H. apply and_then_inv in H as (h1 & H1 & H2).
    apply add_source_Ok in H1 as (id0 & src0 & Hid0 & Hsrc0 & ->).
    specialize (IH _ H2).
    destruct (last_doc id ds) as [d'|].
    + destruct IH as (src & Hsrc & Hl). exists src. split; [done|].
      rewrite Hl. destruct (decide (id0 = id)) as [->|Hne].
      * rewrite lookup_insert_eq. simpl. by rewrite insert_insert_eq.
      * by rewrite lookup_insert_ne.
    + destruct (decide (doc_id d = Some id)) as [Hd|Hd].
      * assert (id0 = id) as -> by congruence.
        exists src0. split; [done|]. by rewrite IH, lookup_insert_eq.
      * rewrite IH. apply lookup_insert_ne. congruence.
Qed.

(** Every record of a page that was processed has an identifier. *)
Lemma add_sources_ids ds h h' d :
  add_sources ds h = Ok h' -> d ∈ ds -> is_Some (doc_id d).
Proof.
  revert h. induction ds as [|d0 ds IH]; intros h; simpl;
    [by intros _ ?%elem_of_nil|].
  intros H. apply and_then_inv in H as (h1 & H1 & H2).
  intros [->|Hin]%elem_of_cons; [|by eapply IH].
  apply add_source_Ok in H1 as (id0 & src0 & Hid0 & _). by rewrite Hid0.
Qed.

Lemma merge_page_Ok h pg h' :
  merge_page h pg = Ok h' ->
  is_Some (highlighting pg) /\
  add_sources (page_docs pg) (update h (page_highlighting pg)) = Ok h'.
Proof.
  unfold merge_page, page_docs, page_highlighting.
  destruct (highlighting pg) as [hp|]; simpl; [|done].
  destruct (response pg) as [resp|]; simpl; [|done].
  destruct (docs resp) as [ds|]; simpl; [|done]. eauto.
Qed.

(** The first page is treated as a page merged into an empty
    accumulator. *)
Lemma first_page_highlights_merge pg :
  first_page_highlights pg = merge_page ∅ pg.
Proof.
  unfold first_page_highlights, merge_page, update.
  destruct (highlighting pg) as [hp|]; simpl; [|done].
  by rewrite (right_id_L ∅ (∪)).
Qed.

Lemma accumulate_merge_pages pages : accumulate pages = merge_pages ∅ pages.
Proof.
  destruct pages as [|pg pages]; simpl; [done|].
  by rewrite first_page_highlights_merge.
Qed.

Lemma merge_pages_app h pages1 pages2 :
  merge_pages h (pages1 ++ pages2) =
    and_then (merge_pages h pages1) (fun h1 => merge_pages h1 pages2).
Proof.
  revert h. induction pages1 as [|pg pages1 IH]; intros h; simpl; [done|].
  destruct (merge_page h pg) as [h1|e|]; simpl; [apply IH|done|done].
Qed.

(** What a merged page leaves under an identifier. *)
Lemma merge_page_lookup h pg h' id :
  merge_page h pg = Ok h' ->
  match last_doc id (page_docs pg) with
  | Some d =>
      exists src, source_of d = Ok src /\
        h' !! id =
          Some (<["source" := Source src]>
                  (default ∅ (match page_highlighting pg !! id with
                              | Some e => Some e
                              | None => h !! id
                              end)))
  | None =>
      h' !! id = match page_highlighting pg !! id with
                 | Some e => Some e
                 | None => h !! id
                 end
  end.
Proof.
  intros [_ H]%merge_page_Ok.
  pose proof (add_sources_lookup _ _ _ id H) as Hl.
  by rewrite update_lookup in Hl.
Qed.

(** A page on which an identifier does not occur leaves its entry alone. *)
Lemma merge_page_frame h pg h' id :
  merge_page h pg = Ok h' -> ~ seen_on id pg -> h' !! id = h !! id.
Proof.
  intros H Hns. pose proof (merge_page_lookup _ _ _ id H) as Hl.
  destruct (last_doc id (page_docs pg)) as [d|] eqn:Hd.
  - apply last_doc_Some in Hd. exfalso. apply Hns. right. eauto.
  - rewrite Hl. destruct (page_highlighting pg !! id) eqn:Hp; [|done].
    exfalso. apply Hns. left. by rewrite Hp.
Qed.

Lemma merge_pages_frame h pages h' id :
  merge_pages h pages = Ok h' ->
  (forall pg, pg ∈ pages -> ~ seen_on id pg) -> h' !! id = h !! id.
Proof.
  revert h. induction pages as [|pg pages IH]; intros h; simpl.
  - intros H _. by inversion H.
  - intros H Hns. apply and_then_inv in H as (h1 & H1 & H2).
    rewrite (IH _ H2) by (intros pg' ?; apply Hns; by right).
    eapply merge_page_frame; [done|]. apply Hns. by left.
Qed.

Lemma merge_page_seen h pg h' id :
  merge_page h pg = Ok h' -> is_Some (h' !! id) ->
  is_Some (h !! id) \/ seen_on id pg.
Proof.
  intros H Hs. destruct (decide (is_Some (h !! id))) as [|Hn]; [by left|].
  right. pose proof (merge_page_lookup _ _ _ id H) as Hl.
  destruct (last_doc id (page_docs pg)) as [d|] eqn:Hd.
  - apply last_doc_Some in Hd. right. eauto.
  - rewrite Hl in Hs. left.
    destruct (page_highlighting pg !! id); [done|]. done.
Qed.

Lemma merge_pages_seen h pages h' id :
  merge_pages h pages = Ok h' -> is_Some (h' !! id) ->
  is_Some (h !! id) \/ exists pg, pg ∈ pages /\ seen_on id pg.
Proof.
  revert h. induction pages as [|pg pages IH]; intros h; simpl.
  - intros H. inversion H. by left.
  - intros H Hs. apply and_then_inv in H as (h1 & H1 & H2).
    destruct (IH _ H2 Hs) as [Hh1|(pg' & Hin & Hseen)].
    + destruct (merge_page_seen _ _ _ _ H1 Hh1) as [|Hseen]; [by left|].
      right. exists pg. split; [by left|done].
    + right. exists pg'. split; [by right|done].
Qed.

(** The accumulator of a run is the accumulator of a sequence of pages. *)
Lemma loop_body_continue_accumulator E qp st tr st' tr' :
  loop_body E qp st tr = (Ok (Continue st'), tr') ->
  cur_highlights st' = cur_highlights st \/
  exists b, merge_page (cur_highlights st) b = Ok (cur_highlights st').
Proof.
  destruct (turn_request E qp st tr) as [[b|e|] tr1] eqn:Hq.
  - destruct (merge_page (cur_highlights st) b) as [hl|e|] eqn:Hm.
    + erewrite loop_body_success by done. intros H. inversion H. eauto.
    + erewrite loop_body_key_error by done. done.
    + pose proof (merge_page_key_error_only (cur_highlights st) b) as Hk.
      by rewrite Hm in Hk.
  - destruct (is_Timeout e) eqn:He.
    + destruct (Z_lt_ge_dec (cur_timeouts st + 1) 3).
      * erewrite loop_body_timeout_retry by done. intros H. inversion H.
        by left.
      * erewrite loop_body_timeout_abort by (done || lia). done.
    + erewrite loop_body_hard_failure by done. done.
  - by apply turn_request_fuel_free in Hq.
Qed.

Lemma loop_reaches_accumulator E N total qp st tr st' tr' :
  loop_reaches E N total qp st tr st' tr' ->
  forall pages,
    merge_pages ∅ pages = Ok (cur_highlights st) ->
    exists pages',
      merge_pages ∅ (pages ++ pages') = Ok (cur_highlights st').
Proof.
  induction 1 as [|st tr st1 tr1 st2 tr2 Ht Hb _ IH]; intros pages Hp.
  - exists []. by rewrite app_nil_r.
  - apply loop_body_continue_accumulator in Hb as [Heq|(b & Hm)].
    + apply IH. by rewrite Heq.
    + destruct (IH (pages ++ [b])) as (pages' & Hp').
      { rewrite merge_pages_app, Hp. simpl. by rewrite Hm. }
      exists (b :: pages'). by rewrite <- app_assoc in Hp'.
Qed.

Lemma first_phase_accumulator E q P tr total hl tr' :
  first_phase E q P tr = (Ok (total, hl), tr') ->
  exists b, first_page_highlights b = Ok hl.
Proof.
  unfold first_phase. rewrite log_then. unfold bind at 1.
  destruct (_make_solr_query _ _ _) as [[b|e|] tr1]; [|done|done].
  unfold bind, getitem, log, emit, lift, ret, raise.
  destruct (response b) as [resp|]; [|done].
  destruct (numFound resp) as [t|]; [|done].
  destruct (first_page_highlights b) as [h|e|] eqn:Hf; [|done|done].
  intros H. inversion H; subst. eauto.
Qed.

(** At every loop test of a run, the accumulator is the accumulator of
    the pages fetched so far. *)
Lemma in_loop_accumulator E q N P total st tr :
  in_loop E q N P total st tr ->
  exists pages, pages <> [] /\ accumulate pages = Ok (cur_highlights st).
Proof.
  intros (hl0 & tr0 & Hf & Hr).
  apply first_phase_accumulator in Hf as (b & Hb).
  destruct (loop_reaches_accumulator _ _ _ _ _ _ _ _ Hr [b]) as (pages' & Hp).
  { simpl. rewrite <- first_page_highlights_merge, Hb. done. }
  exists ([b] ++ pages'). split; [done|]. by rewrite accumulate_merge_pages.
Qed.

(** C5. The accumulator over any sequence of fetched pages that were all
    processed.  Its keys are identifiers, one entry each, and every key
    occurs on some fetched page.  After the last page, every record of
    that page has an entry under its identifier whose "source" sub-record
    is made of bibcode, title, author, pubdate, doctype, property, doi and
    grant of a record of that page with that identifier (the last one),
    which is the record itself when the identifiers of the page are
    pairwise distinct.  When an identifier occurs on several pages, the
    last page on which it occurs decides: its highlight entry replaces the
    earlier entry and the source of its record replaces the earlier
    source. *)
Theorem accumulator_invariants pages acc :
  accumulate pages = Ok acc ->
  NoDup (map fst (map_to_list acc)) /\
  (forall id, is_Some (acc !! id) ->
     exists pg, pg ∈ pages /\ seen_on id pg) /\
  (forall prev pg d,
     pages = prev ++ [pg] -> d ∈ page_docs pg ->
     exists id entry src,
       doc_id d = Some id /\ acc !! id = Some entry /\
       entry !! "source" = Some (Source src) /\
       (exists d', last_doc id (page_docs pg) = Some d' /\
                   source_of d' = Ok src) /\
       (NoDup (map doc_id (page_docs pg)) -> source_of d = Ok src)) /\
  (forall d src,
     source_of d = Ok src ->
     doc_bibcode d = Some (bibcode src) /\ doc_title d = Some (title src) /\
     doc_author d = Some (author src) /\ doc_pubdate d = Some (pubdate src) /\
     doc_doctype d = Some (doctype src) /\
     doc_property d = Some (property src) /\
     doi src = dict_get (doc_doi d) /\ grant src = dict_get (doc_grant d)) /\
  (forall prev pg later id entry d src,
     pages = prev ++ pg :: later ->
     (forall pg', pg' ∈ later -> ~ seen_on id pg') ->
     page_highlighting pg !! id = Some entry ->
     last_doc id (page_docs pg) = Some d -> source_of d = Ok src ->
     acc !! id = Some (<["source" := Source src]> entry)) /\
  (forall prev pg later id acc_prev,
     pages = prev ++ pg :: later ->
     (forall pg', pg' ∈ later -> ~ seen_on id pg') ->
     accumulate prev = Ok acc_prev ->
     (forall entry,
        page_highlighting pg !! id = Some entry ->
        last_doc id (page_docs pg) = None ->
        acc !! id = Some entry) /\
     (forall d src,
        page_highlighting pg !! id = None ->
        last_doc id (page_docs pg) = Some d -> source_of d = Ok src ->
        acc !! id =
          Some (<["source" := Source src]> (default ∅ (acc_prev !! id))))).
Proof.
  rewrite accumulate_merge_pages. intros Hacc.
  split; [apply NoDup_fst_map_to_list|].
  split.
  { intros id Hs. destruct (merge_pages_seen _ _ _ _ Hacc Hs) as [He|]; [|done].
    rewrite lookup_empty in He. by destruct He. }
  split.
  { intros prev pg d -> Hd. rewrite merge_pages_app in Hacc.
    apply and_then_inv in Hacc as (h1 & _ & H2). simpl in H2.
    apply and_then_inv in H2 as (h2 & Hm & H2). inversion H2; subst h2.
    pose proof (merge_page_Ok _ _ _ Hm) as [_ Hadd].
    destruct (add_sources_ids _ _ _ _ Hadd Hd) as [id Hid].
    pose proof (merge_page_lookup _ _ _ id Hm) as Hl.
    destruct (last_doc id (page_docs pg)) as [d'|] eqn:Hlast.
    - destruct Hl as (src & Hsrc & Hl). eexists id, _, src.
      split; [done|]. split; [exact Hl|].
      split; [by rewrite lookup_insert_eq|].
      split; [eauto|]. intros Hnd.
      rewrite (last_doc_NoDup id _ d Hnd Hd Hid) in Hlast. by simplify_eq.
    - by destruct (last_doc_None _ _ _ Hlast Hd). }
  split; [apply source_of_fields|].
  assert (Hsplit : forall prev pg later id,
            pages = prev ++ pg :: later ->
            (forall pg', pg' ∈ later -> ~ seen_on id pg') ->
            exists h1 h2, merge_pages ∅ prev = Ok h1 /\
                          merge_page h1 pg = Ok h2 /\
                          acc !! id = h2 !! id).
  { intros prev pg later id -> Hns. rewrite merge_pages_app in Hacc.
    apply and_then_inv in Hacc as (h1 & H1 & H2). simpl in H2.
    apply and_then_inv in H2 as (h2 & Hm & H2).
    exists h1, h2. split; [done|]. split; [done|].
    by eapply merge_pages_frame. }
  split.
  - intros prev pg later id entry d src Hp Hns He Hd Hsrc.
    destruct (Hsplit _ _ _ _ Hp Hns) as (h1 & h2 & _ & Hm & ->).
    pose proof (merge_page_lookup _ _ _ id Hm) as Hl.
    rewrite Hd, He in Hl. destruct Hl as (src' & Hsrc' & ->).
    rewrite Hsrc in Hsrc'. by inversion Hsrc'.
  - intros prev pg later id acc_prev Hp Hns Hprev.
    destruct (Hsplit _ _ _ _ Hp Hns) as (h1 & h2 & H1 & Hm & ->).
    rewrite accumulate_merge_pages, H1 in Hprev.
    inversion Hprev; subst acc_prev.
    pose proof (merge_page_lookup _ _ _ id Hm) as Hl. split.
    + intros entry He Hd. by rewrite Hd, He in Hl.
    + intros d src He Hd Hsrc. rewrite Hd, He in Hl.
      destruct Hl as (src' & Hsrc' & ->).
      rewrite Hsrc in Hsrc'. by inversion Hsrc'.
Qed.

Lemma accumulator_invariants_witness :
  let pages := [sample_page 2 ["A"; "B"]; revised_page 2 "A"] in
  exists acc src,
    accumulate pages = Ok acc /\
    source_of (revised_doc "A") = Ok src /\
    acc !! "A" =
      Some (<["source" := Source src]>
              {[ "title" := Fragments (VList [VStr "revised"]) ]}) /\
    forall id, is_Some (acc !! id) ->
      exists pg, pg ∈ pages /\ seen_on id pg.
Proof.
  intros pages.
  destruct (is_ok_inv (accumulate pages)) as [acc Hacc];
    [vm_compute; reflexivity|].
  destruct (accumulator_invariants pages acc Hacc)
    as (_ & Hkeys & _ & _ & Hlast & _).
  exists acc. eexists.
  split; [exact Hacc|]. split; [reflexivity|]. split; [|exact Hkeys].
  apply (Hlast [sample_page 2 ["A"; "B"]] (revised_page 2 "A") []
           "A" _ (revised_doc "A")).
  - reflexivity.
  - intros pg' Hin. by apply elem_of_nil in Hin.
  - vm_compute. reflexivity.
  - vm_compute. reflexivity.
  - reflexivity.
Defined.


(* ===================================================================== *)
(*  Further properties of the code                                        *)
(* ===================================================================== *)

(* --------------------------------------------------------------------- *)
(*  O. The credential                                                     *)
(* --------------------------------------------------------------------- *)





Lemma string_length_chars s :
  String.length s = length (list_ascii_of_string s).
Proof. induction s as [|c s IH]; simpl; congruence. Qed.




(* --------------------------------------------------------------------- *)
(*  P. query_solr and the retrying transport                              *)
(* --------------------------------------------------------------------- *)

(** X2. What [query_solr] hands back.  A response is returned only after
    exactly one GET, with a status outside 400-599 and a body that parses;
    so the second [.json()] of line 53 cannot fail.  An HTTPError that
    leaves [query_solr] always carries a response, whose status is not 401:
    the HTTPError built at line 92 for a body that does not parse never
    reaches the caller, and a 401 answer leaves as a ValueError.  No call
    sends more than one GET. *)
Theorem query_solr_outcomes E qp tr :
  match query_solr E qp tr with
  | (Ok resp, tr') =>
      tr' = tr ++ [EvGet qp] /\
      remote E (length (requests tr)) qp =
        GetReturns (status_code resp) (body resp) /\
      (400 <=? status_code resp) && (status_code resp <? 600) = false /\
      exists b, body resp = Some b /\
                response_json resp tr' = (Ok b, tr')
  | (Raise e, tr') =>
      e <> HTTPError None /\ e <> HTTPError (Some 401) /\
      (length (requests tr') <= S (length (requests tr)))%nat
  | (OutOfFuel, _) => False
  end.
Proof.
  destruct (get_api_token_cases E) as [[tok Htok]|(e & He & Htok)].
  - unfold query_solr. unfold bind at 1. unfold try_except at 1.
    rewrite Htok. unfold try_except at 1. unfold bind at 1.
    unfold session_get. destruct (remote E _ qp) as [e|st [b|]] eqn:Hrem.
    + destruct e as [| | | | | |[c|]| | | | |]; simpl;
        rewrite ?requests_app, ?length_app; simpl;
        try (split; [done|]; split; [done|]; lia).
      destruct (c =? 401) eqn:Hc; simpl.
      * rewrite !requests_app, !length_app. simpl.
        split; [done|]. split; [done|]. lia.
      * destruct (c =? 429); simpl; rewrite !requests_app, !length_app; simpl;
          (split; [done|]); (split; [intros [= ->]; done|lia]).
    + unfold raise_for_status, bind. simpl.
      destruct ((400 <=? st) && (st <? 600)) eqn:Hst; simpl.
      * destruct (st =? 401) eqn:Hc; simpl.
        -- rewrite !requests_app, !length_app. simpl.
           split; [done|]. split; [done|]. lia.
        -- destruct (st =? 429); simpl; rewrite !requests_app, !length_app;
             simpl; (split; [done|]); (split; [intros [= ->]; done|lia]).
      * rewrite Hst. split; [done|]. split; [done|]. split; [done|].
        exists b. done.
    + unfold raise_for_status, bind. simpl.
      destruct ((400 <=? st) && (st <? 600)) eqn:Hst; simpl.
      * destruct (st =? 401) eqn:Hc; simpl.
        -- rewrite !requests_app, !length_app. simpl.
           split; [done|]. split; [done|]. lia.
        -- destruct (st =? 429); simpl; rewrite !requests_app, !length_app;
             simpl; (split; [done|]); (split; [intros [= ->]; done|lia]).
      * rewrite !requests_app, !length_app. simpl.
        split; [done|]. split; [done|]. lia.
  - unfold query_solr. erewrite bind_raise.
    2:{ erewrite try_except_raise; [|apply Htok]. rewrite He. reflexivity. }
    rewrite requests_app. simpl. rewrite app_nil_r.
    split; [by destruct e|]. split; [by destruct e|]. lia.
Qed.

(** One attempt only sends its GET and writes log records. *)
Lemma emits_attempt (P : event -> Prop) E qp :
  P (EvGet qp) -> (forall l m, P (EvLog l m)) ->
  emits P (make_solr_query_once E qp).
Proof.
  intros Hget Hlog.
  assert (Hs : emits P (session_get E qp)).
  { intros tr. exists [EvGet qp]. unfold session_get.
    destruct (remote E _ qp); simpl; split; try done; by repeat constructor. }
  assert (Hq : emits P (query_solr E qp)).
  { unfold query_solr, raise_for_status, response_json, log.
    apply emits_bind; [apply emits_try; [apply emits_get_api_token|]|]; intros.
    - destruct (_ || _); [|apply emits_raise].
      apply emits_bind; [by apply emits_emit|]. intros; apply emits_raise.
    - apply emits_try; [apply emits_bind; [exact Hs|]|]; intros.
      + repeat first
          [ apply emits_ret | apply emits_raise
          | apply emits_emit; apply Hlog
          | apply emits_bind; [|intros]
          | apply emits_try; [|intros]
          | match goal with
            | |- emits _ (if ?b then _ else _) => destruct b
            | |- emits _ (match ?x with _ => _ end) => destruct x
            end ].
      + repeat first
          [ apply emits_ret | apply emits_raise
          | apply emits_emit; apply Hlog
          | apply emits_bind; [|intros]
          | apply emits_try; [|intros]
          | match goal with
            | |- emits _ (if ?b then _ else _) => destruct b
            | |- emits _ (match ?x with _ => _ end) => destruct x
            end ]. }
  unfold make_solr_query_once, response_json, log.
  apply emits_try; [apply emits_bind; [exact Hq|]|]; intros;
    repeat first
      [ apply emits_ret | apply emits_raise
      | apply emits_emit; apply Hlog
      | apply emits_bind; [|intros]
      | match goal with
        | |- emits _ (if ?b then _ else _) => destruct b
        | |- emits _ (match ?x with _ => _ end) => destruct x
        end ].
Qed.

Lemma no_sleep_sleeps evs :
  Forall (fun ev => match ev with EvSleep _ => False | _ => True end) evs ->
  sleeps evs = [].
Proof.
  induction 1 as [|ev evs H _ IH]; [done|]. destruct ev; simpl in *; done.
Qed.

(** One attempt: no sleep, at most one GET. *)
Lemma make_solr_query_once_effects E qp tr :
  exists evs, snd (make_solr_query_once E qp tr) = tr ++ evs /\
              sleeps evs = [] /\ (length (requests evs) <= 1)%nat.
Proof.
  destruct (emits_attempt
              (fun ev => match ev with EvSleep _ => False | _ => True end)
              E qp I (fun _ _ => I) tr) as (evs & E1 & F1).
  destruct (make_solr_query_once_one_get E qp tr) as (evs' & E2 & L2).
  rewrite E1 in E2. apply app_inv_head in E2. subst evs'.
  exists evs. split; [done|]. split; [by apply no_sleep_sleeps|done].
Qed.

(** The sleeps of [retry]: one per attempt that is retried, each the
    exponential wait of its attempt number. *)
Lemma retry_sleeps {A} (call : M A) left k tr :
  (forall tr, exists evs, snd (call tr) = tr ++ evs /\
                          sleeps evs = [] /\
                          (length (requests evs) <= 1)%nat) ->
  exists j evs,
    (j <= left)%nat /\
    snd (retry left k call tr) = tr ++ evs /\
    sleeps evs = map (wait_exponential 2 4 60) (seqZ k (Z.of_nat j)) /\
    (length (requests evs) <= S j)%nat.
Proof.
  intros Hc. revert k tr. induction left as [|left IH]; intros k tr.
  - destruct (Hc tr) as (evs & E1 & S1 & L1). exists 0%nat, evs.
    split; [lia|]. simpl retry. unfold try_except.
    destruct (call tr) as [[a|e|] tr1]; simpl in *; subst;
      try (split; [done|]; split; [done|lia]).
    destruct (retry_if_exception_type e); simpl;
      (split; [done|]; split; [done|lia]).
  - destruct (Hc tr) as (evs & E1 & S1 & L1).
    destruct (call tr) as [[a|e|] tr1] eqn:Hcall; simpl in E1; subst.
    + exists 0%nat, evs. erewrite retry_ok by done.
      split; [lia|]. split; [done|]. split; [done|lia].
    + destruct (retry_if_exception_type e) eqn:He.
      * erewrite retry_again by done.
        edestruct (IH (k + 1)) as (j & evs2 & Hj & E2 & S2 & L2).
        rewrite E2. exists (S j). eexists.
        split; [lia|]. split; [rewrite <- !app_assoc; reflexivity|].
        rewrite !sleeps_app, !requests_app, !length_app, S1, S2.
        simpl. split; [|lia].
        rewrite (seqZ_cons k) by lia. simpl. do 2 f_equal. f_equal; lia.
      * erewrite retry_not_retried by done. exists 0%nat, evs.
        split; [lia|]. split; [done|]. split; [done|lia].
    + exists 0%nat, evs. simpl retry. unfold try_except. rewrite Hcall.
      split; [lia|]. split; [done|]. split; [done|lia].
Qed.

(** X3. The waits of a page request.  Between its attempts
    [_make_solr_query] sleeps 4, 4, 8 and 16 seconds, in that order and as
    far as it gets: it sleeps at most four times, never more than 16
    seconds at once (the ceiling of 60 is out of reach) and at most 32
    seconds in all, and it sends at most one GET more than it sleeps. *)
Theorem page_request_waits E qp tr :
  exists j evs,
    (j <= 4)%nat /\
    snd (_make_solr_query E qp tr) = tr ++ evs /\
    sleeps evs = take j [4; 4; 8; 16] /\
    (length (requests evs) <= S j)%nat /\
    Forall (fun s => s <= 16) (sleeps evs) /\
    foldr Z.add 0 (sleeps evs) <= 32.
Proof.
  unfold _make_solr_query. change (max_attempts - 1)%nat with 4%nat.
  destruct (retry_sleeps (make_solr_query_once E qp) 4 1 tr
              (make_solr_query_once_effects E qp))
    as (j & evs & Hj & E1 & S1 & L1).
  exists j, evs. split; [done|]. split; [done|].
  assert (Hs : sleeps evs = take j [4; 4; 8; 16]).
  { rewrite S1.
    destruct j as [|[|[|[|[|j]]]]]; try lia; reflexivity. }
  split; [done|]. split; [done|]. rewrite Hs.
  destruct j as [|[|[|[|[|j]]]]]; try lia; simpl;
    (split; [repeat constructor; lia|lia]).
Qed.

(** X4. A transient failure is ridden out.  When the first GET of a page
    request raises a network exception that is not an HTTPError and the
    second one is answered with a good status and a JSON body, the page
    request returns that body after two GETs and one sleep of 4 seconds. *)
Theorem page_request_recovers E qp tr e code b :
  token_ok E ->
  remote E (length (requests tr)) qp = GetRaises e ->
  is_RequestException e = true -> is_HTTPError e = false ->
  remote E (S (length (requests tr))) qp = GetReturns code (Some b) ->
  (400 <=? code) && (code <? 600) = false ->
  let r := _make_solr_query E qp tr in
  fst r = Ok b /\
  requests (snd r) = requests tr ++ [qp; qp] /\
  sleeps (snd r) = sleeps tr ++ [4].
Proof.
  intros Htok Hfail He Hh Hok Hcode r. subst r. unfold _make_solr_query.
  change (max_attempts - 1)%nat with 4%nat.
  destruct (make_solr_query_once_network_error E qp tr e Htok Hfail He Hh)
    as (m & Honce).
  erewrite retry_again; [|exact Honce|].
  2:{ unfold retry_if_exception_type. rewrite He. by destruct (is_Timeout e). }
  erewrite retry_ok.
  2:{ unfold make_solr_query_once. erewrite try_except_ok; [reflexivity|].
      erewrite bind_ok; [|eapply query_solr_success; [exact Htok| |exact Hcode]].
      - reflexivity.
      - rewrite !requests_app. simpl. rewrite !app_nil_r, length_app. simpl.
        rewrite Nat.add_1_r. exact Hok. }
  simpl. rewrite !requests_app, !sleeps_app. simpl.
  rewrite !app_nil_r, <- !app_assoc. done.
Qed.

(** A service whose first answer is lost on the way. *)
Lemma page_request_recovers_witness :
  let E := {| config_file := Some "0123456789abcdef";
              remote := fun n qp =>
                if (n =? 0)%nat then GetRaises ConnectionError
                else GetReturns 200 (Some (served_page 10 n qp));
              mkdir_fails := fun _ => None;
              write_fails := fun _ => None |} in
  let r := run (_make_solr_query E (dry_run_params "q")) in
  is_ok (fst r) = true /\ length (requests (snd r)) = 2%nat /\
  sleeps (snd r) = [4].
Proof.
  intros E r.
  destruct (page_request_recovers E (dry_run_params "q") [] ConnectionError
              200 (served_page 10 1 (dry_run_params "q")))
    as (H1 & H2 & H3).
  - exists "0123456789abcdef". reflexivity.
  - reflexivity.
  - reflexivity.
  - reflexivity.
  - reflexivity.
  - reflexivity.
  - subst r. unfold run. rewrite H1, H2, H3. done.
Defined.

(** X5. Answers that are not retried.  A 401 answer becomes the ValueError
    of line 104; an answer with a good status whose body is not JSON ends
    as an AttributeError, because the HTTPError built at line 92 carries
    no response for the handler of line 102 to read.  Neither is in the
    retry predicate: the page request raises after its first GET, without
    sleeping. *)
Theorem page_request_not_retried E qp tr st body :
  token_ok E ->
  remote E (length (requests tr)) qp = GetReturns st body ->
  st = 401 \/ ((400 <=? st) && (st <? 600) = false /\ body = None) ->
  let r := _make_solr_query E qp tr in
  fst r =
    Raise (if st =? 401 then ValueError "Invalid API token"
           else AttributeError
                  "'NoneType' object has no attribute 'status_code'") /\
  requests (snd r) = requests tr ++ [qp] /\
  sleeps (snd r) = sleeps tr.
Proof.
  intros Htok Hr [->|[Hst ->]] r; subst r.
  - rewrite (make_solr_query_unauthorized E qp tr body Htok Hr).
    simpl fst. simpl snd. rewrite requests_app, sleeps_app. simpl.
    by rewrite app_nil_r.
  - rewrite (make_solr_query_malformed_body E qp tr st Htok Hr Hst).
    replace (st =? 401) with false by lia.
    simpl fst. simpl snd. rewrite requests_app, sleeps_app. simpl.
    by rewrite app_nil_r.
Qed.

(** A service that answers with a page that is not JSON. *)
Lemma page_request_not_retried_witness :
  let E := scripted_env 10 0 (GetReturns 200 None) in
  let r := run (_make_solr_query E (dry_run_params "q")) in
  fst r = Raise (AttributeError
                   "'NoneType' object has no attribute 'status_code'") /\
  requests (snd r) = [dry_run_params "q"] /\ sleeps (snd r) = [].
Proof.
  intros E r.
  destruct (page_request_not_retried E (dry_run_params "q") [] 200 None)
    as (H1 & H2 & H3).
  - apply scripted_env_token_ok.
  - reflexivity.
  - right. split; reflexivity.
  - subst r. unfold run. rewrite H1, H2, H3. done.
Defined.

(** X6. Without a usable credential (the file is missing, or its first
    line stripped has fewer than 10 characters) a run whose page size
    passes the check raises the FileNotFoundError or the ValueError of
    [get_api_token] to the caller, in either mode: no request is sent,
    the run does not sleep, and nothing is made or written on disk. *)
Theorem harvest_without_credential E q save N P :
  ~ token_ok E -> P <= 2000 ->
  let r := run (harvest_highlights E q save N P) in
  (exists e, fst r = Raise e /\
             is_FileNotFoundError e || is_ValueError e = true /\
             In (EvLog ERROR (MsgTokenFailed e)) (snd r)) /\
  requests (snd r) = [] /\ sleeps (snd r) = [] /\
  writes (snd r) = [] /\ mkdirs (snd r) = [].
Proof.
  intros Hno HP r. subst r. unfold run, harvest_highlights.
  destruct (get_api_token_cases E) as [|(e & He & Htok)]; [done|].
  set (qp := match save with
             | None => dry_run_params q
             | Some _ => full_params q P
             end).
  assert (Hq : query_solr E qp [EvLog INFO MsgFirstPage] =
               (Raise e, [EvLog INFO MsgFirstPage;
                          EvLog ERROR (MsgTokenFailed e)])).
  { unfold query_solr. erewrite bind_raise; [reflexivity|].
    erewrite try_except_raise; [|apply Htok]. rewrite He. reflexivity. }
  assert (Hre : is_RequestException e = false) by (destruct e; done).
  assert (Hrt : retry_if_exception_type e = false) by (destruct e; done).
  assert (Hh : is_HTTPError e = false) by (destruct e; done).
  assert (Hm : exists evs,
             _make_solr_query E qp [EvLog INFO MsgFirstPage] =
               (Raise e, [EvLog INFO MsgFirstPage;
                          EvLog ERROR (MsgTokenFailed e)] ++ evs) /\
             Forall (fun ev => exists l m, ev = EvLog l m) evs).
  { destruct (is_ValueError e) eqn:Hv.
    - exists [EvLog ERROR (MsgInvalidResponse e)]. split.
      + unfold _make_solr_query. apply retry_not_retried; [|done].
        unfold make_solr_query_once.
        erewrite try_except_raise;
          [|erewrite bind_raise; [reflexivity|apply Hq]].
        rewrite Hre, Hh, Hv. reflexivity.
      + repeat constructor. eauto.
    - exists []. split; [|constructor].
      unfold _make_solr_query. apply retry_not_retried; [|done].
      unfold make_solr_query_once.
      erewrite try_except_raise;
        [|erewrite bind_raise; [reflexivity|apply Hq]].
      rewrite Hre, Hh, Hv. reflexivity. }
  destruct Hm as (evs & Hm & Hlogs).
  rewrite (harvest_first_request_raises _ E q save N P e []
             _ HP Hm).
  simpl fst. simpl snd.
  assert (Hx : requests evs = [] /\ sleeps evs = [] /\
               writes evs = [] /\ mkdirs evs = []).
  { clear -Hlogs. induction Hlogs as [|ev evs (l & m & ->) _ IH]; [done|].
    simpl. exact IH. }
  destruct Hx as (X1 & X2 & X3 & X4).
  split.
  - exists e. split; [done|]. split; [done|]. simpl. auto.
  - simpl. rewrite !requests_app, !sleeps_app, !writes_app, !mkdirs_app.
    rewrite X1, X2, X3, X4. done.
Qed.

(** A machine on which the credential file is missing. *)
Lemma harvest_without_credential_witness :
  let E := {| config_file := None;
              remote := remote (healthy_env 10);
              mkdir_fails := fun _ => None;
              write_fails := fun _ => None |} in
  let r := run (harvest_highlights E "q" (Some "out.json") 3 5) in
  (exists e, fst r = Raise e /\
             is_FileNotFoundError e || is_ValueError e = true /\
             In (EvLog ERROR (MsgTokenFailed e)) (snd r)) /\
  requests (snd r) = [] /\ sleeps (snd r) = [] /\
  writes (snd r) = [] /\ mkdirs (snd r) = [].
Proof.
  intros E.
  apply (harvest_without_credential E "q" (Some "out.json") 3 5).
  - intros [tok Htok]. specialize (Htok []). done.
  - lia.
Defined.

(* --------------------------------------------------------------------- *)
(*  Q. What a run can do, whatever the service answers                   *)
(* --------------------------------------------------------------------- *)

Lemma map_replicate {A B} (f : A -> B) n x :
  map f (replicate n x) = replicate n (f x).
Proof. induction n as [|n IH]; simpl; [done|by rewrite IH]. Qed.

Lemma transport_requests_replicate qp evs :
  Forall (transport_of qp) evs ->
  requests evs = replicate (length (requests evs)) qp.
Proof.
  induction 1 as [|ev evs H _ IH]; [done|].
  destruct ev; simpl in *; try done. subst. by rewrite <- IH.
Qed.

Lemma sorted_replicate_app j p ks :
  Forall (fun k => p <= k) ks -> StronglySorted Z.le ks ->
  StronglySorted Z.le (replicate j p ++ ks).
Proof.
  intros Hf Hs. induction j as [|j IH]; simpl; [done|].
  constructor; [done|]. apply Forall_app. split; [|done].
  apply Forall_replicate. lia.
Qed.

Lemma Forall_take_waits j :
  Forall (fun s => In s pauses) (take j [4; 4; 8; 16]).
Proof.
  apply Forall_take. unfold pauses. repeat constructor; simpl; tauto.
Qed.

(** What a page request appends: GETs of its descriptor, one more at most
    than it sleeps, log records, and the waits of the retry policy. *)
Lemma make_solr_query_events E qp tr :
  exists j evs,
    (j <= 4)%nat /\
    snd (_make_solr_query E qp tr) = tr ++ evs /\
    sleeps evs = take j [4; 4; 8; 16] /\
    requests evs = replicate (length (requests evs)) qp /\
    (length (requests evs) <= S j)%nat /\
    writes evs = [] /\ mkdirs evs = [].
Proof.
  unfold _make_solr_query. change (max_attempts - 1)%nat with 4%nat.
  destruct (retry_sleeps (make_solr_query_once E qp) 4 1 tr
              (make_solr_query_once_effects E qp))
    as (j & evs & Hj & E1 & S1 & L1).
  destruct (emits_make_solr_query E qp tr) as (evs' & E2 & F2).
  unfold _make_solr_query in E2.
  change (max_attempts - 1)%nat with 4%nat in E2.
  rewrite E1 in E2. apply app_inv_head in E2. subst evs'.
  exists j, evs. split; [done|]. split; [done|].
  split.
  { rewrite S1. destruct j as [|[|[|[|[|j]]]]]; try lia; reflexivity. }
  split; [by apply transport_requests_replicate|]. split; [done|].
  assert (Forall not_file evs)
    by (eapply Forall_impl; [exact F2|apply transport_not_file]).
  by rewrite not_file_writes, not_file_mkdirs.
Qed.

(** Whatever a turn does after its page request, it sends nothing more,
    touches no file, and sleeps 2 seconds (after a page), 5 or 10 seconds
    (after a timeout), or not at all. *)
Lemma loop_body_tail E qp st tr :
  0 <= cur_timeouts st < 3 ->
  exists evs,
    snd (loop_body E qp st tr) = snd (turn_request E qp st tr) ++ evs /\
    requests evs = [] /\ writes evs = [] /\ mkdirs evs = [] /\
    Forall (fun s => In s pauses) (sleeps evs).
Proof.
  intros Hc. unfold pauses.
  destruct (turn_request E qp st tr) as [[b|e|] tr1] eqn:Hq.
  - destruct (merge_page (cur_highlights st) b) as [hl|e|] eqn:Hm.
    + erewrite loop_body_success by done. eexists. split; [reflexivity|].
      simpl. split_and!; try done; repeat constructor; simpl; tauto.
    + erewrite loop_body_key_error by done. exists [].
      rewrite app_nil_r. simpl. split_and!; done.
    + pose proof (merge_page_key_error_only (cur_highlights st) b) as Hk.
      by rewrite Hm in Hk.
  - destruct (is_Timeout e) eqn:He.
    + destruct (Z_lt_ge_dec (cur_timeouts st + 1) 3).
      * erewrite loop_body_timeout_retry by done.
        eexists. split; [reflexivity|].
        assert (cur_timeouts st = 0 \/ cur_timeouts st = 1) as [->| ->]
            by lia; simpl; split_and!; try done;
          repeat constructor; simpl; tauto.
      * erewrite loop_body_timeout_abort by (done || lia).
        eexists. split; [reflexivity|]. simpl. split_and!; done.
    + erewrite loop_body_hard_failure by done.
      eexists. split; [reflexivity|].
      destruct (_ || _); simpl; split_and!; done.
  - by apply turn_request_fuel_free in Hq.
Qed.

(** The events of one turn. *)
Lemma loop_body_events E qp st tr :
  0 <= cur_timeouts st < 3 ->
  exists evs j,
    snd (loop_body E qp st tr) = tr ++ evs /\
    requests evs = replicate j (turn_params qp st) /\ (j <= 5)%nat /\
    writes evs = [] /\ mkdirs evs = [] /\
    Forall (fun s => In s pauses) (sleeps evs).
Proof.
  intros Hc. destruct (loop_body_tail E qp st tr Hc)
    as (evs2 & E2 & R2 & W2 & M2 & S2).
  unfold turn_request in E2.
  destruct (make_solr_query_events E (turn_params qp st)
              (tr ++ [EvLog INFO (MsgPage (cur_page st))]))
    as (j & evs1 & Hj & E1 & S1 & R1 & L1 & W1 & M1).
  rewrite E1 in E2.
  exists ([EvLog INFO (MsgPage (cur_page st))] ++ evs1 ++ evs2),
         (length (requests evs1)).
  split; [by rewrite E2, <- !app_assoc|].
  rewrite !requests_app, !writes_app, !mkdirs_app, !sleeps_app.
  rewrite R2, W2, M2, W1, M1, S1. simpl. rewrite app_nil_r.
  split; [done|]. split; [lia|]. split; [done|]. split; [done|].
  apply Forall_app. split; [apply Forall_take_waits|done].
Qed.

(** The events of the loop: its GETs ask for page indices from the current
    one up to the ceiling, never going back, five at most per turn. *)
Lemma paging_loop_events E N total qp fuel st tr :
  0 <= cur_timeouts st < 3 ->
  exists evs ks,
    snd (paging_loop E fuel N total qp st tr) = tr ++ evs /\
    requests evs = page_requests qp ks /\
    Forall (fun k => cur_page st <= k < N) ks /\
    StronglySorted Z.le ks /\
    (length ks <= 5 * fuel)%nat /\
    writes evs = [] /\ mkdirs evs = [] /\
    Forall (fun s => In s pauses) (sleeps evs).
Proof.
  revert st tr. induction fuel as [|fuel IH]; intros st tr Hc.
  - exists [], []. rewrite app_nil_r. simpl.
    destruct (loop_test N total qp st); simpl;
      split_and!; try done; constructor.
  - destruct (loop_test N total qp st) eqn:Ht.
    2:{ rewrite paging_loop_exit by done. exists [], [].
        rewrite app_nil_r. simpl. split_and!; try done; try constructor.
        lia. }
    assert (Hp : cur_page st < N) by (unfold loop_test in Ht; lia).
    destruct (loop_body_events E qp st tr Hc)
      as (evs1 & j & E1 & R1 & Hj & W1 & M1 & S1).
    assert (Hks : requests evs1 = page_requests qp (replicate j (cur_page st))).
    { unfold page_requests. by rewrite map_replicate. }
    assert (Hstop :
      exists ks, requests evs1 = page_requests qp ks /\
        Forall (fun k => cur_page st <= k < N) ks /\
        StronglySorted Z.le ks /\ (length ks <= 5 * S fuel)%nat).
    { exists (replicate j (cur_page st)). split; [done|].
      split; [apply Forall_replicate; lia|].
      split; [|rewrite length_replicate; lia].
      rewrite <- (app_nil_r (replicate _ _)).
      apply sorted_replicate_app; constructor. }
    destruct (loop_body E qp st tr) as [[[st1|st1]|e|] tr1] eqn:Hb;
      simpl in E1; subst tr1.
    + erewrite paging_loop_continue by done.
      pose proof (loop_body_continue _ _ _ _ _ _ Hb) as Hs.
      destruct (IH st1 (tr ++ evs1) ltac:(lia))
        as (evs2 & ks2 & E2 & R2 & F2 & So2 & L2 & W2 & M2 & S2).
      exists (evs1 ++ evs2), (replicate j (cur_page st) ++ ks2).
      split; [by rewrite E2, <- app_assoc|].
      rewrite !requests_app, !writes_app, !mkdirs_app, !sleeps_app.
      rewrite Hks, R2, W1, W2, M1, M2.
      split; [unfold page_requests; by rewrite map_app|].
      split.
      { apply Forall_app. split; [apply Forall_replicate; lia|].
        eapply Forall_impl; [exact F2|]. simpl. intros k Hk. lia. }
      split.
      { apply sorted_replicate_app; [|done].
        eapply Forall_impl; [exact F2|]. simpl. intros k Hk. lia. }
      split; [rewrite length_app, length_replicate; lia|].
      split; [done|]. split; [done|]. by apply Forall_app.
    + erewrite paging_loop_break by done. simpl.
      destruct Hstop as (ks & ? & ? & ? & ?). exists evs1, ks.
      split_and!; done.
    + erewrite paging_loop_raise by done. simpl.
      destruct Hstop as (ks & ? & ? & ? & ?). exists evs1, ks.
      split_and!; done.
    + pose proof (fuel_free_loop_body E qp st tr) as Hf.
      by rewrite Hb in Hf.
Qed.

(** The events of the first request of a full harvest and of what is done
    with its answer. *)
Lemma first_phase_events E q P tr :
  exists evs j,
    snd (first_phase E q P tr) = tr ++ evs /\
    requests evs = replicate j (full_params q P) /\ (j <= 5)%nat /\
    writes evs = [] /\ mkdirs evs = [] /\
    Forall (fun s => In s pauses) (sleeps evs).
Proof.
  destruct (make_solr_query_events E (full_params q P)
              (tr ++ [EvLog INFO MsgFirstPage]))
    as (j & evs1 & Hj & E1 & S1 & R1 & L1 & W1 & M1).
  assert (Htail : exists evs2,
            snd (first_phase E q P tr) =
              snd (_make_solr_query E (full_params q P)
                     (tr ++ [EvLog INFO MsgFirstPage])) ++ evs2 /\
            requests evs2 = [] /\ writes evs2 = [] /\ mkdirs evs2 = [] /\
            sleeps evs2 = []).
  { unfold first_phase. rewrite log_then. unfold bind at 1.
    destruct (_make_solr_query E (full_params q P) _) as [[b|e|] tr1];
      cbn [snd]; try (exists []; by rewrite app_nil_r).
    unfold bind, getitem, log, emit, lift, ret, raise.
    destruct (response b) as [resp|];
      [|exists []; by rewrite app_nil_r].
    destruct (numFound resp) as [total|];
      [|exists []; by rewrite app_nil_r].
    destruct (first_page_highlights b); cbn [snd];
      exists [EvLog INFO (MsgFound total)]; done. }
  destruct Htail as (evs2 & E2 & R2 & W2 & M2 & S2).
  rewrite E1 in E2.
  exists ([EvLog INFO MsgFirstPage] ++ evs1 ++ evs2), (length (requests evs1)).
  split; [by rewrite E2, <- !app_assoc|].
  rewrite !requests_app, !writes_app, !mkdirs_app, !sleeps_app.
  rewrite R2, W2, M2, S2, W1, M1, S1. simpl. rewrite !app_nil_r.
  split; [done|]. split; [lia|]. split; [done|]. split; [done|].
  apply Forall_take_waits.
Qed.

Lemma page_requests_first q P j :
  replicate j (full_params q P) =
  page_requests (full_params q P) (replicate j 0).
Proof. unfold page_requests. rewrite map_replicate. reflexivity. Qed.

(** The events of a full harvest up to the save step. *)
Lemma collect_events fuel E q N P :
  exists ks,
    let tr := snd (collect fuel E q N P []) in
    requests tr = page_requests (full_params q P) ks /\
    Forall (fun k => 0 <= k < Z.max 1 N) ks /\
    StronglySorted Z.le ks /\
    (length ks <= 5 * S fuel)%nat /\
    writes tr = [] /\ mkdirs tr = [] /\
    Forall (fun s => In s pauses) (sleeps tr).
Proof.
  destruct (first_phase_events E q P [])
    as (evs1 & j & E1 & R1 & Hj & W1 & M1 & S1).
  simpl in E1. unfold collect, bind.
  destruct (first_phase E q P []) as [[[total hl]|e|] tr1];
    simpl in E1; subst tr1.
  - destruct (paging_loop_events E N total (full_params q P) fuel
                (loop_entry hl) evs1 ltac:(simpl; lia))
      as (evs2 & ks2 & E2 & R2 & F2 & So2 & L2 & W2 & M2 & S2).
    exists (replicate j 0 ++ ks2). cbn [fst snd]. rewrite E2.
    rewrite !requests_app, !writes_app, !mkdirs_app, !sleeps_app.
    rewrite R1, R2, W1, W2, M1, M2, page_requests_first.
    split; [unfold page_requests; by rewrite map_app|].
    split.
    { apply Forall_app. split; [apply Forall_replicate; lia|].
      eapply Forall_impl; [exact F2|]. simpl. intros k Hk. lia. }
    split.
    { apply sorted_replicate_app; [|done].
      eapply Forall_impl; [exact F2|]. simpl. intros k Hk. lia. }
    split; [rewrite length_app, length_replicate; lia|].
    split; [done|]. split; [done|]. by apply Forall_app.
  - exists (replicate j 0). cbn [snd].
    rewrite R1, W1, M1, page_requests_first.
    split; [done|]. split; [apply Forall_replicate; lia|].
    split.
    { rewrite <- (app_nil_r (replicate _ _)).
      apply sorted_replicate_app; constructor. }
    split; [rewrite length_replicate; lia|]. done.
  - exists (replicate j 0). cbn [snd].
    rewrite R1, W1, M1, page_requests_first.
    split; [done|]. split; [apply Forall_replicate; lia|].
    split.
    { rewrite <- (app_nil_r (replicate _ _)).
      apply sorted_replicate_app; constructor. }
    split; [rewrite length_replicate; lia|]. done.
Qed.

(** The save step, case by case: it sends nothing and does not sleep; it
    returns after one write to the destination, or raises without one. *)
Lemma save_results_cases E path hl c tr :
  exists r evs,
    save_results E path hl c tr = (r, tr ++ evs) /\
    requests evs = [] /\ sleeps evs = [] /\
    match r with
    | Ok _ => writes evs = [(path, JsonDump 4 hl)] /\ mkdirs evs = [path]
    | Raise _ => writes evs = []
    | OutOfFuel => False
    end.
Proof.
  destruct (mkdir_fails E path) as [e|] eqn:Hm.
  - erewrite save_results_mkdir_fails by done. eexists _, _.
    split; [reflexivity|]. destruct (is_IOError e); done.
  - destruct (write_fails E path) as [e|] eqn:Hw.
    + erewrite save_results_write_fails by done. eexists _, _.
      split; [reflexivity|]. destruct (is_IOError e); done.
    + rewrite save_results_ok by done. eexists _, _.
      split; [reflexivity|]. destruct (c >? 0); done.
Qed.

(** A full harvest, case by case: after the collection of the pages it
    sends nothing and does not sleep; it returns after one write to the
    destination, or raises without one. *)
Lemma harvest_full_cases E q path N P :
  P <= 2000 ->
  exists r evs,
    run (harvest_highlights E q (Some path) N P) =
      (r, snd (collect (loop_fuel N) E q N P []) ++ evs) /\
    requests evs = [] /\ sleeps evs = [] /\
    match r with
    | Ok _ =>
        exists st', fst (collect (loop_fuel N) E q N P []) = Ok st' /\
                    writes evs = [(path, JsonDump 4 (cur_highlights st'))] /\
                    mkdirs evs = [path]
    | Raise _ => writes evs = []
    | OutOfFuel => False
    end.
Proof.
  intros HP. unfold run, harvest_highlights.
  rewrite harvest_with_full by done. unfold try_except at 1. unfold bind at 1.
  pose proof (fuel_free_collect E q N P (loop_fuel N) ltac:(lia) []) as Hff.
  destruct (collect (loop_fuel N) E q N P []) as [[st'|e|] tr'];
    cbn [fst snd] in *.
  - destruct (save_results_cases E path (cur_highlights st')
                (cur_timeouts st') tr') as (r & evs & Es & R & S & Hr).
    rewrite Es. destruct r as [[]|e|]; [| |done].
    + exists (Ok tt), evs. split; [done|]. split; [done|]. split; [done|].
      exists st'. by destruct Hr.
    + exists (Raise e), (evs ++ [EvLog ERROR (MsgHarvestFailed e)]).
      split; [run_monad; by rewrite <- app_assoc|].
      rewrite requests_app, sleeps_app, writes_app, R, S, Hr. done.
  - exists (Raise e), [EvLog ERROR (MsgHarvestFailed e)]. done.
  - done.
Qed.

(** A run, whatever the service answers: the page indices its GETs ask
    for, its pauses, and what it leaves on disk. *)
Lemma harvest_run_summary E q save N P :
  let r := run (harvest_highlights E q save N P) in
  let qp := match save with
            | None => dry_run_params q
            | Some _ => full_params q P
            end in
  exists ks,
    requests (snd r) = page_requests qp ks /\
    Forall (fun k => 0 <= k < Z.max 1 N) ks /\
    StronglySorted Z.le ks /\
    (length ks <= 5 * S (loop_fuel N))%nat /\
    (save = None -> (length ks <= 5)%nat /\ Forall (fun k => k = 0) ks) /\
    Forall (fun s => In s pauses) (sleeps (snd r)) /\
    match fst r with
    | Ok _ =>
        match save with
        | None => writes (snd r) = [] /\ mkdirs (snd r) = []
        | Some path =>
            exists hl, writes (snd r) = [(path, JsonDump 4 hl)] /\
                       mkdirs (snd r) = [path]
        end
    | Raise _ => writes (snd r) = []
    | OutOfFuel => False
    end.
Proof.
  intros r qp. subst r qp.
  destruct (Z_le_gt_dec P 2000) as [HP|HP].
  2:{ unfold run, harvest_highlights, harvest_with.
      replace (P >? 2000) with true by lia.
      exists []. cbn [fst snd raise]. simpl.
      split; [done|]. split; [constructor|]. split; [constructor|].
      split; [lia|]. split; [intros _; split; [lia|constructor]|].
      split; [constructor|done]. }
  destruct save as [path|]; cbv beta iota.
  - destruct (harvest_full_cases E q path N P HP)
      as (r & evs & Hrun & R & S & Hr).
    destruct (collect_events (loop_fuel N) E q N P)
      as (ks & Rc & Fc & Sc & Lc & Wc & Mc & Pc).
    cbv zeta in Rc, Wc, Mc, Pc.
    exists ks. rewrite Hrun. cbn [fst snd].
    rewrite requests_app, sleeps_app, writes_app, mkdirs_app.
    rewrite R, S, Rc, Wc, Mc, !app_nil_r.
    split; [done|]. split; [done|]. split; [done|]. split; [done|].
    split; [done|]. split; [done|].
    destruct r as [[]|e|]; [|done|done].
    destruct Hr as (st' & _ & W & M). exists (cur_highlights st').
    by rewrite W, M.
  - destruct (make_solr_query_events E (dry_run_params q)
                [EvLog INFO MsgFirstPage])
      as (j & evs1 & Hj & E1 & S1 & R1 & L1 & W1 & M1).
    assert (Hks : replicate (length (requests evs1)) (dry_run_params q) =
                  page_requests (dry_run_params q)
                    (replicate (length (requests evs1)) 0)).
    { unfold page_requests. rewrite map_replicate. reflexivity. }
    exists (replicate (length (requests evs1)) 0).
    rewrite dry_run_run by done.
    assert (Hcommon :
      Forall (fun k => 0 <= k < Z.max 1 N)
        (replicate (length (requests evs1)) 0) /\
      StronglySorted Z.le (replicate (length (requests evs1)) 0) /\
      (length (replicate (length (requests evs1)) 0%Z)
         <= 5 * S (loop_fuel N))%nat /\
      (@None string = None ->
       (length (replicate (length (requests evs1)) 0%Z) <= 5)%nat /\
       Forall (fun k => k = 0) (replicate (length (requests evs1)) 0))).
    { split; [apply Forall_replicate; lia|].
      split.
      { rewrite <- (app_nil_r (replicate _ _)).
        apply sorted_replicate_app; constructor. }
      rewrite length_replicate. split; [lia|].
      intros _. split; [lia|]. by apply Forall_replicate. }
    destruct Hcommon as (C1 & C2 & C3 & C4).
    destruct (_make_solr_query E (dry_run_params q) _) as [[b|e|] tr1] eqn:Hq;
      cbn [snd] in E1; subst tr1.
    + destruct (response b) as [resp|]; [destruct (numFound resp)|];
        cbn [fst snd];
        rewrite !requests_app, !sleeps_app, !writes_app, ?mkdirs_app;
        rewrite <- Hks, <- R1, S1, W1, ?M1;
        cbn [requests sleeps writes mkdirs app]; rewrite ?app_nil_r;
        (split; [reflexivity|]); (split; [exact C1|]); (split; [exact C2|]);
        (split; [exact C3|]); (split; [exact C4|]);
        (split; [apply Forall_take_waits|done]).
    + cbn [fst snd].
      rewrite !requests_app, !sleeps_app, !writes_app.
      rewrite <- Hks, <- R1, S1, W1.
      cbn [requests sleeps writes mkdirs app]. rewrite ?app_nil_r.
      split; [reflexivity|]. split; [exact C1|]. split; [exact C2|].
      split; [exact C3|]. split; [exact C4|].
      split; [apply Forall_take_waits|done].
    + pose proof (fuel_free_make_solr_query E (dry_run_params q)
                    [EvLog INFO MsgFirstPage]) as Hf.
      by rewrite Hq in Hf.
Qed.

(** X7. The request budget.  Whatever the service answers, a run sends at
    most five GETs for its first page request and five for each turn of
    the loop, and the loop makes at most three turns per page index below
    the ceiling: at most 5 + 15 * max(0, N - 1) GETs in all, five with a
    ceiling of 1 (the default of the command line) and five in a dry
    run. *)
Theorem request_budget E q save N P :
  let r := run (harvest_highlights E q save N P) in
  (length (requests (snd r)) <= 5 * S (loop_fuel N))%nat /\
  Z.of_nat (length (requests (snd r))) <= 5 + 15 * Z.max 0 (N - 1) /\
  (N <= 1 -> (length (requests (snd r)) <= 5)%nat) /\
  (save = None -> (length (requests (snd r)) <= 5)%nat).
Proof.
  intros r. subst r.
  destruct (harvest_run_summary E q save N P)
    as (ks & R & _ & _ & L & D & _).
  rewrite R. unfold page_requests. rewrite length_map.
  unfold loop_fuel in *.
  split; [done|]. split; [lia|]. split; [lia|].
  intros Hs. by destruct (D Hs).
Qed.

(** The default ceiling of the command line. *)
Lemma request_budget_witness :
  (length (requests (snd (run (harvest_highlights (healthy_env 50) "q"
                                 (Some "out.json") 1 100)))) <= 5)%nat.
Proof.
  destruct (request_budget (healthy_env 50) "q" (Some "out.json") 1 100)
    as (_ & _ & H & _).
  apply H. lia.
Defined.

(** X8. Paging never goes back.  Whatever the service answers, the GETs of
    a run carry the descriptor built at lines 84-112 with only 'start'
    changed, 'start' is a page index times the page size, the page indices
    lie between 0 and the ceiling and never decrease along the run (a page
    index is repeated when its request is retried); in a dry run they are
    all 0. *)
Theorem paging_never_goes_back E q save N P :
  let r := run (harvest_highlights E q save N P) in
  let qp := match save with
            | None => dry_run_params q
            | Some _ => full_params q P
            end in
  exists ks,
    requests (snd r) = page_requests qp ks /\
    offsets (snd r) = map (fun k => k * qp_rows qp) ks /\
    Forall (fun k => 0 <= k < Z.max 1 N) ks /\
    StronglySorted Z.le ks /\
    (save = None -> Forall (fun k => k = 0) ks) /\
    Forall (fun qp' => qp' = set_start qp (qp_start qp')) (requests (snd r)).
Proof.
  intros r qp. subst r qp.
  destruct (harvest_run_summary E q save N P)
    as (ks & R & F & So & _ & D & _).
  exists ks. split; [done|].
  split.
  { unfold offsets. rewrite R. unfold page_requests.
    rewrite map_map. reflexivity. }
  split; [done|]. split; [done|].
  split; [intros Hs; by destruct (D Hs)|].
  rewrite R. unfold page_requests. apply Forall_forall.
  intros qp' (k & <- & _)%list_elem_of_In%in_map_iff. reflexivity.
Qed.

(** A dry run only asks for page index 0. *)
Lemma paging_never_goes_back_witness :
  exists ks,
    requests (snd (run (harvest_highlights (healthy_env 50) "q" None 3 100)))
      = page_requests (dry_run_params "q") ks /\
    Forall (fun k => k = 0) ks.
Proof.
  destruct (paging_never_goes_back (healthy_env 50) "q" None 3 100)
    as (ks & R & _ & _ & _ & D & _).
  exists ks. split; [exact R|]. apply D. reflexivity.
Defined.

(** X9. The pauses of a run.  Whatever the service answers, every sleep of
    a run lasts 2 seconds (after a page: the counter was reset just
    before the pause is computed, so the pause never grows), 5 or 10
    seconds (after the first or second consecutive timeout), or 4, 8 or
    16 seconds (between the attempts of a page request). *)
Theorem pauses_of_a_run E q save N P :
  Forall (fun s => In s pauses)
         (sleeps (snd (run (harvest_highlights E q save N P)))).
Proof.
  by destruct (harvest_run_summary E q save N P)
    as (ks & _ & _ & _ & _ & _ & S & _).
Qed.


(* --------------------------------------------------------------------- *)
(*  R. Pages with missing keys                                           *)
(* --------------------------------------------------------------------- *)

Lemma source_of_is_ok d :
  is_ok (source_of d) =
    bool_decide (is_Some (doc_bibcode d)) &&
    bool_decide (is_Some (doc_title d)) &&
    bool_decide (is_Some (doc_author d)) &&
    bool_decide (is_Some (doc_pubdate d)) &&
    bool_decide (is_Some (doc_doctype d)) &&
    bool_decide (is_Some (doc_property d)).
Proof.
  unfold source_of.
  destruct (doc_bibcode d), (doc_title d), (doc_author d), (doc_pubdate d),
    (doc_doctype d), (doc_property d); reflexivity.
Qed.

Lemma add_source_is_ok h d : is_ok (add_source h d) = complete_doc d.
Proof.
  unfold complete_doc. rewrite <- !andb_assoc.
  pose proof (source_of_is_ok d) as Hs. rewrite <- !andb_assoc in Hs.
  rewrite <- Hs. unfold add_source.
  destruct (doc_id d) as [id|]; [|reflexivity].
  cbn [field and_then].
  destruct (source_of d) as [src|e|]; cbn [and_then is_ok];
    [|reflexivity|reflexivity].
  destruct (h !! id) as [entry|] eqn:Hh.
  - rewrite Hh. reflexivity.
  - rewrite lookup_insert_eq. reflexivity.
Qed.

Lemma add_sources_is_ok ds h :
  is_ok (add_sources ds h) = forallb complete_doc ds.
Proof.
  revert h. induction ds as [|d ds IH]; intros h; simpl; [done|].
  rewrite <- (add_source_is_ok h d).
  destruct (add_source h d) as [h1|e|]; simpl; [apply IH|done|done].
Qed.

(** X11. When a page can be processed.  The first page and every later
    page are processed exactly when they carry 'highlighting', 'response'
    and its 'docs', and every record carries 'id', 'bibcode', 'title',
    'author', 'pubdate', 'doctype' and 'property' ('doi' and 'grant' may
    be missing: they are read with [get]).  What the accumulator already
    holds plays no part.  A page that cannot be processed raises a
    KeyError and nothing else. *)
Theorem page_processed_iff_complete h pg :
  is_ok (merge_page h pg) = complete_page pg /\
  is_ok (first_page_highlights pg) = complete_page pg /\
  (complete_page pg = false ->
   exists k, merge_page h pg = Raise (KeyError k)) /\
  (forall d, complete_doc d = true ->
     exists src, source_of d = Ok src /\
                 doi src = dict_get (doc_doi d) /\
                 grant src = dict_get (doc_grant d)).
Proof.
  assert (Hm : forall h0, is_ok (merge_page h0 pg) = complete_page pg).
  { intros h0. unfold merge_page, complete_page.
    destruct (highlighting pg) as [hp|]; [|reflexivity].
    destruct (response pg) as [resp|]; [|reflexivity].
    cbn [field and_then].
    destruct (docs resp) as [ds|]; [|reflexivity].
    cbn [field and_then]. apply add_sources_is_ok. }
  split; [apply Hm|]. split.
  { rewrite first_page_highlights_merge. apply Hm. }
  split.
  - intros Hc. pose proof (merge_page_key_error_only h pg) as Hk.
    specialize (Hm h). rewrite Hc in Hm.
    destruct (merge_page h pg) as [h1|e|]; [done| |done].
    destruct Hk as [k ->]. eauto.
  - intros d Hd. unfold complete_doc in Hd. unfold source_of.
    destruct (doc_id d), (doc_bibcode d), (doc_title d), (doc_author d),
      (doc_pubdate d), (doc_doctype d), (doc_property d);
      try (exfalso; vm_compute in Hd; discriminate Hd).
    eexists. split; [reflexivity|]. split; reflexivity.
Qed.

(** A page without its 'response'. *)
Lemma page_processed_iff_complete_witness :
  exists k,
    merge_page ∅ {| response := None; highlighting := Some ∅ |} =
      Raise (KeyError k).
Proof.
  destruct (page_processed_iff_complete
              ∅ {| response := None; highlighting := Some ∅ |})
    as (_ & _ & H & _).
  apply H. reflexivity.
Defined.

(** X12. A page with a missing key loses the harvest.  The run of a full
    harvest is at the loop test, the test holds, the page request of the
    turn succeeds, but the page cannot be processed.  Then the run raises
    a KeyError to the caller after the log record of line 225: the
    handlers of lines 189 and 204 do not apply, the save step is not
    reached, and nothing of what the earlier pages gave is written. *)
Theorem incomplete_page_aborts_harvest E q path N P total st tr b tr1 :
  P <= 2000 ->
  in_loop E q N P total st tr ->
  loop_test N total (full_params q P) st = true ->
  turn_request E (full_params q P) st tr = (Ok b, tr1) ->
  complete_page b = false ->
  let r := run (harvest_highlights E q (Some path) N P) in
  exists k,
    r = (Raise (KeyError k),
         tr1 ++ [EvLog ERROR (MsgHarvestFailed (KeyError k))]) /\
    writes (snd r) = [] /\ mkdirs (snd r) = [].
Proof.
  intros HP Hin Ht Hq Hc r. subst r.
  pose proof (merge_page_key_error_only (cur_highlights st) b) as Hk.
  assert (Hok : is_ok (merge_page (cur_highlights st) b) = false).
  { rewrite <- Hc. unfold merge_page, complete_page.
    destruct (highlighting b) as [hp|]; [|reflexivity].
    destruct (response b) as [resp|]; [|reflexivity].
    cbn [field and_then].
    destruct (docs resp) as [ds|]; [|reflexivity].
    cbn [field and_then]. apply add_sources_is_ok. }
  destruct (merge_page (cur_highlights st) b) as [h1|e|] eqn:Hm;
    [done| |done].
  destruct Hk as [k ->]. exists k.
  assert (Hl : paging_loop E 1 N total (full_params q P) st tr =
               (Raise (KeyError k), tr1)).
  { apply paging_loop_raise; [done|]. by eapply loop_body_key_error. }
  rewrite (in_loop_raise E q N P total st tr Hin path 1 _ _ HP Hl).
  split; [done|]. cbn [snd].
  destruct (in_loop_not_file E q N P total st tr Hin) as [Hw Hd].
  destruct (turn_request_not_file E _ st tr _ _ Hq Hw Hd) as [Hw1 Hd1].
  rewrite writes_app, mkdirs_app, Hw1, Hd1. done.
Qed.

(** A service whose second page has no 'response'. *)
Lemma incomplete_page_aborts_harvest_witness :
  let bad := {| response := None; highlighting := Some ∅ |} in
  let r := run (harvest_highlights
                  (scripted_env 1000 1 (GetReturns 200 (Some bad)))
                  "q" (Some "out.json") 5 100) in
  exists k, fst r = Raise (KeyError k) /\ writes (snd r) = [].
Proof.
  intros bad r.
  destruct (incomplete_page_aborts_harvest
              (scripted_env 1000 1 (GetReturns 200 (Some bad)))
              "q" "out.json" 5 100 1000
              (loop_entry (page_highlighting_with_sources 1000 "A"))
              first_page_trace bad
              (first_page_trace ++
                 [EvLog INFO (MsgPage 1);
                  EvGet (set_start (full_params "q" 100) 100)]))
    as (k & H1 & H2 & _).
  - lia.
  - exists (page_highlighting_with_sources 1000 "A"), first_page_trace.
    split; [vm_compute; reflexivity|apply reaches_here].
  - vm_compute. reflexivity.
  - vm_compute. reflexivity.
  - reflexivity.
  - exists k. subst r. split; [by rewrite H1|exact H2].
Defined.

(* --------------------------------------------------------------------- *)
(*  S. Harvests of one page                                              *)
(* --------------------------------------------------------------------- *)

(** X13. When the loop is never entered.  With a ceiling of at most 1 (the
    default of the command line) or a match count that fits one page, a
    full harvest whose first page is processed sends nothing but its first
    request, at offset 0, and goes straight to the save step: if the disk
    works it writes the first page's accumulator and returns, without the
    pause of line 187 and without the warning of line 217. *)
Theorem harvest_stops_after_first_page E q path N P total hl tr1 :
  P <= 2000 ->
  first_phase E q P [] = (Ok (total, hl), tr1) ->
  N <= 1 \/ total <= P ->
  let r := run (harvest_highlights E q (Some path) N P) in
  Forall (eq (full_params q P)) (requests (snd r)) /\
  Forall (eq 0) (offsets (snd r)) /\
  (length (requests (snd r)) <= 5)%nat /\
  (mkdir_fails E path = None -> write_fails E path = None ->
   r = (Ok tt, tr1 ++ [EvMkdir path; EvWrite path (JsonDump 4 hl);
                       EvLog INFO (MsgSaved path)])).
Proof.
  intros HP Hf Hstop r. subst r.
  assert (Ht : loop_test N total (full_params q P) (loop_entry hl) = false).
  { unfold loop_test. cbn [cur_page loop_entry qp_rows full_params]. lia. }
  assert (Hin : in_loop E q N P total (loop_entry hl) tr1).
  { exists hl, tr1. split; [done|apply reaches_here]. }
  pose proof (paging_loop_exit E N total (full_params q P) 0
                (loop_entry hl) tr1 Ht) as Hl.
  rewrite (in_loop_done E q N P total (loop_entry hl) tr1 Hin path 0 _ _
             HP Hl).
  cbn [cur_highlights cur_timeouts loop_entry].
  destruct (first_phase_events E q P [])
    as (evs1 & j & E1 & R1 & Hj & _).
  rewrite Hf in E1. cbn [snd app] in E1. subst evs1.
  destruct (save_results_cases E path hl 0 tr1)
    as (r & evs & Es & R & S & Hr).
  assert (Hreq : requests (snd (try_except (save_results E path hl 0)
                   (fun e => log ERROR (MsgHarvestFailed e) >> raise e) tr1))
                 = replicate j (full_params q P)).
  { unfold try_except. rewrite Es.
    destruct r as [[]|e|]; cbn [snd]; [| |done].
    - by rewrite requests_app, R, app_nil_r.
    - unfold log, emit, bind, raise. cbn [snd].
      rewrite !requests_app, R. simpl. by rewrite !app_nil_r. }
  split; [rewrite Hreq; by apply Forall_replicate|].
  split.
  { unfold offsets. rewrite Hreq, map_replicate.
    by apply Forall_replicate. }
  split; [rewrite Hreq, length_replicate; lia|].
  intros Hm Hw. unfold try_except.
  rewrite save_results_ok by done. reflexivity.
Qed.

(** The defaults of the command line against a service with 50 matches:
    one page, one request. *)
Lemma harvest_stops_after_first_page_witness :
  let r := run (harvest_highlights (healthy_env 50)
                  (main_query_string default_args) (Some "out.json")
                  (max_pages default_args) (rows_per_page default_args)) in
  fst r = Ok tt /\ length (requests (snd r)) = 1%nat /\
  offsets (snd r) = [0] /\ sleeps (snd r) = [].
Proof.
  intros r.
  destruct (is_ok_run (first_phase (healthy_env 50)
                         (main_query_string default_args)
                         (rows_per_page default_args) []))
    as ([total hl] & tr1 & Hf); [vm_compute; reflexivity|].
  destruct (harvest_stops_after_first_page (healthy_env 50)
              (main_query_string default_args) "out.json"
              (max_pages default_args) (rows_per_page default_args)
              total hl tr1) as (_ & _ & _ & Hrun).
  - vm_compute. discriminate.
  - exact Hf.
  - left. vm_compute. discriminate.
  - assert (Htr : tr1 = [EvLog INFO MsgFirstPage;
                         EvGet (full_params (main_query_string default_args)
                                  (rows_per_page default_args));
                         EvLog INFO (MsgFound total)]).
    { eapply (first_phase_answered (healthy_env 50) _ _ [] 200);
        [apply healthy_env_token_ok|reflexivity|reflexivity|exact Hf]. }
    subst r. rewrite Hrun by reflexivity. subst tr1.
    split; [reflexivity|]. split; [reflexivity|]. split; reflexivity.
Defined.

(* --------------------------------------------------------------------- *)
(*  T. The accumulator along the pages                                   *)
(* --------------------------------------------------------------------- *)

Lemma merge_page_keeps h pg h' id :
  merge_page h pg = Ok h' ->
  is_Some (h !! id) \/ seen_on id pg -> is_Some (h' !! id).
Proof.
  intros H Hs. pose proof (merge_page_lookup _ _ _ id H) as Hl.
  destruct (last_doc id (page_docs pg)) as [d|] eqn:Hd.
  - destruct Hl as (src & _ & ->). done.
  - rewrite Hl. destruct (page_highlighting pg !! id) as [e|] eqn:Hp;
      [done|].
    destruct Hs as [Hs|[Hs|(d & Hin & Hid)]]; [done|by rewrite Hp in Hs|].
    exfalso. eapply last_doc_None; eauto.
Qed.

(** X14. Nothing is forgotten.  Along any sequence of processed pages the
    set of identifiers of the accumulator only grows, and every identifier
    that occurred on a page (as a key of its highlight mapping or on one
    of its records) is a key of the accumulator afterwards.  (What is
    stored under a key may be replaced; the key stays.) *)
Theorem accumulator_never_forgets h pages h' :
  merge_pages h pages = Ok h' ->
  dom h ⊆ dom h' /\
  (size h <= size h')%nat /\
  (forall pg id, pg ∈ pages -> seen_on id pg -> is_Some (h' !! id)).
Proof.
  intros H.
  assert (Hkeep : forall id,
            is_Some (h !! id) \/ (exists pg, pg ∈ pages /\ seen_on id pg) ->
            is_Some (h' !! id)).
  { revert h H. induction pages as [|pg pages IH]; intros h H id Hs.
    - simpl in H. inversion H; subst.
      destruct Hs as [|(pg & Hin & _)]; [done|].
      by apply elem_of_nil in Hin.
    - simpl in H. apply and_then_inv in H as (h1 & H1 & H2).
      apply (IH _ H2).
      destruct Hs as [Hs|(pg' & [->|Hin]%elem_of_cons & Hseen)].
      + left. eapply merge_page_keeps; eauto.
      + left. eapply merge_page_keeps; eauto.
      + right. eauto. }
  assert (Hdom : dom h ⊆ dom h').
  { intros id Hid. apply elem_of_dom. apply Hkeep. left.
    by apply elem_of_dom. }
  split; [done|]. split.
  - rewrite <- !size_dom. by apply subseteq_size.
  - intros pg id Hin Hseen. apply Hkeep. right. eauto.
Qed.

(** Two pages served one after the other. *)
Lemma accumulator_never_forgets_witness :
  exists h',
    merge_pages ∅ [sample_page 10 ["A"]; sample_page 10 ["B"]] = Ok h' /\
    is_Some (h' !! "A") /\ is_Some (h' !! "B").
Proof.
  destruct (is_ok_inv (merge_pages ∅ [sample_page 10 ["A"];
                                      sample_page 10 ["B"]]))
    as (h' & H); [vm_compute; reflexivity|].
  exists h'. split; [exact H|].
  destruct (accumulator_never_forgets _ _ _ H) as (_ & _ & Hseen).
  split.
  - apply (Hseen (sample_page 10 ["A"])); [by left|].
    right. exists (sample_doc "A"). split; [by left|reflexivity].
  - apply (Hseen (sample_page 10 ["B"])); [right; by left|].
    right. exists (sample_doc "B"). split; [by left|reflexivity].
Defined.

(** X15. Merging a page twice changes nothing more.  When a page has been
    merged into the accumulator, merging the same page again succeeds and
    gives the same accumulator: a page that the service serves a second
    time adds no entry and alters none. *)
Theorem merge_page_idempotent h pg h1 :
  merge_page h pg = Ok h1 -> merge_page h1 pg = Ok h1.
Proof.
  intros H.
  assert (Hok : is_ok (merge_page h1 pg) = true).
  { assert (Hc : forall h0, is_ok (merge_page h0 pg) = complete_page pg).
    { intros h0. unfold merge_page, complete_page.
      destruct (highlighting pg) as [hp|]; [|reflexivity].
      destruct (response pg) as [resp|]; [|reflexivity].
      cbn [field and_then].
      destruct (docs resp) as [ds|]; [|reflexivity].
      cbn [field and_then]. apply add_sources_is_ok. }
    rewrite Hc, <- (Hc h), H. reflexivity. }
  apply is_ok_inv in Hok as (h2 & H2). rewrite H2. f_equal.
  apply map_eq. intros id.
  pose proof (merge_page_lookup _ _ _ id H) as L1.
  pose proof (merge_page_lookup _ _ _ id H2) as L2.
  destruct (last_doc id (page_docs pg)) as [d|].
  - destruct L1 as (src & Hs & L1). destruct L2 as (src' & Hs' & L2).
    assert (src' = src) as -> by congruence.
    rewrite L2. destruct (page_highlighting pg !! id) as [e|].
    + by rewrite L1.
    + rewrite L1. simpl. by rewrite insert_insert_eq.
  - rewrite L2. destruct (page_highlighting pg !! id) as [e|]; [|done].
    by rewrite L1.
Qed.

(** The page of one record merged twice. *)
Lemma merge_page_idempotent_witness :
  exists h1,
    merge_page ∅ (sample_page 10 ["A"]) = Ok h1 /\
    merge_page h1 (sample_page 10 ["A"]) = Ok h1.
Proof.
  destruct (is_ok_inv (merge_page ∅ (sample_page 10 ["A"])))
    as (h1 & H); [vm_compute; reflexivity|].
  exists h1. split; [exact H|].
  exact (merge_page_idempotent _ _ _ H).
Defined.

(* --------------------------------------------------------------------- *)
(*  U. pds_scix_api_highlights.py                                        *)
(* --------------------------------------------------------------------- *)

Lemma length_append s1 s2 :
  String.length (String.append s1 s2) =
    (String.length s1 + String.length s2)%nat.
Proof.
  induction s1 as [|c s1 IH]; [reflexivity|].
  change (String.append (String c s1) s2)
    with (String c (String.append s1 s2)).
  simpl. by rewrite IH.
Qed.

Lemma remove_spaces_append s1 s2 :
  remove_spaces (String.append s1 s2) =
    String.append (remove_spaces s1) (remove_spaces s2).
Proof.
  induction s1 as [|c s1 IH]; [reflexivity|].
  change (String.append (String c s1) s2)
    with (String c (String.append s1 s2)).
  simpl. rewrite IH. by destruct (Ascii.eqb c " ").
Qed.

Lemma remove_spaces_chars s c :
  In c (list_ascii_of_string (remove_spaces s)) <->
  In c (list_ascii_of_string s) /\ c <> " "%char.
Proof.
  induction s as [|a s IH]; simpl; [tauto|].
  destruct (Ascii.eqb_spec a " ") as [->|Hne]; simpl; rewrite IH.
  - split; [tauto|]. intros [[<-|H] Hc]; [done|tauto].
  - split; [|tauto]. intros [<-|H]; tauto.
Qed.

(** X16. The output file name drops the spaces of the search term and
    nothing else, so search terms that differ only in their spaces share
    one output file, although their query strings differ: a space more in
    the search term leaves the file name of line 84 as it was and changes
    the query of line 87. *)
Theorem output_file_ignores_spaces args s1 s2 :
  search_term args = String.append s1 s2 ->
  let args' := {| search_term := String.append s1 (String " " s2);
                  search_field := search_field args;
                  max_pages := max_pages args;
                  rows_per_page := rows_per_page args;
                  output_dir := output_dir args |} in
  output_file_name args' = output_file_name args /\
  main_query_string args' <> main_query_string args /\
  (forall c, In c (list_ascii_of_string (remove_spaces (search_term args)))
             <-> In c (list_ascii_of_string (search_term args)) /\
                 c <> " "%char) /\
  remove_spaces (remove_spaces (search_term args)) =
    remove_spaces (search_term args).
Proof.
  intros Hterm args'. subst args'.
  unfold output_file_name, main_query_string, quoted.
  cbn [search_term search_field]. rewrite Hterm.
  split.
  { rewrite !remove_spaces_append. reflexivity. }
  split.
  { intros Heq. apply (f_equal String.length) in Heq.
    rewrite !length_append in Heq. simpl in Heq. lia. }
  split; [apply remove_spaces_chars|].
  generalize (String.append s1 s2). intros s.
  induction s as [|c s IH]; [reflexivity|]. simpl.
  destruct (Ascii.eqb c " ") eqn:Hc; [exact IH|].
  simpl. by rewrite Hc, IH.
Qed.

(** The default search term with one space more. *)
Lemma output_file_ignores_spaces_witness :
  output_file_name
    {| search_term := "Planetary  Data System"; search_field := "body";
       max_pages := 1; rows_per_page := 100;
       output_dir := "./pds_mentions_results" |} =
  output_file_name default_args.
Proof.
  destruct (output_file_ignores_spaces default_args
              "Planetary " "Data System") as (H & _).
  - reflexivity.
  - exact H.
Defined.

Lemma append_assoc_string s1 s2 s3 :
  String.append s1 (String.append s2 s3) =
    String.append (String.append s1 s2) s3.
Proof.
  induction s1 as [|c s1 IH]; [reflexivity|].
  change (String.append (String c s1) (String.append s2 s3))
    with (String c (String.append s1 (String.append s2 s3))).
  by rewrite IH.
Qed.

Lemma omap_id_nil (terms : list (option string)) :
  omap id terms = [] <-> Forall (fun t => t = None) terms.
Proof.
  induction terms as [|[t|] terms IH].
  - split; [constructor|done].
  - change (omap id (Some t :: terms)) with (t :: omap id terms).
    split; [done|]. intros H. inversion H; subst. done.
  - change (omap id (None :: terms)) with (omap id terms).
    rewrite IH. split; [by constructor|]. intros H. by inversion H.
Qed.

(** X17. [build_query_string] raises the ValueError of line 27 exactly
    when no term is valid, and otherwise returns; missing values are
    ignored wherever they stand; the valid terms are joined in their
    order, each between double quotes, and a term is copied as it is, a
    double quote inside it included. *)
Theorem build_query_string_valid_terms terms :
  (is_ok (build_query_string terms) = false <->
   Forall (fun t => t = None) terms) /\
  (is_ok (build_query_string terms) = false ->
   build_query_string terms =
     Raise (ValueError "No valid search terms provided")) /\
  (forall l1 l2, terms = l1 ++ None :: l2 ->
     build_query_string terms = build_query_string (l1 ++ l2)) /\
  (forall t rest, terms = Some t :: rest ->
     exists tail,
       build_query_string terms =
         Ok (String.append "full:("
              (String.append dquote (String.append t
                 (String.append dquote tail))))).
Proof.
  split; [|split; [|split]].
  - rewrite <- omap_id_nil. unfold build_query_string.
    destruct (omap id terms) as [|v vs]; cbn [is_ok]; split; done.
  - unfold build_query_string. destruct (omap id terms); [done|].
    simpl. done.
  - intros l1 l2 ->. unfold build_query_string.
    rewrite !omap_app. reflexivity.
  - intros t rest ->. unfold build_query_string.
    change (omap id (Some t :: rest)) with (t :: omap id rest).
    destruct (omap id rest) as [|v vs]; cbn [map join].
    + exists ")". unfold quoted.
      rewrite <- !append_assoc_string. reflexivity.
    + eexists. unfold quoted at 1.
      rewrite <- !append_assoc_string. reflexivity.
Qed.

(** A list with a missing value in the middle. *)
Lemma build_query_string_valid_terms_witness :
  build_query_string [Some "PDS"; None; Some "Planetary Data System"] =
  build_query_string [Some "PDS"; Some "Planetary Data System"].
Proof.
  destruct (build_query_string_valid_terms
              [Some "PDS"; None; Some "Planetary Data System"])
    as (_ & _ & H & _).
  apply (H [Some "PDS"] [Some "Planetary Data System"]). reflexivity.
Defined.

(* --------------------------------------------------------------------- *)
(*  V. The pagination tests                                              *)
(* --------------------------------------------------------------------- *)

Lemma windows_new_offsets_nat P (n : nat) :
  0 <= P ->
  windows P (new_offsets P (Z.of_nat n)) = seqZ 0 (Z.of_nat n * P).
Proof.
  intros HP. unfold windows, new_offsets, range.
  induction n as [|n IH]; [reflexivity|].
  rewrite seqZ_S, map_app, map_app, concat_app, IH. simpl.
  rewrite app_nil_r. unfold window.
  replace (Z.of_nat (S n) * P) with (Z.of_nat n * P + P) by lia.
  rewrite seqZ_app by lia. reflexivity.
Qed.

(** X18. The offsets of the fixed logic of test_pagination_logic.py.  For
    a page size and a page count that are not negative, the windows of
    rows asked for at the offsets [page * rows_per_page] are the rows 0,
    1, ..., max_pages * rows_per_page - 1, each once and in order: no row
    is asked for twice and none is skipped.  With 5 rows and 3 pages the
    offsets are those the test expects. *)
Theorem new_offsets_cover_without_overlap P N :
  0 <= P -> 0 <= N ->
  windows P (new_offsets P N) = seqZ 0 (N * P) /\
  NoDup (windows P (new_offsets P N)) /\
  (forall row, In row (windows P (new_offsets P N)) <-> 0 <= row < N * P) /\
  new_offsets 5 3 = [0; 5; 10].
Proof.
  intros HP HN.
  assert (H : windows P (new_offsets P N) = seqZ 0 (N * P)).
  { rewrite <- (Z2Nat.id N) by done. by apply windows_new_offsets_nat. }
  split; [done|]. rewrite H. split; [apply NoDup_seqZ|].
  split; [|reflexivity].
  intros row. rewrite <- list_elem_of_In, elem_of_seqZ. lia.
Qed.

(** Three pages of 100 rows. *)
Lemma new_offsets_cover_without_overlap_witness :
  windows 100 (new_offsets 100 3) = seqZ 0 300.
Proof.
  destruct (new_offsets_cover_without_overlap 100 3) as (H & _).
  - lia.
  - lia.
  - exact H.
Defined.

(** X19. The offsets of the old logic of test_pagination_logic.py.  With
    at least 2 rows per page and at least 2 pages, the windows of rows
    asked for at the offsets [page] overlap: row 1 is asked for by the
    first request and by the second, and only the rows 0, 1, ...,
    max_pages + rows_per_page - 2 are ever asked for.  The two logics
    agree exactly when a page has one row or there is at most one page. *)
Theorem old_offsets_overlap P N :
  2 <= P -> 2 <= N ->
  ~ NoDup (windows P (old_offsets N)) /\
  (exists o1 o2, old_offsets N !! 0%nat = Some o1 /\
                 old_offsets N !! 1%nat = Some o2 /\
                 In 1 (window P o1) /\ In 1 (window P o2)) /\
  (forall row, In row (windows P (old_offsets N)) <->
               0 <= row < N + P - 1) /\
  new_offsets P N <> old_offsets N.
Proof.
  intros HP HN.
  assert (Hold : old_offsets N = 0 :: 1 :: seqZ 2 (N - 2)).
  { unfold old_offsets, range. rewrite map_id.
    rewrite (seqZ_cons 0) by lia. rewrite (seqZ_cons (Z.succ 0)) by lia.
    repeat f_equal; lia. }
  assert (Hw0 : In 1 (window P 0)).
  { unfold window. apply list_elem_of_In, elem_of_seqZ. lia. }
  assert (Hw1 : In 1 (window P 1)).
  { unfold window. apply list_elem_of_In, elem_of_seqZ. lia. }
  split.
  { rewrite Hold. unfold windows. simpl. intros Hnd.
    apply NoDup_app in Hnd as (_ & Hdis & _).
    apply (Hdis 1); [by apply list_elem_of_In|].
    apply elem_of_app. left. by apply list_elem_of_In. }
  split.
  { exists 0, 1. rewrite Hold. done. }
  split.
  { intros row. unfold windows, old_offsets, range. rewrite map_id.
    rewrite in_concat. split.
    - intros (w & Hw & Hrow). apply in_map_iff in Hw as (o & <- & Ho).
      apply list_elem_of_In, elem_of_seqZ in Ho.
      unfold window in Hrow.
      apply list_elem_of_In, elem_of_seqZ in Hrow. lia.
    - intros Hrow. exists (window P (Z.min row (N - 1))). split.
      + apply in_map. apply list_elem_of_In, elem_of_seqZ. lia.
      + unfold window. apply list_elem_of_In, elem_of_seqZ. lia. }
  rewrite Hold. unfold new_offsets, range.
  rewrite (seqZ_cons 0) by lia. rewrite (seqZ_cons (Z.succ 0)) by lia.
  simpl. intros Heq. inversion Heq. lia.
Qed.

(** The values of the test: 100 rows per page, 3 pages. *)
Lemma old_offsets_overlap_witness :
  ~ NoDup (windows 100 (old_offsets 3)).
Proof.
  destruct (old_offsets_overlap 100 3) as (H & _).
  - lia.
  - lia.
  - exact H.
Defined.

(** X20. The duplicate check of test_pagination.py cannot fail.  The
    identifiers it counts are the keys of the dict loaded from the output
    file, and the keys of a dict are pairwise distinct: whatever the
    harvest wrote, the list of keys is as long as the set made of it, and
    the test returns true. *)
Theorem test_pagination_cannot_fail {V} (results : gmap string V) :
  test_pagination_result results = true /\
  NoDup (doc_ids results) /\
  length (doc_ids results) = size results.
Proof.
  assert (Hnd : NoDup (doc_ids results)) by apply NoDup_fst_map_to_list.
  split; [|split; [done|]].
  - unfold test_pagination_result, unique_ids.
    rewrite size_list_to_set by done. apply Nat.eqb_refl.
  - unfold doc_ids. rewrite length_map. apply length_map_to_list.
Qed.

(* --------------------------------------------------------------------- *)
(*  W. The outer handler and the arguments of a dry run                  *)
(* --------------------------------------------------------------------- *)

Lemma try_log_raise {A} (m : M A) tr e tr' :
  try_except m (fun e => log ERROR (MsgHarvestFailed e) >> raise e) tr
    = (Raise e, tr') ->
  exists tr0, m tr = (Raise e, tr0) /\
              tr' = tr0 ++ [EvLog ERROR (MsgHarvestFailed e)].
Proof.
  unfold try_except. destruct (m tr) as [[a|e0|] tr0]; [done| |done].
  unfold log, emit, bind, raise. intros H. inversion H; subst. eauto.
Qed.

(** X21. Which failures are logged by line 225.  When a run raises, the
    last thing it did was to log the exception at line 225, whatever the
    exception and wherever it came from, with one exception: the
    ValueError of the page-size check, raised before the [try], leaves no
    log record at all. *)
Theorem failures_are_logged_last E q save N P e :
  fst (run (harvest_highlights E q save N P)) = Raise e ->
  let tr := snd (run (harvest_highlights E q save N P)) in
  (P <= 2000 -> last tr = Some (EvLog ERROR (MsgHarvestFailed e))) /\
  (2000 < P -> tr = [] /\
               e = ValueError "max_num_rows cannot exceed 2000").
Proof.
  intros He tr. subst tr. split.
  - intros HP. revert He. unfold run, harvest_highlights.
    rewrite harvest_with_guard_passed by done. cbv zeta.
    match goal with
    | |- context [try_except ?m ?h []] =>
        destruct (try_except m h []) as [r tr'] eqn:Hrun
    end.
    cbn [fst snd]. intros ->.
    apply try_log_raise in Hrun as (tr0 & _ & ->).
    apply last_snoc.
  - intros HP. revert He. unfold run, harvest_highlights, harvest_with.
    replace (P >? 2000) with true by lia. cbn [raise fst snd].
    intros H. inversion H. done.
Qed.

(** A machine without the credential file. *)
Lemma failures_are_logged_last_witness :
  let E := {| config_file := None;
              remote := remote (healthy_env 10);
              mkdir_fails := fun _ => None;
              write_fails := fun _ => None |} in
  last (snd (run (harvest_highlights E "q" None 3 5))) =
    Some (EvLog ERROR
            (MsgHarvestFailed
               (FileNotFoundError "API token config file not found"))).
Proof.
  intros E.
  destruct (failures_are_logged_last E "q" None 3 5
              (FileNotFoundError "API token config file not found"))
    as (H & _).
  - reflexivity.
  - apply H. lia.
Defined.

(** X22. A dry run does not look at its paging arguments.  Once the page
    size has passed the check of line 80, a dry run is the same whatever
    the page size and the ceiling: its descriptor asks for 5 rows at
    offset 0. *)
Theorem dry_run_ignores_paging_arguments E q N P N' P' tr :
  P <= 2000 -> P' <= 2000 ->
  harvest_highlights E q None N P tr = harvest_highlights E q None N' P' tr.
Proof.
  intros HP HP'. unfold harvest_highlights.
  by rewrite !harvest_with_guard_passed.
Qed.

(** The defaults against the largest page size and another ceiling. *)
Lemma dry_run_ignores_paging_arguments_witness :
  run (harvest_highlights (healthy_env 50) "q" None 1 100) =
  run (harvest_highlights (healthy_env 50) "q" None 7 2000).
Proof.
  apply (dry_run_ignores_paging_arguments (healthy_env 50) "q" 1 100 7 2000 []).
  - lia.
  - lia.
Defined.
